(** * Visibility rules along an alignment: a shallow embedding

    The development follows the TypeScript sources of the plug-in:

    - [utils/binarySearch.ts]      -> [Module BinarySearch]
    - [utils/frustum.ts]           -> [Module Frustum]
    - [utils/intersect.ts]         -> [Module Intersect]
    - [rules/alignmentWrapper.ts]  -> [Module Wrapper]
    - [rules/alignment.ts]         -> [Module AlignmentRule]
    - [rules/objects.ts]           -> [Module ObjectsRule]
    - [activateDiagnostic] of both -> [Module Playback]
    - [properties.ts]              -> [Module Properties]

    Conventions of the embedding.

    - A JavaScript [number] is an exact rational ([Q]); rounding of doubles
      is outside the model.  Array indices that go through the 32-bit
      operators [>>] and [~] are integers ([Z]) with the wrap-around
      written out ([toInt32]).
    - An output parameter ([target]) is passed in and the new contents are
      returned: [f target args] is the contents of [target] after the call
      (which is also the value the TypeScript method returns).
    - The host library [Math3d], the host objects (alignments, models,
      layers) and the spatial index are not part of the plug-in: they are
      records of functions ([Math3d.Ops], [Host.DwgAlignment],
      [Dwg.Spatial]) or parameters ([selectableObjects]).  The vector
      operations with one meaning ([sub], [dot], [cross], ...) are
      written out; [Module Reference] gives one host to compute with.
    - Object identity ([===], keys of [WeakMap] and [WeakSet]) is the
      [oid] of the object.
    - A loop whose trip count depends on rational data takes [fuel]; the
      result is [None] when the fuel runs out.
    - [Module Spec] holds what the rules are compared with: runs of a
      log of stations, range invariants, means of points; [Module Laws]
      holds further terms of that kind, [Module Samples] further objects
      to compute with.
    - An object edited by a property provider is the finite map of its
      fields ([gmap]); [parseFloat] is a parameter. *)

From Equations Require Import Equations.
From Stdlib Require Import QArith Qabs Qround ZArith List Lia Lqa Bool Sorted String.
From stdpp Require Import base option gmap sets strings.
Import ListNotations.
Open Scope Q_scope.

(** ** JavaScript numbers *)

Module Js.

Definition ltb (a b : Q) : bool := if Qlt_le_dec a b then true else false.
Definition leb (a b : Q) : bool := if Qlt_le_dec b a then false else true.
Definition eqb (a b : Q) : bool := Qeq_bool a b.

(** [ToInt32], the conversion done by the bitwise operators. *)
Definition toInt32 (z : Z) : Z := ((z + 2 ^ 31) mod 2 ^ 32 - 2 ^ 31)%Z.
(** [z >> k] *)
Definition sar (z k : Z) : Z := Z.shiftr (toInt32 z) k.
(** [~z] *)
Definition bitnot (z : Z) : Z := Z.lnot (toInt32 z).

(** [a[i]]: [None] stands for [undefined]. *)
Definition item {T : Type} (a : list T) (i : Z) : option T :=
  if (i <? 0)%Z then None else nth_error a (Z.to_nat i).

(** [Number.MAX_VALUE] *)
Definition MAX_VALUE : Q := inject_Z ((2 ^ 53 - 1) * 2 ^ 971).

End Js.

(** ** utils/binarySearch.ts *)

Module BinarySearch.
Import Js.

Section Search.
Context {T : Type}.
Variable sortedArray : list T.
Variable target : T.
Variable comparator : T -> T -> Q.

(** The [while (startIndex <= endIndex)] loop.  [None] is returned where
    the index arithmetic leaves the array: [endIndex - startIndex] does not
    fit in 31 bits, or the element read is [undefined]. *)
Equations? loop (startIndex endIndex : Z) : option Z
  by wf (Z.to_nat (endIndex - startIndex + 1)) lt :=
  loop startIndex endIndex with Z_le_dec startIndex endIndex => {
    | right _ => Some (bitnot startIndex)
    | left _ with Z_lt_dec (endIndex - startIndex) (2 ^ 31) => {
      | right _ => None
      | left _ with item sortedArray (startIndex + sar (endIndex - startIndex) 1) => {
        | None => None
        | Some midElement with eqb (comparator target midElement) 0 => {
          | true => Some (startIndex + sar (endIndex - startIndex) 1)%Z
          | false with ltb 0 (comparator target midElement) => {
            | true => loop (startIndex + sar (endIndex - startIndex) 1 + 1)%Z endIndex
            | false => loop startIndex (startIndex + sar (endIndex - startIndex) 1 - 1)%Z
            }
          }
        }
      }
    }.
Proof.
  all: unfold sar, toInt32; rewrite Z.shiftr_div_pow2 by lia;
    rewrite Z.mod_small by lia; change (2 ^ 1)%Z with 2%Z.
  all: pose proof (Z.div_le_upper_bound
                     (endIndex - startIndex + 2 ^ 31 - 2 ^ 31) 2
                     (endIndex - startIndex) ltac:(lia) ltac:(lia));
    pose proof (Z.div_pos (endIndex - startIndex + 2 ^ 31 - 2 ^ 31) 2
                  ltac:(lia) ltac:(lia)); lia.
Qed.

Definition binarySearch : option Z :=
  loop 0 (Z.of_nat (List.length sortedArray) - 1).

End Search.
End BinarySearch.

(** ** The host library Math3d *)

Module Math3d.

Definition vec2 : Type := Q * Q.
Definition vec3 : Type := Q * Q * Q.
(** [ray3]: origin and direction (six numbers). *)
Definition ray3 : Type := vec3 * vec3.

Definition vec3_zero : vec3 := (0, 0, 0).
Definition ray3_zero : ray3 := (vec3_zero, vec3_zero).

Definition vec3_make (x y z : Q) : vec3 := (x, y, z).
Definition vec3_sub (a b : vec3) : vec3 :=
  let '(ax, ay, az) := a in let '(bx, by_, bz) := b in
  (ax - bx, ay - by_, az - bz).
Definition vec3_mul (a : vec3) (k : Q) : vec3 :=
  let '(ax, ay, az) := a in (ax * k, ay * k, az * k).
Definition vec3_neg (a : vec3) : vec3 :=
  let '(ax, ay, az) := a in (- ax, - ay, - az).
Definition vec3_dot (a b : vec3) : Q :=
  let '(ax, ay, az) := a in let '(bx, by_, bz) := b in
  ax * bx + ay * by_ + az * bz.
Definition vec3_cross (a b : vec3) : vec3 :=
  let '(ax, ay, az) := a in let '(bx, by_, bz) := b in
  (ay * bz - az * by_, az * bx - ax * bz, ax * by_ - ay * bx).
Definition vec2_dot (a b : vec2) : Q :=
  let '(ax, ay) := a in let '(bx, by_) := b in ax * bx + ay * by_.

(** A [vec3] passed where a [vec2] is expected: the first two numbers. *)
Definition xy (v : vec3) : vec2 := let '(x, y, _) := v in (x, y).
(** Writing a [vec2] result into a three-number array keeps the third. *)
Definition set_xy (v : vec3) (p : vec2) : vec3 :=
  let '(_, _, z) := v in let '(x, y) := p in (x, y, z).
Definition set_z (v : vec3) (z : Q) : vec3 :=
  let '(x, y, _) := v in (x, y, z).

Definition ray3_make (origin direction : vec3) : ray3 := (origin, direction).
Definition ray3_at (r : ray3) (t : Q) : vec3 :=
  let '(o, d) := r in
  let '(ox, oy, oz) := o in let '(dx, dy, dz) := d in
  (ox + dx * t, oy + dy * t, oz + dz * t).

(** What the plug-in takes from the host and does not define. *)
Class Ops : Type := {
  sqrt : Q -> Q;
  mat4 : Type;
  mat4_mulv3 : mat4 -> vec3 -> vec3;
  mat4_inverse : mat4 -> mat4;
  vec2_normalize : vec2 -> vec2;
  ray3_closestPointToRay : ray3 -> ray3 -> Q;
  ray3_distanceToPoint : ray3 -> vec3 -> Q;
}.

Definition vec3_len `{Ops} (a : vec3) : Q := sqrt (vec3_dot a a).
Definition vec3_distance `{Ops} (a b : vec3) : Q := vec3_len (vec3_sub b a).

End Math3d.

(** ** utils/frustum.ts *)

Module Frustum.
Import Js Math3d.

Definition EPS : Q := 1 # 1000.
Definition INF : Q := MAX_VALUE.

Record SegmentFrustum : Type := { _a : vec3; _b : vec3 }.

Section Methods.
Context `{Ops}.

Definition ray (this : SegmentFrustum) (target : ray3) : ray3 :=
  let direction := vec3_sub (_b this) (_a this) in
  let distance := vec3_len direction in
  if ltb distance EPS then target
  else ray3_make (_a this) (vec3_mul direction (1 / distance)).

Definition containsPoint (this : SegmentFrustum) (point : vec3) : bool :=
  let ray := ray this ray3_zero in
  let distance := ray3_distanceToPoint ray point in
  ltb distance EPS.

Definition intersectSegment (this : SegmentFrustum) (a b : vec3) : bool :=
  let length := vec3_distance a b in
  if ltb length EPS then containsPoint this a
  else
    let direction := vec3_mul (vec3_sub b a) (1 / length) in
    let segment := ray3_make a direction in
    let ray := ray this ray3_zero in
    let t := ray3_closestPointToRay segment ray in
    if ltb 0 t || ltb length t then false
    else containsPoint this (ray3_at segment t).

Definition transformed (this : SegmentFrustum) (matrix : mat4) : SegmentFrustum :=
  {| _a := mat4_mulv3 matrix (_a this); _b := mat4_mulv3 matrix (_b this) |}.

Definition tolerance (this : SegmentFrustum) : Q := INF.

Definition clipLine (this : SegmentFrustum) (line : ray3) : bool := false.
Definition clipRay (this : SegmentFrustum) (r : ray3) : bool := false.
Definition clipSegment (this : SegmentFrustum) (a b : vec3) : bool := false.

End Methods.
End Frustum.

(** ** Host objects: meshes and models *)

Module Dwg.
Import Math3d.

Inductive DwgType : Type := alignment | model3d | other.

Definition DwgType_eqb (a b : DwgType) : bool :=
  match a, b with
  | alignment, alignment | model3d, model3d | other, other => true
  | _, _ => false
  end.

(** The triangle index of a geometry: [walkSegment a b] lists the
    triangles handed to the callback, in order. *)
Record Spatial : Type := { walkSegment : vec3 -> vec3 -> list nat }.

Record Geometry : Type := {
  vertices : list Q;
  indices : list nat;
  spatial : option Spatial;
}.

Record Mesh : Type := { geometry : option Geometry }.

(** A layer of the drawing; [lid] is its identity. *)
Record DwgLayer : Type := {
  lid : nat;
  name : string;
  parentName : option string;
  modelName : option string;
}.

(** A drawing object.  [oid] is its identity; [matrix] and [meshes] are
    read only for a [model3d]. *)
Record DwgObject `{Ops} : Type := {
  oid : nat;
  type : DwgType;
  layer : option DwgLayer;
  matrix : mat4;
  meshes : list Mesh;
}.

End Dwg.

(** ** utils/intersect.ts *)

Module Intersect.
Import Js Math3d Dwg.

Definition EPS : Q := 1 # 1000.
Definition EPS2 : Q := 1 # 10000000.

Section Functions.
Context `{Ops}.

Definition segmentIntersectsTriangle (sa sb ta tb tc : vec3) : bool :=
  let '(sa0, sa1, sa2) := sa in
  let '(sb0, sb1, sb2) := sb in
  let '(ta0, ta1, ta2) := ta in
  let mdx := sa0 - sb0 in
  let mdy := sa1 - sb1 in
  let mdz := sa2 - sb2 in
  let l2 := mdx * mdx + mdy * mdy + mdz * mdz in
  if ltb l2 EPS2 then false
  else
    let l := sqrt l2 in
    let _v1 := (mdx / l, mdy / l, mdz / l) in
    let _v2 := vec3_sub tb ta in
    let _v3 := vec3_sub tc ta in
    let _v4 := vec3_cross _v2 _v3 in
    let idet := vec3_dot _v1 _v4 in
    if ltb idet EPS then false
    else
      let det := 1 / vec3_dot _v1 _v4 in
      let _v5 := (sa0 - ta0, sa1 - ta1, sa2 - ta2) in
      let t := det * vec3_dot _v5 _v4 in
      if ltb t (- EPS) || ltb (l + EPS) t then false
      else
        let u := det * vec3_dot _v5 (vec3_cross _v3 _v1) in
        if ltb u (- EPS) || ltb (1 + EPS) u then false
        else
          let v := det * vec3_dot _v5 (vec3_cross _v1 _v2) in
          if ltb v (- EPS) || ltb (1 + EPS) v || ltb (1 + EPS) (u + v) then false
          else true.

(** Three consecutive numbers of the vertex buffer. *)
Definition vertexAt (vertices : list Q) (i3 : nat) : option vec3 :=
  match nth_error vertices i3, nth_error vertices (i3 + 1),
        nth_error vertices (i3 + 2) with
  | Some x, Some y, Some z => Some (x, y, z)
  | _, _, _ => None
  end.

(** The callback of [walkSegment], with [intersects] as its state.  A
    number read outside a buffer is [undefined]; it turns [idet], [t], [u]
    and [v] into [NaN], every later comparison is false, and only the
    length guard of [segmentIntersectsTriangle] can still reject. *)
Definition visitTriangle (vertices : list Q) (indices : list nat)
    (_v7 _v8 : vec3) (intersects : bool) (triangle : nat) : bool :=
  if intersects then intersects
  else
    let t3 := (triangle * 3)%nat in
    let corner (k : nat) : option vec3 :=
      match nth_error indices (t3 + k) with
      | Some i => vertexAt vertices (i * 3)
      | None => None
      end in
    match corner 0%nat, corner 1%nat, corner 2%nat with
    | Some _v9, Some _v10, Some _v11 =>
        segmentIntersectsTriangle _v7 _v8 _v9 _v10 _v11
    | _, _, _ =>
        let d := vec3_sub _v7 _v8 in negb (ltb (vec3_dot d d) EPS2)
    end.

Fixpoint meshesIntersect (meshes : list Mesh) (_v7 _v8 : vec3) : bool :=
  match meshes with
  | [] => false
  | mesh :: rest =>
      match geometry mesh with
      | None => meshesIntersect rest _v7 _v8
      | Some geometry =>
          match spatial geometry with
          | None => meshesIntersect rest _v7 _v8
          | Some spatial =>
              let intersects :=
                fold_left (visitTriangle (vertices geometry) (indices geometry) _v7 _v8)
                          (walkSegment spatial _v7 _v8) false in
              if intersects then true else meshesIntersect rest _v7 _v8
          end
      end
  end.

Definition modelIntersectsSegment (model : DwgObject) (inverse : mat4)
    (a b : vec3) : bool :=
  let _v7 := mat4_mulv3 inverse a in
  let _v8 := mat4_mulv3 inverse b in
  meshesIntersect (meshes model) _v7 _v8.

End Functions.
End Intersect.

(** ** Host objects: layers, alignments, the drawing layer *)

Module Host.
Import Math3d Dwg Frustum.

(** An interpolated [${x}] prints [undefined] for a missing value. *)
Definition interpolate (s : option string) : string :=
  match s with Some x => x | None => "undefined"%string end.

(** [`${x.layer?.layer?.name}/${x.layer?.name}`] *)
Definition layerPath (l : option DwgLayer) : string :=
  (interpolate (l ≫= parentName) ++ "/" ++ interpolate (name <$> l))%string.

(** The alignment of the host.  Each query takes the output array and
    returns its new contents. *)
Record DwgAlignment : Type := {
  length : Q;
  alignmentLayer : option DwgLayer;
  tangentAt : vec3 -> Q -> vec3;
  toWCS : vec2 -> vec2 -> vec2;
  fromWCS : vec2 -> vec2 -> vec2;
  elevationAt : Q -> Q;
  toPK : Q -> string;
}.

(** [ctx.tr(template, ...args)] *)
Record Tr : Type := { template : string; args : list string }.

Inductive DiagnosticSeverity : Type := Error | Warning.

Record Diagnostic : Type := {
  message : Tr;
  severity : DiagnosticSeverity;
  source : option string;
  tooltip : Tr;
}.

Section Select.
Context `{Ops}.

(** [WeakMap<DwgModel3d, mat4>] *)
Definition InverseMatrices : Type := gmap nat mat4.

(** [drawingLayer.selectableObjects(frustum, predicate)], drained: the
    objects the index offers for the frustum, filtered by the predicate,
    which may fill the cache of inverse matrices. *)
Fixpoint drain (predicate : InverseMatrices -> DwgObject -> bool * InverseMatrices)
    (candidates : list DwgObject) (inverseMatrices : InverseMatrices)
    : list DwgObject * InverseMatrices :=
  match candidates with
  | [] => ([], inverseMatrices)
  | obj :: rest =>
      let '(keep, inverseMatrices) := predicate inverseMatrices obj in
      let '(found, inverseMatrices) := drain predicate rest inverseMatrices in
      (if keep then obj :: found else found, inverseMatrices)
  end.

(** [inverseMatrices.get(model)], computed and stored when missing. *)
Definition inverseOf (inverseMatrices : InverseMatrices) (model : DwgObject)
    : mat4 * InverseMatrices :=
  match inverseMatrices !! oid model with
  | Some inverse => (inverse, inverseMatrices)
  | None =>
      let inverse := mat4_inverse (matrix model) in
      (inverse, <[oid model := inverse]> inverseMatrices)
  end.

End Select.

(** [for (let station = from; station <= length; station += step)] *)
Fixpoint forStations {S : Type} (fuel : nat) (length step : Q)
    (body : Q -> S -> option S) (station : Q) (st : S) : option S :=
  match fuel with
  | O => None
  | Datatypes.S fuel =>
      if Js.leb station length then
        st ← body station st;
        forStations fuel length step body (station + step) st
      else Some st
  end.

(** A number of iterations after which a loop from 0 by [step] has
    passed [length]. *)
Definition iterations (length step : Q) : nat :=
  Z.to_nat (Qfloor (length / step) + 1).

End Host.

(** ** rules/alignmentWrapper.ts *)

Module Wrapper.
Import Math3d Host.

Inductive MoveDirection : Type := FORWARD | BACKWARD.

(** [WeakRef<T>]: [deref] is [None] once the referent is gone. *)
Record WeakRef (T : Type) : Type := { deref : option T }.
Arguments deref {T} _.

Record AlignmentWrapper : Type := {
  alignment : WeakRef DwgAlignment;
  length : Q;
  modelName : string;
  source : string;
  direction : MoveDirection;
}.

Definition new (a : DwgAlignment) (direction : MoveDirection) : AlignmentWrapper := {|
  alignment := {| deref := Some a |};
  length := Host.length a;
  modelName := default EmptyString (Host.alignmentLayer a ≫= Dwg.modelName);
  source := layerPath (Host.alignmentLayer a);
  direction := direction;
|}.

(** The wrapper after its alignment has been destroyed. *)
Definition destroyed (this : AlignmentWrapper) : AlignmentWrapper := {|
  alignment := {| deref := None |};
  length := length this;
  modelName := modelName this;
  source := source this;
  direction := direction this;
|}.

Definition tangentAt (this : AlignmentWrapper) (target : vec3) (station : Q) : vec3 :=
  match deref (alignment this) with
  | None => target
  | Some alignment =>
      match direction this with
      | FORWARD => Host.tangentAt alignment target station
      | BACKWARD =>
          let target := Host.tangentAt alignment target (length this - station) in
          vec3_neg target
      end
  end.

Definition toWCS (this : AlignmentWrapper) (target : vec2) (stationOffset : vec2) : vec2 :=
  match deref (alignment this) with
  | None => target
  | Some alignment =>
      match direction this with
      | FORWARD => Host.toWCS alignment target stationOffset
      | BACKWARD =>
          Host.toWCS alignment target
            (length this - fst stationOffset, - snd stationOffset)
      end
  end.

Definition fromWCS (this : AlignmentWrapper) (target : vec2) (point : vec2) : vec2 :=
  match deref (alignment this) with
  | None => target
  | Some alignment =>
      match direction this with
      | FORWARD => Host.fromWCS alignment target point
      | BACKWARD =>
          let target := Host.fromWCS alignment target point in
          (length this - fst target, - snd target)
      end
  end.

Definition elevationAt (this : AlignmentWrapper) (station : Q) : Q :=
  match deref (alignment this) with
  | None => 0
  | Some alignment =>
      match direction this with
      | FORWARD => Host.elevationAt alignment station
      | BACKWARD => Host.elevationAt alignment (length this - station)
      end
  end.

Definition toPK (this : AlignmentWrapper) (station : Q) : string :=
  match deref (alignment this) with
  | None => EmptyString
  | Some alignment =>
      match direction this with
      | FORWARD => Host.toPK alignment station
      | BACKWARD => Host.toPK alignment (length this - station)
      end
  end.

End Wrapper.

(** ** rules/alignment.ts: visibility along the alignment *)

Module AlignmentRule.
Import Js Math3d Dwg Frustum Intersect Host.

Record AlignmentVisibilityRule : Type := {
  alignmentFilter : string;
  obstacleFilter : string;
  viewPointOffset : Q;
  viewPointElevation : Q;
  objectOffset : Q;
  objectElevation : Q;
  direction : Wrapper.MoveDirection;
  viewDistance : Q;
  viewPointStep : Q;
  objectStep : Q;
}.

(** [[observer station, object station]] *)
Definition AlignmentVisibilityDiagnosticKeyFrame : Type := Q * Q.

(** [AlignmentVisibilityDiagnostic extends Diagnostic] *)
Record AlignmentVisibilityDiagnostic : Type := {
  diagnostic : Diagnostic;
  alignment : Wrapper.AlignmentWrapper;
  rule : AlignmentVisibilityRule;
  obstacles : gset nat;
  keyFrames : list AlignmentVisibilityDiagnosticKeyFrame;
}.

(** An element of [messages[modelName]]. *)
Definition Entry : Type := Diagnostic + AlignmentVisibilityDiagnostic.

Definition createRule : AlignmentVisibilityRule := {|
  alignmentFilter := "$type_1 = SmdxElement";
  obstacleFilter := "$type_1 = SmdxElement";
  viewPointOffset := 0;
  viewPointElevation := 12 # 10;
  objectOffset := 0;
  objectElevation := 2 # 10;
  direction := Wrapper.FORWARD;
  viewDistance := 300;
  viewPointStep := 1;
  objectStep := 1;
|}.

(** The range being accumulated: [rangeStart], [rangeKeyFrames],
    [obstaclesAtStation]. *)
Record Range : Type := {
  rangeStart : Q;
  rangeKeyFrames : list AlignmentVisibilityDiagnosticKeyFrame;
  obstaclesAtStation : gset nat;
}.

Definition noRange : Range :=
  {| rangeStart := -1; rangeKeyFrames := []; obstaclesAtStation := ∅ |}.

(** The last key frame is overwritten when the last two object stations
    differ by less than 0.01, else a key frame is pushed. *)
Definition addKeyFrame (rangeKeyFrames : list AlignmentVisibilityDiagnosticKeyFrame)
    (station objectStation : Q) : list AlignmentVisibilityDiagnosticKeyFrame :=
  match rev rangeKeyFrames with
  | last :: previous :: _ =>
      if ltb (Qabs (snd last - snd previous)) (1 # 100)
      then removelast rangeKeyFrames ++ [(station, objectStation)]
      else rangeKeyFrames ++ [(station, objectStation)]
  | _ => rangeKeyFrames ++ [(station, objectStation)]
  end.

Definition violation (this : Wrapper.AlignmentWrapper) (rule : AlignmentVisibilityRule)
    (range : Range) (rangeEnd : Q) : AlignmentVisibilityDiagnostic := {|
  diagnostic := {|
    message := {| template := "На участке от {0} до {1} видимость не обеспечена";
                  args := [Wrapper.toPK this (rangeStart range);
                           Wrapper.toPK this rangeEnd] |};
    severity := Error;
    source := Some (Wrapper.source this);
    tooltip := {| template := "Препятствия мешают видимости"; args := [] |};
  |};
  alignment := this;
  rule := rule;
  obstacles := obstaclesAtStation range;
  keyFrames := rangeKeyFrames range;
|}.

Definition noObstacleLayers : Diagnostic := {|
  message := {| template := "Не найдены подходящие объекты препятствий"; args := [] |};
  severity := Warning;
  source := None;
  tooltip := {| template := "Не удалось найти слои препятствий, удовлетворяющие заданному фильтру";
                args := [] |};
|}.

Section Execute.
Context `{Ops}.
Variable rule : AlignmentVisibilityRule.
(** [drawing.filterLayers(rule.obstacleFilter, false)], as layer identities. *)
Variable obstacleLayers : gset nat.
(** The candidates the drawing layer offers for a frustum. *)
Variable selectableObjects : SegmentFrustum -> list DwgObject.

(** The arrays and the cache shared by all stations of [execute]. *)
Record Scratch : Type := {
  viewPoint : vec3;
  objectPoint : vec3;
  inverseMatrices : InverseMatrices;
}.

Definition onObstacleLayer (obj : DwgObject) : bool :=
  match layer obj with
  | Some l => bool_decide (lid l ∈ obstacleLayers)
  | None => false
  end.

(** The predicate given to [selectableObjects]. *)
Definition predicate (viewPoint objectPoint : vec3)
    (inverseMatrices : InverseMatrices) (obj : DwgObject) : bool * InverseMatrices :=
  if negb (DwgType_eqb (type obj) model3d) || negb (onObstacleLayer obj)
  then (false, inverseMatrices)
  else
    let '(inverse, inverseMatrices) := inverseOf inverseMatrices obj in
    (modelIntersectsSegment obj inverse viewPoint objectPoint, inverseMatrices).

Section Alignment.
Variable this : Wrapper.AlignmentWrapper.
Let length : Q := Wrapper.length this.

(** The inner loop [for (objectStation = ...; objectStation <= length; ...)]:
    [hasObstacles], the value of [objectStation] when the loop is left,
    [obstaclesAtStation] and the scratch arrays. *)
Fixpoint findObstacles (fuel : nat) (objectStation : Q)
    (obstaclesAtStation : gset nat) (sc : Scratch)
    : option (bool * Q * gset nat * Scratch) :=
  match fuel with
  | O => None
  | S fuel =>
      if leb objectStation length then
        let objectPoint :=
          set_xy (objectPoint sc)
            (Wrapper.toWCS this (xy (objectPoint sc)) (objectStation, objectOffset rule)) in
        let objectPoint :=
          set_z objectPoint (Wrapper.elevationAt this objectStation + objectElevation rule) in
        let direction := vec3_sub objectPoint (viewPoint sc) in
        let distance := vec3_len direction in
        if ltb (viewDistance rule) distance then
          Some (false, objectStation, obstaclesAtStation,
                {| viewPoint := viewPoint sc; objectPoint := objectPoint;
                   inverseMatrices := inverseMatrices sc |})
        else
          let frustum := {| _a := viewPoint sc; _b := objectPoint |} in
          let '(obstacles, inverseMatrices) :=
            drain (predicate (viewPoint sc) objectPoint)
                  (selectableObjects frustum) (inverseMatrices sc) in
          let sc := {| viewPoint := viewPoint sc; objectPoint := objectPoint;
                       inverseMatrices := inverseMatrices |} in
          match obstacles with
          | [] => findObstacles fuel (objectStation + objectStep rule) obstaclesAtStation sc
          | _ :: _ =>
              Some (true, objectStation,
                    obstaclesAtStation ∪ list_to_set (oid <$> obstacles), sc)
          end
      else Some (false, objectStation, obstaclesAtStation, sc)
  end.

(** The second half of the loop body ("formation of the diagnostic
    messages"), given what the inner loop left in [hasObstacles],
    [objectStation] and [obstaclesAtStation]. *)
Definition note (station : Q) (seen : bool * Q * gset nat)
    (st : Range * list Entry) : Range * list Entry :=
  let '(hasObstacles, objectStation, obstaclesAtStation) := seen in
  let '(range, collection) := st in
  let range := {| rangeStart := rangeStart range;
                  rangeKeyFrames := rangeKeyFrames range;
                  obstaclesAtStation := obstaclesAtStation |} in
  if negb hasObstacles then
    if leb 0 (rangeStart range)
    then (noRange, collection ++ [inr (violation this rule range station)])
    else (range, collection)
  else
    ({| rangeStart := if ltb (rangeStart range) 0 then station else rangeStart range;
        rangeKeyFrames := addKeyFrame (rangeKeyFrames range) station objectStation;
        obstaclesAtStation := obstaclesAtStation |},
     collection).

(** The first half of the loop body: the view point and the inner loop.
    The progress report and the yield to the event loop change nothing
    here. *)
Definition look (fuel : nat) (station : Q) (obstaclesAtStation : gset nat)
    (sc : Scratch) : option (bool * Q * gset nat * Scratch) :=
  let viewPoint :=
    set_xy (viewPoint sc)
      (Wrapper.toWCS this (xy (viewPoint sc)) (station, viewPointOffset rule)) in
  let viewPoint :=
    set_z viewPoint (Wrapper.elevationAt this station + viewPointElevation rule) in
  let sc := {| viewPoint := viewPoint; objectPoint := objectPoint sc;
               inverseMatrices := inverseMatrices sc |} in
  findObstacles fuel (station + objectStep rule) obstaclesAtStation sc.

(** The body of [for (let station = 0; station <= length; ...)]. *)
Definition visit (fuel : nat) (station : Q)
    (st : Scratch * Range * list Entry) : option (Scratch * Range * list Entry) :=
  let '(sc, range, collection) := st in
  '(hasObstacles, objectStation, obstaclesAtStation, sc) ←
    look fuel station (obstaclesAtStation range) sc;
  let '(range, collection) :=
    note station (hasObstacles, objectStation, obstaclesAtStation) (range, collection) in
  Some (sc, range, collection).

(** What the loop sees, station by station, from [station] on: the
    verdict [hasObstacles], the object station reached and the obstacles
    found there. *)
Fixpoint verdicts (inner fuel : nat) (station : Q) (sc : Scratch)
    : option (list (Q * (bool * Q * gset nat)) * Scratch) :=
  match fuel with
  | O => None
  | S fuel =>
      if leb station length then
        '(hasObstacles, objectStation, found, sc) ← look inner station ∅ sc;
        '(rest, sc) ← verdicts inner fuel (station + viewPointStep rule) sc;
        Some ((station, (hasObstacles, objectStation, found)) :: rest, sc)
      else Some ([], sc)
  end.

(** One iteration of [for (const alignment of alignments)], given the
    array [messages[modelName]] (empty when it was undefined). *)
Definition scan (fuel : nat) (sc : Scratch) (collection : list Entry)
    : option (Scratch * list Entry) :=
  '(sc, range, collection) ←
    forStations fuel length (viewPointStep rule) (visit fuel) 0 (sc, noRange, collection);
  if leb 0 (rangeStart range)
  then Some (sc, collection ++ [inr (violation this rule range length)])
  else Some (sc, collection).

End Alignment.

Fixpoint scanAll (fuel : nat) (alignments : list Wrapper.AlignmentWrapper)
    (sc : Scratch) (messages : gmap string (list Entry))
    : option (gmap string (list Entry)) :=
  match alignments with
  | [] => Some messages
  | alignment :: rest =>
      let modelName := Wrapper.modelName alignment in
      '(sc, collection) ← scan alignment fuel sc (default [] (messages !! modelName));
      scanAll fuel rest sc (<[modelName := collection]> messages)
  end.

(** [execute], from the point where the drawing, the view and the drawing
    layer are known: [modelName] is [drawing.layers.layer0?.modelName ?? ''],
    [found] the alignments selected by [rule.alignmentFilter].  The result
    is what [diagnostics.set] receives. *)
Definition execute (fuel : nat) (modelName : string) (found : list DwgAlignment)
    : option (gmap string (list Entry)) :=
  let alignments := (fun align => Wrapper.new align (direction rule)) <$> found in
  let messages : gmap string (list Entry) :=
    if bool_decide (size obstacleLayers = 0%nat)
    then {[ modelName := [inl noObstacleLayers] ]}
    else ∅ in
  scanAll fuel alignments
    {| viewPoint := vec3_zero; objectPoint := vec3_zero; inverseMatrices := ∅ |}
    messages.

End Execute.
End AlignmentRule.

(** ** rules/objects.ts: visibility of objects from the alignment *)

Module ObjectsRule.
Import Js Math3d Dwg Frustum Intersect Host.

Inductive Side : Type := LEFT | RIGHT | BOTH.

Record ObjectsVisibilityRule : Type := {
  alignmentFilter : string;
  objectFilter : string;
  direction : Wrapper.MoveDirection;
  side : Side;
  viewPointOffset : Q;
  viewPointElevation : Q;
  viewPointStep : Q;
  viewDistance : Q;
}.

(** [ObjectVisibilityDiagnostic extends Diagnostic]; [object] is the
    identity held by the [WeakRef]. *)
Record ObjectVisibilityDiagnostic : Type := {
  diagnostic : Diagnostic;
  alignment : Wrapper.AlignmentWrapper;
  object : nat;
  rule : ObjectsVisibilityRule;
  obstacles : gset nat;
  rangeStart : Q;
  rangeEnd : Q;
}.

Definition Entry : Type := Diagnostic + ObjectVisibilityDiagnostic.

Definition createRule : ObjectsVisibilityRule := {|
  alignmentFilter := "$type_1 = SmdxElement";
  objectFilter := "$type_3 = SmdxRoadSignItem";
  direction := Wrapper.FORWARD;
  side := BOTH;
  viewPointOffset := 0;
  viewPointElevation := 12 # 10;
  viewPointStep := 1;
  viewDistance := 300;
|}.

(** The inner loop of [modelCenter] over one index buffer: the sums and
    the count.  [None] is a read outside the vertex buffer (the sum
    becomes [NaN]). *)
Fixpoint sumVertices (vertices : list Q) (indices : list nat)
    (acc : Q * Q * Q * nat) : option (Q * Q * Q * nat) :=
  match indices with
  | [] => Some acc
  | i :: rest =>
      let '(x, y, z, n) := acc in
      v ← vertexAt vertices (i * 3);
      let '(vx, vy, vz) := v in
      sumVertices vertices rest (x + vx, y + vy, z + vz, Datatypes.S n)
  end.

(** The loop of [modelCenter] over the meshes: [success], sums, count. *)
Fixpoint sumMeshes (meshes : list Mesh) (success : bool) (acc : Q * Q * Q * nat)
    : option (bool * (Q * Q * Q * nat)) :=
  match meshes with
  | [] => Some (success, acc)
  | mesh :: rest =>
      match geometry mesh with
      | None => sumMeshes rest success acc
      | Some geometry =>
          acc ← sumVertices (vertices geometry) (indices geometry) acc;
          sumMeshes rest true acc
      end
  end.

(** [modelCenter(target, model)]: the returned flag and the contents of
    [target] after the call. *)
Definition modelCenter `{Ops} (target : vec3) (model : DwgObject)
    : option (bool * vec3) :=
  '(success, (x, y, z, n)) ← sumMeshes (meshes model) false (0, 0, 0, 0%nat);
  if Nat.eqb n 0 then Some (false, target)
  else
    let n := inject_Z (Z.of_nat n) in
    let target := vec3_make (x / n) (y / n) (z / n) in
    let target := mat4_mulv3 (matrix model) target in
    Some (success, target).

Record Range : Type := {
  start : Q;
  end_ : Q;
  obstaclesAtRange : gset nat;
}.

Definition noRange : Range := {| start := -1; end_ := -1; obstaclesAtRange := ∅ |}.

Definition violation (this : Wrapper.AlignmentWrapper) `{Ops} (object : DwgObject)
    (rule : ObjectsVisibilityRule) (range : Range) (upTo : Q)
    : ObjectVisibilityDiagnostic := {|
  diagnostic := {|
    message := {| template := "На участке от {0} до {1} видимость объекта не обеспечена";
                  args := [Wrapper.toPK this (start range); Wrapper.toPK this upTo] |};
    severity := Error;
    source := Some (Wrapper.source this ++ ", " ++ layerPath (layer object))%string;
    tooltip := {| template := "Препятствия мешают видимости"; args := [] |};
  |};
  alignment := this;
  object := oid object;
  rule := rule;
  obstacles := obstaclesAtRange range;
  rangeStart := start range;
  rangeEnd := end_ range;
|}.

Definition noAlignments : Diagnostic := {|
  message := {| template := "Не найдены подходящие слои трасс"; args := [] |};
  severity := Warning;
  source := None;
  tooltip := {| template := "Не удалось найти слои трасс, удовлетворяющие заданному фильтру";
                args := [] |};
|}.

Definition noObjects : Diagnostic := {|
  message := {| template := "Не найдены подходящие слои объектов"; args := [] |};
  severity := Warning;
  source := None;
  tooltip := {| template := "Не удалось найти слои объектов, удовлетворяющие заданному фильтру";
                args := [] |};
|}.

Section Execute.
Context `{Ops}.
Variable rule : ObjectsVisibilityRule.
Variable selectableObjects : SegmentFrustum -> list DwgObject.

(** The arrays and the cache shared by all iterations of [execute]. *)
Record Scratch : Type := {
  objectCenter : vec3;
  stationOffset : vec2;
  viewPoint : vec3;
  tg : vec3;
  inverseMatrices : InverseMatrices;
}.

Section Object.
Variable object : DwgObject.

(** The predicate given to [selectableObjects]. *)
Definition predicate (viewPoint objectCenter : vec3)
    (inverseMatrices : InverseMatrices) (obj : DwgObject) : bool * InverseMatrices :=
  if Nat.eqb (oid obj) (oid object) || negb (DwgType_eqb (type obj) model3d)
  then (false, inverseMatrices)
  else
    let '(inverse, inverseMatrices) := inverseOf inverseMatrices obj in
    (modelIntersectsSegment obj inverse viewPoint objectCenter, inverseMatrices).

Section Alignment.
Variable this : Wrapper.AlignmentWrapper.
Variable objectStation : Q.

(** The first half of the loop body: [outOfView] and, when the object is
    in view, the obstacles drawn from the generator. *)
Definition look (station : Q) (sc : Scratch) : bool * list DwgObject * Scratch :=
  let tg := Wrapper.tangentAt this (tg sc) station in
  let tg := set_xy tg (vec2_normalize (xy tg)) in
  let viewPoint :=
    set_xy (viewPoint sc)
      (Wrapper.toWCS this (xy (viewPoint sc)) (station, viewPointOffset rule)) in
  let viewPoint :=
    set_z viewPoint (Wrapper.elevationAt this station + viewPointElevation rule) in
  let direction := vec3_sub (objectCenter sc) viewPoint in
  let distance := vec3_len direction in
  let outOfView := ltb (viewDistance rule) distance in
  let outOfView :=
    if negb outOfView then
      let viewDirection := vec2_normalize (xy direction) in
      let cos := vec2_dot (xy tg) viewDirection in
      ltb cos 0
    else outOfView in
  let outOfView :=
    if negb outOfView then ltb objectStation station else outOfView in
  if negb outOfView then
    let frustum := {| _a := viewPoint; _b := objectCenter sc |} in
    let '(obstacles, inverseMatrices) :=
      drain (predicate viewPoint (objectCenter sc))
            (selectableObjects frustum) (inverseMatrices sc) in
    (outOfView, obstacles,
     {| objectCenter := objectCenter sc; stationOffset := stationOffset sc;
        viewPoint := viewPoint; tg := tg; inverseMatrices := inverseMatrices |})
  else
    (outOfView, [],
     {| objectCenter := objectCenter sc; stationOffset := stationOffset sc;
        viewPoint := viewPoint; tg := tg; inverseMatrices := inverseMatrices sc |}).

(** The second half of the loop body ("recording of the visibility
    violations"). *)
Definition note (station : Q) (seen : bool * list DwgObject)
    (st : Range * list Entry) : Range * list Entry :=
  let '(outOfView, obstacles) := seen in
  let '(range, collection) := st in
  if outOfView || bool_decide (obstacles = []) then
    if leb 0 (start range)
    then (noRange, collection ++ [inr (violation this object rule range station)])
    else (range, collection)
  else
    ({| start := if ltb (start range) 0 then station else start range;
        end_ := station;
        obstaclesAtRange := obstaclesAtRange range ∪ list_to_set (oid <$> obstacles) |},
     collection).

(** The body of [for (let station = 0; station <= length; ...)]. *)
Definition visit (station : Q)
    (st : Scratch * Range * list Entry) : option (Scratch * Range * list Entry) :=
  let '(sc, range, collection) := st in
  let '(outOfView, obstacles, sc) := look station sc in
  let '(range, collection) := note station (outOfView, obstacles) (range, collection) in
  Some (sc, range, collection).

(** What the loop sees, station by station, from [station] on:
    [outOfView] and the obstacles drawn. *)
Fixpoint verdicts (fuel : nat) (station : Q) (sc : Scratch)
    : option (list (Q * (bool * list DwgObject)) * Scratch) :=
  match fuel with
  | O => None
  | S fuel =>
      if leb station (Wrapper.length this) then
        let '(outOfView, obstacles, sc) := look station sc in
        '(rest, sc) ← verdicts fuel (station + viewPointStep rule) sc;
        Some ((station, (outOfView, obstacles)) :: rest, sc)
      else Some ([], sc)
  end.

(** The station loop and the closing of the last range. *)
Definition sweep (fuel : nat) (sc : Scratch) (collection : list Entry)
    : option (Scratch * list Entry) :=
  '(sc, range, collection) ←
    forStations fuel (Wrapper.length this) (viewPointStep rule) visit 0
      (sc, noRange, collection);
  if leb 0 (start range)
  then Some (sc, collection ++ [inr (violation this object rule range (Wrapper.length this))])
  else Some (sc, collection).

End Alignment.

(** One iteration of [for (const alignment of alignments)]. *)
Definition scan (fuel : nat) (this : Wrapper.AlignmentWrapper) (sc : Scratch)
    (messages : gmap string (list Entry))
    : option (Scratch * gmap string (list Entry)) :=
  let stationOffset :=
    Wrapper.fromWCS this (stationOffset sc) (xy (objectCenter sc)) in
  let sc := {| objectCenter := objectCenter sc; stationOffset := stationOffset;
               viewPoint := viewPoint sc; tg := tg sc;
               inverseMatrices := inverseMatrices sc |} in
  let objectOffset := snd stationOffset in
  let objectStation := fst stationOffset in
  let skip :=
    match side rule with
    | LEFT => ltb 0 objectOffset
    | RIGHT => ltb objectOffset 0
    | BOTH => false
    end in
  if skip then Some (sc, messages)
  else
    let modelName := Wrapper.modelName this in
    '(sc, collection) ←
      sweep this objectStation fuel sc (default [] (messages !! modelName));
    Some (sc, <[modelName := collection]> messages).

Fixpoint scanAlignments (fuel : nat) (alignments : list Wrapper.AlignmentWrapper)
    (sc : Scratch) (messages : gmap string (list Entry))
    : option (Scratch * gmap string (list Entry)) :=
  match alignments with
  | [] => Some (sc, messages)
  | alignment :: rest =>
      '(sc, messages) ← scan fuel alignment sc messages;
      scanAlignments fuel rest sc messages
  end.

End Object.

(** [for (const object of objects)] *)
Fixpoint scanObjects (fuel : nat) (objects : list DwgObject)
    (alignments : list Wrapper.AlignmentWrapper)
    (sc : Scratch) (messages : gmap string (list Entry))
    : option (gmap string (list Entry)) :=
  match objects with
  | [] => Some messages
  | object :: rest =>
      '(success, objectCenter) ← modelCenter (objectCenter sc) object;
      let sc := {| objectCenter := objectCenter; stationOffset := stationOffset sc;
                   viewPoint := viewPoint sc; tg := tg sc;
                   inverseMatrices := inverseMatrices sc |} in
      if negb success then scanObjects fuel rest alignments sc messages
      else
        '(sc, messages) ← scanAlignments object fuel alignments sc messages;
        scanObjects fuel rest alignments sc messages
  end.

(** [execute], from the point where the drawing, the view and the drawing
    layer are known. *)
Definition execute (fuel : nat) (modelName : string) (found : list DwgAlignment)
    (objects : list DwgObject) : option (gmap string (list Entry)) :=
  let alignments := (fun align => Wrapper.new align (direction rule)) <$> found in
  let messages : gmap string (list Entry) :=
    if bool_decide (alignments = []) then {[ modelName := [inl noAlignments] ]} else ∅ in
  let messages : gmap string (list Entry) :=
    if bool_decide (objects = []) then <[modelName := [inl noObjects]]> messages
    else messages in
  scanObjects fuel objects alignments
    {| objectCenter := vec3_zero; stationOffset := (0, 0); viewPoint := vec3_zero;
       tg := vec3_zero; inverseMatrices := ∅ |}
    messages.

End Execute.
End ObjectsRule.

(** ** A reference host, to evaluate the rules on concrete drawings *)

Module Reference.
Import Math3d Dwg Frustum Host.

(** The square root of a rational, exact on squares of rationals
    (rounded down on the numerator otherwise). *)
Definition sqrt (q : Q) : Q :=
  Qmake (Z.sqrt (Qnum q * Zpos (Qden q))) (Qden q).

(** Matrices of the reference host: a uniform scale and a translation. *)
Definition mat4 : Type := Q * vec3.

Definition mat4_mulv3 (m : mat4) (v : vec3) : vec3 :=
  let '(k, (tx, ty, tz)) := m in
  let '(x, y, z) := v in (x * k + tx, y * k + ty, z * k + tz).

Definition mat4_inverse (m : mat4) : mat4 :=
  let '(k, (tx, ty, tz)) := m in (1 / k, (- tx / k, - ty / k, - tz / k)).

Definition vec2_normalize (v : vec2) : vec2 :=
  let '(x, y) := v in
  let l := sqrt (x * x + y * y) in
  if Js.eqb l 0 then (x, y) else (x / l, y / l).

(** The parameter on the first line of its point nearest to the second. *)
Definition ray3_closestPointToRay (r1 r2 : ray3) : Q :=
  let '(o1, d1) := r1 in let '(o2, d2) := r2 in
  let w := vec3_sub o1 o2 in
  let a := vec3_dot d1 d1 in
  let b := vec3_dot d1 d2 in
  let c := vec3_dot d2 d2 in
  let d := vec3_dot d1 w in
  let e := vec3_dot d2 w in
  let denominator := a * c - b * b in
  if Js.eqb denominator 0 then 0 else (b * e - c * d) / denominator.

(** The distance of a point to the line of the ray (unit direction). *)
Definition ray3_distanceToPoint (r : ray3) (p : vec3) : Q :=
  let '(o, d) := r in
  let v := vec3_sub p o in
  let along := vec3_dot v d in
  let across := vec3_sub v (vec3_mul d along) in
  sqrt (vec3_dot across across).

#[export] Instance ops : Ops := {|
  Math3d.sqrt := sqrt;
  Math3d.mat4 := mat4;
  Math3d.mat4_mulv3 := mat4_mulv3;
  Math3d.mat4_inverse := mat4_inverse;
  Math3d.vec2_normalize := vec2_normalize;
  Math3d.ray3_closestPointToRay := ray3_closestPointToRay;
  Math3d.ray3_distanceToPoint := ray3_distanceToPoint;
|}.

Definition identity : mat4 := (1, (0, 0, 0)).

(** A straight alignment along the x axis: the station is x, the offset
    is y, the elevation is zero. *)
Definition straight (length : Q) : DwgAlignment := {|
  Host.length := length;
  alignmentLayer := Some {| lid := 1; name := "axis"; parentName := Some "road";
                            modelName := Some "model" |};
  tangentAt := fun _ _ => (1, 0, 0);
  toWCS := fun _ stationOffset => stationOffset;
  fromWCS := fun _ point => point;
  elevationAt := fun _ => 0;
  toPK := fun _ => "PK"%string;
|}.

(** Every triangle of the mesh is offered to the callback. *)
Definition allTriangles (n : nat) : Spatial := {| walkSegment := fun _ _ => seq 0 n |}.

Definition obstacleLayer : DwgLayer :=
  {| lid := 7; name := "walls"; parentName := Some "site"; modelName := Some "model" |}.

(** A wall in the plane [x = 5/2], facing the observer who moves
    towards growing x. *)
Definition wall : DwgObject := {|
  oid := 1;
  type := model3d;
  layer := Some obstacleLayer;
  matrix := identity;
  meshes := [ {| geometry := Some {|
      vertices := [5 # 2; -10; -10;  5 # 2; 0; 20;  5 # 2; 10; -10];
      indices := [0; 1; 2]%nat;
      spatial := Some (allTriangles 1) |} |} ];
|}.

(** A road sign: one triangle around [(7/2, 0, 1)]. *)
Definition sign : DwgObject := {|
  oid := 2;
  type := model3d;
  layer := Some {| lid := 8; name := "signs"; parentName := Some "site";
                   modelName := Some "model" |};
  matrix := identity;
  meshes := [ {| geometry := Some {|
      vertices := [7 # 2; -1; 0;  7 # 2; 1; 0;  7 # 2; 0; 3];
      indices := [0; 1; 2]%nat;
      spatial := Some (allTriangles 1) |} |} ];
|}.

(** Two plates in the plane [z = 0]: a large triangle of area 8 at the
    origin and a small one of area 1/2 near [x = 10]. *)
Definition plates : DwgObject := {|
  oid := 3;
  type := model3d;
  layer := Some {| lid := 8; name := "signs"; parentName := Some "site";
                   modelName := Some "model" |};
  matrix := identity;
  meshes := [ {| geometry := Some {|
      vertices := [0; 0; 0;  4; 0; 0;  0; 4; 0;  10; 0; 0;  11; 0; 0;  10; 1; 0];
      indices := [0; 1; 2; 3; 4; 5]%nat;
      spatial := Some (allTriangles 2) |} |} ];
|}.

(** The drawing layer offers both models for every frustum. *)
Definition drawing (_ : SegmentFrustum) : list DwgObject := [wall; sign].

(** The road: the straight alignment of length 4, driven forward. *)
Definition road : Wrapper.AlignmentWrapper := Wrapper.new (straight 4) Wrapper.FORWARD.

(** The rule for objects, observed from one unit above the axis at every
    unit of station. *)
Definition objectsRule (viewDistance : Q) : ObjectsRule.ObjectsVisibilityRule := {|
  ObjectsRule.alignmentFilter := EmptyString;
  ObjectsRule.objectFilter := EmptyString;
  ObjectsRule.direction := Wrapper.FORWARD;
  ObjectsRule.side := ObjectsRule.BOTH;
  ObjectsRule.viewPointOffset := 0;
  ObjectsRule.viewPointElevation := 1;
  ObjectsRule.viewPointStep := 1;
  ObjectsRule.viewDistance := viewDistance;
|}.

(** The arrays of [execute] once the centre of the sign, [(7/2, 0, 1)],
    has been taken. *)
Definition signScratch : ObjectsRule.Scratch := {|
  ObjectsRule.objectCenter := (7 # 2, 0, 1);
  ObjectsRule.stationOffset := (0, 0);
  ObjectsRule.viewPoint := vec3_zero;
  ObjectsRule.tg := vec3_zero;
  ObjectsRule.inverseMatrices := ∅;
|}.

(** The rule along the alignment, observer and object one unit above the
    axis, both stepping by one unit. *)
Definition alignmentRule : AlignmentRule.AlignmentVisibilityRule := {|
  AlignmentRule.alignmentFilter := EmptyString;
  AlignmentRule.obstacleFilter := EmptyString;
  AlignmentRule.viewPointOffset := 0;
  AlignmentRule.viewPointElevation := 1;
  AlignmentRule.objectOffset := 0;
  AlignmentRule.objectElevation := 1;
  AlignmentRule.direction := Wrapper.FORWARD;
  AlignmentRule.viewDistance := 300;
  AlignmentRule.viewPointStep := 1;
  AlignmentRule.objectStep := 1;
|}.

Definition alignmentScratch : AlignmentRule.Scratch := {|
  AlignmentRule.viewPoint := vec3_zero;
  AlignmentRule.objectPoint := vec3_zero;
  AlignmentRule.inverseMatrices := ∅;
|}.

End Reference.

(** ** The properties the rules are checked against *)

Module Spec.
Import Math3d Dwg Intersect.

Section Runs.
Context {X : Type}.
Variable violation : X -> bool.

(** The maximal runs of consecutive violating entries of a log, each
    with the entry that ended it ([None]: the log ended first).  [cur] is
    the run in progress. *)
Fixpoint runs (cur log : list X) : list (list X * option X) :=
  match log with
  | [] => match cur with [] => [] | _ :: _ => [(cur, None)] end
  | x :: rest =>
      if violation x then runs (cur ++ [x]) rest
      else
        match cur with
        | [] => runs [] rest
        | _ :: _ => (cur, Some x) :: runs [] rest
        end
  end.

End Runs.

(** A station lies in the closed interval [[start, end]]. *)
Definition inside (r : Q * Q) (s : Q) : Prop := fst r <= s /\ s <= snd r.

(** The range invariants of a sweep: [visited] lists the stations of one
    path with the verdict of the sweep, [ranges] the emitted intervals. *)
Record RangesSound (visited : list (Q * bool)) (ranges : list (Q * Q)) : Prop := {
  ranges_ordered : StronglySorted (fun r1 r2 => snd r1 < fst r2) ranges;
  ranges_proper : Forall (fun r => fst r <= snd r) ranges;
  ranges_violations :
    forall r s v, In r ranges -> In (s, v) visited -> inside r s -> v = true;
  ranges_complete :
    forall s, In (s, true) visited -> exists r, In r ranges /\ inside r s;
}.

Section Centroid.
Context `{Ops}.

(** The corners of the triangles of a geometry, in the order of the
    index buffer. *)
Fixpoint corners (vertices : list Q) (indices : list nat) : option (list vec3) :=
  match indices with
  | [] => Some []
  | i :: rest =>
      v ← vertexAt vertices (i * 3);
      vs ← corners vertices rest;
      Some (v :: vs)
  end.

(** The corners of all meshes that have a geometry. *)
Fixpoint modelCorners (meshes : list Mesh) : option (list vec3) :=
  match meshes with
  | [] => Some []
  | mesh :: rest =>
      match geometry mesh with
      | None => modelCorners rest
      | Some g =>
          vs ← corners (vertices g) (indices g);
          ws ← modelCorners rest;
          Some (vs ++ ws)
      end
  end.

Definition sumX (vs : list vec3) : Q := fold_left (fun s v => s + fst (fst v)) vs 0.
Definition sumY (vs : list vec3) : Q := fold_left (fun s v => s + snd (fst v)) vs 0.
Definition sumZ (vs : list vec3) : Q := fold_left (fun s v => s + snd v) vs 0.

(** The plain mean of a list of points. *)
Definition mean (vs : list vec3) : vec3 :=
  let n := inject_Z (Z.of_nat (List.length vs)) in
  (sumX vs / n, sumY vs / n, sumZ vs / n).

Fixpoint triangles (vs : list vec3) : list (vec3 * vec3 * vec3) :=
  match vs with
  | a :: b :: c :: rest => (a, b, c) :: triangles rest
  | _ => []
  end.

Definition area (t : vec3 * vec3 * vec3) : Q :=
  let '(a, b, c) := t in
  vec3_len (vec3_cross (vec3_sub b a) (vec3_sub c a)) / 2.

(** The mean of the corners of the triangles, each triangle weighted by
    its area. *)
Definition areaWeightedMean (ts : list (vec3 * vec3 * vec3)) : vec3 :=
  let total := fold_left (fun s t => s + area t) ts 0 in
  let weighted (coordinate : vec3 -> Q) : Q :=
    fold_left
      (fun s t => let '(a, b, c) := t in
                  s + area t * (coordinate a + coordinate b + coordinate c) / 3)
      ts 0 in
  (weighted (fun v => fst (fst v)) / total,
   weighted (fun v => snd (fst v)) / total,
   weighted snd / total).

(** The centroid as the specification words it: the area-weighted mean
    of the triangle vertices of all meshes, taken to world space. *)
Definition areaWeightedCentroid (model : DwgObject) : option vec3 :=
  vs ← modelCorners (meshes model);
  Some (mat4_mulv3 (matrix model) (areaWeightedMean (triangles vs))).

End Centroid.

(** The quantities [segmentIntersectsTriangle] computes on its way. *)
Section Triangle.
Context `{Ops}.
Variables sa sb ta tb tc : vec3.

Definition lengthSquared : Q := let d := vec3_sub sa sb in vec3_dot d d.
Definition length : Q := sqrt lengthSquared.
(** [_v1]: the unit vector from [sb] to [sa]. *)
Definition unit : vec3 :=
  let '(mdx, mdy, mdz) := vec3_sub sa sb in (mdx / length, mdy / length, mdz / length).
(** [_v4]: the cross product of the two edges from [ta]. *)
Definition normal : vec3 := vec3_cross (vec3_sub tb ta) (vec3_sub tc ta).
(** [idet] *)
Definition determinant : Q := vec3_dot unit normal.
Definition hitT : Q := 1 / determinant * vec3_dot (vec3_sub sa ta) normal.
Definition hitU : Q :=
  1 / determinant * vec3_dot (vec3_sub sa ta) (vec3_cross (vec3_sub tc ta) unit).
Definition hitV : Q :=
  1 / determinant * vec3_dot (vec3_sub sa ta) (vec3_cross unit (vec3_sub tb ta)).

End Triangle.

(** The parameter [t] that [intersectSegment] computes for the segment
    from [a] to [b], and the length of that segment. *)
Section Segment.
Context `{Ops}.
Import Frustum.

Definition segmentLength (a b : vec3) : Q := vec3_distance a b.
Definition segmentRay (a b : vec3) : ray3 :=
  ray3_make a (vec3_mul (vec3_sub b a) (1 / segmentLength a b)).
Definition closestParameter (this : SegmentFrustum) (a b : vec3) : Q :=
  ray3_closestPointToRay (segmentRay a b) (ray this ray3_zero).

End Segment.

Definition hasGeometry (mesh : Mesh) : bool :=
  match geometry mesh with Some _ => true | None => false end.

(** The same object on another layer. *)
Definition onLayer `{Ops} (obj : DwgObject) (l : option DwgLayer) : DwgObject :=
  {| oid := oid obj; type := type obj; layer := l;
     matrix := matrix obj; meshes := meshes obj |}.

(** The bounds of a run of stations: its first and its last. *)
Definition bounds {V : Type} (run : list (Q * V)) : Q * Q :=
  match run with
  | [] => (0, 0)
  | x :: _ => (fst x, fst (List.last run x))
  end.

(** *** The sweep towards an object, run by run *)
Section ObjectsSweep.
Context `{Ops}.
Variable rule : ObjectsRule.ObjectsVisibilityRule.
Variable object : DwgObject.
Variable this : Wrapper.AlignmentWrapper.

(** A station with [outOfView] and the obstacles drawn there. *)
Definition Seen : Type := Q * (bool * list DwgObject).

(** The sweep counts the station as a violation: the object is in view
    and an obstacle was drawn. *)
Definition obstructed (x : Seen) : bool :=
  negb (fst (snd x) || bool_decide (snd (snd x) = [])).

(** The object is not visible from the station: out of view (gated), or
    an obstacle was drawn. *)
Definition notVisible (x : Seen) : bool :=
  fst (snd x) || negb (bool_decide (snd (snd x) = [])).

Definition obstaclesOf (run : list Seen) : gset nat :=
  fold_left (fun acc x => acc ∪ list_to_set (oid <$> snd (snd x))) run ∅.

(** The range accumulated over a run. *)
Definition rangeOf (run : list Seen) : ObjectsRule.Range :=
  match run with
  | [] => ObjectsRule.noRange
  | x :: _ =>
      {| ObjectsRule.start := fst x;
         ObjectsRule.end_ := fst (List.last run x);
         ObjectsRule.obstaclesAtRange := obstaclesOf run |}
  end.

(** The diagnostic of a run, closed by a station or by the end of the
    alignment. *)
Definition diagnosticOf (r : list Seen * option Seen)
    : ObjectsRule.ObjectVisibilityDiagnostic :=
  ObjectsRule.violation this object rule (rangeOf (fst r))
    (match snd r with Some x => fst x | None => Wrapper.length this end).

(** The closing of the last range, as [sweep] does it after the loop. *)
Definition close (st : ObjectsRule.Range * list ObjectsRule.Entry)
    : list ObjectsRule.Entry :=
  if Js.leb 0 (ObjectsRule.start (fst st))
  then snd st ++ [inr (ObjectsRule.violation this object rule (fst st)
                         (Wrapper.length this))]
  else snd st.

End ObjectsSweep.

(** *** The sweep along the alignment, run by run *)
Section AlignmentSweep.
Variable rule : AlignmentRule.AlignmentVisibilityRule.
Variable this : Wrapper.AlignmentWrapper.

(** A station with [hasObstacles], the object station reached and the
    obstacles found there. *)
Definition Probe : Type := Q * (bool * Q * gset nat).

Definition hasObstacles (x : Probe) : bool := fst (fst (snd x)).
Definition objectStation (x : Probe) : Q := snd (fst (snd x)).
Definition found (x : Probe) : gset nat := snd (snd x).

Definition keyFramesOf (run : list Probe)
    : list AlignmentRule.AlignmentVisibilityDiagnosticKeyFrame :=
  fold_left (fun kfs x => AlignmentRule.addKeyFrame kfs (fst x) (objectStation x)) run [].

Definition foundOver (run : list Probe) : gset nat :=
  fold_left (fun acc x => acc ∪ found x) run ∅.

Definition probedRange (run : list Probe) : AlignmentRule.Range :=
  match run with
  | [] => AlignmentRule.noRange
  | x :: _ =>
      {| AlignmentRule.rangeStart := fst x;
         AlignmentRule.rangeKeyFrames := keyFramesOf run;
         AlignmentRule.obstaclesAtStation := foundOver run |}
  end.

Definition probedDiagnostic (r : list Probe * option Probe)
    : AlignmentRule.AlignmentVisibilityDiagnostic :=
  AlignmentRule.violation this rule (probedRange (fst r))
    (match snd r with Some x => fst x | None => Wrapper.length this end).

(** Noting one station of the log: the set given to [note] is the set of
    the range with what was found at the station. *)
Definition noted (st : AlignmentRule.Range * list AlignmentRule.Entry) (x : Probe)
    : AlignmentRule.Range * list AlignmentRule.Entry :=
  AlignmentRule.note rule this (fst x)
    (hasObstacles x, objectStation x,
     AlignmentRule.obstaclesAtStation (fst st) ∪ found x) st.

(** The closing of the last range, as [scan] does it after the loop. *)
Definition closeProbed (st : AlignmentRule.Range * list AlignmentRule.Entry)
    : list AlignmentRule.Entry :=
  if Js.leb 0 (AlignmentRule.rangeStart (fst st))
  then snd st ++ [inr (AlignmentRule.violation this rule (fst st) (Wrapper.length this))]
  else snd st.

(** The stations a diagnostic spans, as the playback reads them:
    [keyFrames[0][0]] and [keyFrames[keyFrames.length - 1][0]]. *)
Definition span (d : AlignmentRule.AlignmentVisibilityDiagnostic) : Q * Q :=
  bounds (AlignmentRule.keyFrames d).

End AlignmentSweep.

(** The ranges of the diagnostics in a collection of the objects rule. *)
Definition emittedBounds (collection : list ObjectsRule.Entry) : list (Q * Q) :=
  flat_map (fun e => match e with
                     | inr d => [(ObjectsRule.rangeStart d, ObjectsRule.rangeEnd d)]
                     | inl _ => []
                     end) collection.

(** The key frames of the diagnostics in a collection of the alignment
    rule. *)
Definition emittedKeyFrames (collection : list AlignmentRule.Entry)
    : list (list AlignmentRule.AlignmentVisibilityDiagnosticKeyFrame) :=
  flat_map (fun e => match e with
                     | inr d => [AlignmentRule.keyFrames d]
                     | inl _ => []
                     end) collection.

(** Equality of points as numbers. *)
Definition vec3_eq (a b : vec3) : Prop :=
  fst (fst a) == fst (fst b) /\ snd (fst a) == snd (fst b) /\ snd a == snd b.

End Spec.

(** ** rules/alignment.ts and rules/objects.ts: the playback of a diagnostic *)

Module Playback.
Import Js Math3d Host.

(** [Math.max] and [Math.min] of two numbers. *)
Definition max (a b : Q) : Q := if ltb a b then b else a.
Definition min (a b : Q) : Q := if ltb b a then b else a.

(** [slowdown = active ? Math.max(slowdown * 0.5, 0.01) : 1.0], the
    first statement of both [activateDiagnostic]. *)
Definition slowdownAfter (slowdown : Q) (active : bool) : Q :=
  if active then max (slowdown * (1 # 2)) (1 # 100) else 1.

(** The variable [slowdown] after a sequence of activations, from its
    initial value 1. *)
Definition slowdownOver (activations : list bool) : Q :=
  fold_left slowdownAfter activations 1.

Definition speed (slowdown : Q) : Q := 17 * slowdown.

(** What [cadview.lookAt] receives. *)
Record LookAt : Type := { position : vec3; direction : vec3; pivot : vec3 }.

Section Alignment.
Variable vec3_normalize : vec3 -> vec3.
Variable alignment : Wrapper.AlignmentWrapper.
Variable rule : AlignmentRule.AlignmentVisibilityRule.
Variable keyFrames : list AlignmentRule.AlignmentVisibilityDiagnosticKeyFrame.

(** [keyFrames[0][0]]; [None] is the [TypeError] of reading an element
    of [undefined]. *)
Definition startStation : option Q := fst <$> item keyFrames 0.

Definition totalLength : option Q :=
  startStation ← startStation;
  last ← item keyFrames (Z.of_nat (List.length keyFrames) - 1);
  Some (fst last - startStation).

Definition duration (slowdown : Q) : option Q :=
  totalLength ← totalLength;
  Some (Qabs totalLength / speed slowdown).

(** [t * totalLength + startStation], with [t] cut at 1. *)
Definition stationAt (t : Q) : option Q :=
  startStation ← startStation;
  totalLength ← totalLength;
  Some (min t 1 * totalLength + startStation).

(** The index of the key frame looked up for a station. *)
Definition keyFrameIndex (station : Q) : option Z :=
  index ← BinarySearch.binarySearch keyFrames (station, 0) (fun a b => fst a - fst b);
  let index := if (index <? 0)%Z then bitnot index else index in
  let index :=
    if (Z.of_nat (List.length keyFrames) <=? index)%Z
    then (Z.of_nat (List.length keyFrames) - 1)%Z else index in
  Some index.

Definition objectStationAt (station : Q) : option Q :=
  index ← keyFrameIndex station;
  snd <$> (if (0 <? index)%Z then item keyFrames (index - 1) else item keyFrames 0).

(** The callback given to [cadview.animate].  The arrays [position] and
    [pivot] are written in full at every call. *)
Definition frame (t : Q) : option LookAt :=
  station ← stationAt t;
  objectStation ← objectStationAt station;
  let position : vec3 := (station, AlignmentRule.viewPointOffset rule, 0) in
  let position := set_xy position (Wrapper.toWCS alignment (xy position) (xy position)) in
  let position :=
    set_z position (Wrapper.elevationAt alignment station
                    + AlignmentRule.viewPointElevation rule) in
  let pivot : vec3 := (objectStation, AlignmentRule.objectOffset rule, 0) in
  let pivot := set_xy pivot (Wrapper.toWCS alignment (xy pivot) (xy pivot)) in
  let pivot :=
    set_z pivot (Wrapper.elevationAt alignment objectStation
                 + AlignmentRule.objectElevation rule) in
  let direction := vec3_normalize (vec3_sub pivot position) in
  Some {| position := position; direction := direction; pivot := pivot |}.

End Alignment.

Section Objects.
Variable vec3_normalize : vec3 -> vec3.
Variable alignment : Wrapper.AlignmentWrapper.
Variable rule : ObjectsRule.ObjectsVisibilityRule.
Variables rangeStart rangeEnd : Q.

Definition distance : Q := rangeEnd - rangeStart.

(** [Math.max(Math.abs(distance) / speed, 1.0)] *)
Definition objectsDuration (slowdown : Q) : Q :=
  max (Qabs distance / speed slowdown) 1.

(** [t * distance + rangeStart], with [t] cut at 1. *)
Definition viewPointStation (t : Q) : Q := min t 1 * distance + rangeStart.

Definition objectsFrame (objectCenter : vec3) (t : Q) : LookAt :=
  let vps := viewPointStation t in
  let position : vec3 := (vps, ObjectsRule.viewPointOffset rule, 0) in
  let position := set_xy position (Wrapper.toWCS alignment (xy position) (xy position)) in
  let position :=
    set_z position (Wrapper.elevationAt alignment vps + ObjectsRule.viewPointElevation rule) in
  let direction := vec3_normalize (vec3_sub objectCenter position) in
  {| position := position; direction := direction; pivot := objectCenter |}.

End Objects.

End Playback.

(** ** properties.ts: the property providers *)

Module Properties.
Import Host.

(** A JavaScript number: finite, [NaN], or an infinity ([true]: negative). *)
Inductive Number : Type := Finite (q : Q) | NaN | Infinity (negative : bool).

(** [a === b] on numbers. *)
Definition number_eqb (a b : Number) : bool :=
  match a, b with
  | Finite x, Finite y => Js.eqb x y
  | Infinity s, Infinity s' => Bool.eqb s s'
  | _, _ => false
  end.

Definition isFinite (n : Number) : bool :=
  match n with Finite _ => true | _ => false end.

(** The manifest entry of a provider. *)
Record Ctx : Type := {
  field : option string;
  label : option string;
  description : option string;
  group : option string;
  units : option string;
  values : list (string * string);
}.

(** The head of a property: what [getProperties] returns beside the
    closures [value] and [editor]. *)
Record Property : Type := {
  propertyId : string;
  propertyLabel : string;
  propertyDescription : option string;
  propertyGroup : option string;
}.

Definition getProperties (prefix : string) (ctx : Ctx) : list Property :=
  match field ctx with
  | None => []
  | Some field =>
      [{| propertyId := (prefix ++ field)%string;
          propertyLabel := default field (label ctx);
          propertyDescription := description ctx;
          propertyGroup := group ctx |}]
  end.

Definition different : Tr := {| template := "**Различные**"; args := [] |}.

(** The loop of [value()]: does some object from the second on hold
    another value than the first?  [v === w] on two properties, either of
    which may be [undefined]. *)
Definition differs {V : Type} (eqb : V -> V -> bool) (value : option V)
    (others : list (option V)) : bool :=
  existsb (fun other =>
             match value, other with
             | Some v, Some w => negb (eqb v w)
             | None, None => false
             | _, _ => true
             end) others.

Section Float.
Variable parseFloat : string -> Number.
Variable ctx : Ctx.
Variable field : string.

(** An object edited by a float property: its number fields by name. *)
Definition FloatObject : Type := gmap string Number.

(** What [value()] returns: the label for differing values, or the
    common value with the units. *)
Inductive FloatShown : Type :=
  | FloatDifferent (label : Tr)
  | FloatSame (label : option Number) (suffix : option string).

(** [value()]; [None] is the [TypeError] of reading a property of
    [objects[0]] when there is no object. *)
Definition floatValue (objects : list FloatObject) : option FloatShown :=
  match objects with
  | [] => None
  | first :: others =>
      let value := first !! field in
      if differs number_eqb value ((fun object : FloatObject => object !! field) <$> others)
      then Some (FloatDifferent different)
      else Some (FloatSame value (units ctx))
  end.

(** [commit(value)]: the objects afterwards. *)
Definition floatCommit (value : option string) (objects : list FloatObject)
    : list FloatObject :=
  match value with
  | None => objects
  | Some value =>
      let number := parseFloat value in
      (fun object : FloatObject => <[field := number]> object) <$> objects
  end.

(** [validate(value)]: the message, if any. *)
Definition floatValidate (value : option string) : option Tr :=
  match value with
  | None => None
  | Some value =>
      if String.eqb value EmptyString
      then Some {| template := "Поле не может быть пустым"; args := [] |}
      else if negb (isFinite (parseFloat value))
      then Some {| template := "Значение должно быть числом"; args := [] |}
      else None
  end.

End Float.

Section Enum.
Variable ctx : Ctx.
Variable field : string.

(** An object edited by an enum property: its string fields by name. *)
Definition EnumObject : Type := gmap string string.

(** [ctx.values[key]]; the key [undefined] reads the property named
    "undefined". *)
Definition valueAt (key : option string) : option string :=
  snd <$> List.find (fun entry => String.eqb (fst entry) (interpolate key)) (values ctx).

Inductive EnumShown : Type :=
  | EnumDifferent (label : Tr)
  | EnumSame (label : option string).

Definition enumValue (objects : list EnumObject) : option EnumShown :=
  match objects with
  | [] => None
  | first :: others =>
      let value := first !! field in
      if differs String.eqb value ((fun object : EnumObject => object !! field) <$> others)
      then Some (EnumDifferent different)
      else Some (EnumSame (valueAt value))
  end.

(** An item of the dropdown. *)
Record TreeItem : Type := { id : string; itemLabel : string }.

(** The handler of [onDidChangeActive]: the objects afterwards. *)
Definition enumChange (element : option TreeItem) (objects : list EnumObject)
    : list EnumObject :=
  match element with
  | None => objects
  | Some element =>
      (fun object : EnumObject => <[field := id element]> object) <$> objects
  end.

(** [Object.entries(ctx.values).map(...)] *)
Definition getChildren : list TreeItem :=
  map (fun entry => {| id := fst entry; itemLabel := snd entry |}) (values ctx).

Definition hasChildren (element : TreeItem) : bool := false.

End Enum.

End Properties.

(** ** Further terms for statements about the code *)

Module Laws.
Import Js Math3d Dwg Intersect Host.

(** Equality of plane points as numbers. *)
Definition vec2_eq (a b : vec2) : Prop := fst a == fst b /\ snd a == snd b.

Section Hits.
Context `{Ops}.

(** The test the callback of [walkSegment] makes on one triangle. *)
Definition triangleHit (vertices : list Q) (indices : list nat) (a b : vec3)
    (triangle : nat) : bool :=
  visitTriangle vertices indices a b false triangle.

(** A mesh with geometry and triangle index, one of whose offered
    triangles is hit. *)
Definition meshHit (a b : vec3) (mesh : Mesh) : bool :=
  match geometry mesh with
  | None => false
  | Some g =>
      match spatial g with
      | None => false
      | Some sp => existsb (triangleHit (vertices g) (indices g) a b) (walkSegment sp a b)
      end
  end.

(** The predicate of the sweep towards [object], computed with the
    inverse of the matrix of the candidate itself. *)
Definition objectsTest (object : DwgObject) (viewPoint objectCenter : vec3)
    (obj : DwgObject) : bool :=
  negb (Nat.eqb (oid obj) (oid object) || negb (DwgType_eqb (type obj) model3d))
  && modelIntersectsSegment obj (mat4_inverse (matrix obj)) viewPoint objectCenter.

(** The predicate of the sweep along the alignment, likewise. *)
Definition alignmentTest (obstacleLayers : gset nat) (viewPoint objectPoint : vec3)
    (obj : DwgObject) : bool :=
  negb (negb (DwgType_eqb (type obj) model3d)
        || negb (AlignmentRule.onObstacleLayer obstacleLayers obj))
  && modelIntersectsSegment obj (mat4_inverse (matrix obj)) viewPoint objectPoint.

(** Every entry of the cache for one of the objects is the inverse of
    its matrix. *)
Definition coherent (cache : InverseMatrices) (objects : list DwgObject) : Prop :=
  forall obj m, In obj objects -> cache !! oid obj = Some m ->
    m = mat4_inverse (matrix obj).

(** Objects with one identity have one matrix. *)
Definition oneMatrix (objects : list DwgObject) : Prop :=
  forall x y, In x objects -> In y objects -> oid x = oid y -> matrix x = matrix y.

End Hits.

End Laws.

(** ** Further objects to evaluate the code on *)

Module Samples.
Import Math3d Dwg.
#[local] Existing Instance Reference.ops.

(** The wall with a second mesh that has no geometry, and the same
    with its meshes in the other order. *)
Definition gate : DwgObject := {|
  oid := 4;
  type := model3d;
  layer := Some Reference.obstacleLayer;
  matrix := Reference.identity;
  meshes := meshes Reference.wall ++ [ {| geometry := None |} ];
|}.

Definition gateSwapped : DwgObject := {|
  oid := 4;
  type := model3d;
  layer := Some Reference.obstacleLayer;
  matrix := Reference.identity;
  meshes := {| geometry := None |} :: meshes Reference.wall;
|}.

(** The key frames the sweep along the road emits for the wall. *)
Definition keyFrames : list AlignmentRule.AlignmentVisibilityDiagnosticKeyFrame :=
  [(0, 3); (2, 3)].

(** A host that leaves directions as they are. *)
Definition vec3_normalize (v : vec3) : vec3 := v.

(** The manifest entry of the direction of a rule. *)
Definition directions : Properties.Ctx := {|
  Properties.field := Some "direction"%string;
  Properties.label := None;
  Properties.description := None;
  Properties.group := None;
  Properties.units := None;
  Properties.values := [("FORWARD", "Вперёд"); ("BACKWARD", "Назад")]%string;
|}.

Definition forward : Properties.TreeItem :=
  {| Properties.id := "FORWARD"; Properties.itemLabel := "Вперёд" |}.

(** Two rules as the property editor sees them. *)
Definition backwardRule : Properties.EnumObject := {[ "direction"%string := "BACKWARD"%string ]}.
Definition forwardRule : Properties.EnumObject := {[ "direction"%string := "FORWARD"%string ]}.

(** The manifest entry of the offset of the view point, in metres. *)
Definition offsets : Properties.Ctx := {|
  Properties.field := Some "viewPointOffset"%string;
  Properties.label := None;
  Properties.description := None;
  Properties.group := None;
  Properties.units := Some "м"%string;
  Properties.values := [];
|}.

(** A [parseFloat] that reads one text as a number. *)
Definition parseFloat (text : string) : Properties.Number :=
  if String.eqb text "1.5" then Properties.Finite (3 # 2) else Properties.NaN.

Definition centred : Properties.FloatObject :=
  {[ "viewPointOffset"%string := Properties.Finite 0 ]}.
Definition shifted : Properties.FloatObject :=
  {[ "viewPointOffset"%string := Properties.Finite 2 ]}.

(** The rules of the road with the view point step left at zero. *)
Definition stalledAlignmentRule : AlignmentRule.AlignmentVisibilityRule := {|
  AlignmentRule.alignmentFilter := EmptyString;
  AlignmentRule.obstacleFilter := EmptyString;
  AlignmentRule.viewPointOffset := 0;
  AlignmentRule.viewPointElevation := 1;
  AlignmentRule.objectOffset := 0;
  AlignmentRule.objectElevation := 1;
  AlignmentRule.direction := Wrapper.FORWARD;
  AlignmentRule.viewDistance := 300;
  AlignmentRule.viewPointStep := 0;
  AlignmentRule.objectStep := 1;
|}.

Definition stalledObjectsRule : ObjectsRule.ObjectsVisibilityRule := {|
  ObjectsRule.alignmentFilter := EmptyString;
  ObjectsRule.objectFilter := EmptyString;
  ObjectsRule.direction := Wrapper.FORWARD;
  ObjectsRule.side := ObjectsRule.BOTH;
  ObjectsRule.viewPointOffset := 0;
  ObjectsRule.viewPointElevation := 1;
  ObjectsRule.viewPointStep := 0;
  ObjectsRule.viewDistance := 3;
|}.

(** A second sign at the place of the first. *)
Definition secondSign : DwgObject := {|
  oid := 5;
  type := model3d;
  layer := layer Reference.sign;
  matrix := Reference.identity;
  meshes := meshes Reference.sign;
|}.

(** A chainage label that tells the stations of the road apart. *)
Definition stationLabel (station : Q) : string :=
  match Qfloor station with
  | 0%Z => "PK0" | 1%Z => "PK1" | 2%Z => "PK2" | 3%Z => "PK3" | 4%Z => "PK4"
  | _ => "PK"
  end.

(** The straight alignment of length 4 with these labels. *)
Definition labelled : Host.DwgAlignment := {|
  Host.length := 4;
  Host.alignmentLayer := Host.alignmentLayer (Reference.straight 4);
  Host.tangentAt := Host.tangentAt (Reference.straight 4);
  Host.toWCS := Host.toWCS (Reference.straight 4);
  Host.fromWCS := Host.fromWCS (Reference.straight 4);
  Host.elevationAt := Host.elevationAt (Reference.straight 4);
  Host.toPK := stationLabel;
|}.

End Samples.

(** * Facts *)

(** ** Comparisons *)

Lemma ltb_lt (a b : Q) : Js.ltb a b = true <-> a < b.
Proof. unfold Js.ltb. destruct (Qlt_le_dec a b); split; intros; try easy; lra. Qed.

Lemma ltb_ge (a b : Q) : Js.ltb a b = false <-> b <= a.
Proof. unfold Js.ltb. destruct (Qlt_le_dec a b); split; intros; try easy; lra. Qed.

Lemma leb_le (a b : Q) : Js.leb a b = true <-> a <= b.
Proof. unfold Js.leb. destruct (Qlt_le_dec b a); split; intros; try easy; lra. Qed.

Lemma leb_gt (a b : Q) : Js.leb a b = false <-> b < a.
Proof. unfold Js.leb. destruct (Qlt_le_dec b a); split; intros; try easy; lra. Qed.

Lemma eqb_eq (a b : Q) : Js.eqb a b = true <-> a == b.
Proof. apply Qeq_bool_iff. Qed.

Lemma eqb_neq (a b : Q) : Js.eqb a b = false <-> ~ a == b.
Proof.
  unfold Js.eqb. split.
  - intros E Heq. apply Qeq_bool_iff in Heq. congruence.
  - intros N. destruct (Qeq_bool a b) eqn:E; [|reflexivity].
    apply Qeq_bool_iff in E. contradiction.
Qed.

(** ** utils/binarySearch.ts *)

Lemma mid_bounds (s e : Z) :
  (0 <= e - s < 2 ^ 31)%Z -> (s <= s + Js.sar (e - s) 1 <= e)%Z.
Proof.
  intros Hd. unfold Js.sar, Js.toInt32. rewrite Z.shiftr_div_pow2 by lia.
  rewrite Z.mod_small by lia. change (2 ^ 1)%Z with 2%Z.
  replace (e - s + 2 ^ 31 - 2 ^ 31)%Z with (e - s)%Z by lia.
  pose proof (Z.div_pos (e - s) 2 ltac:(lia) ltac:(lia)).
  pose proof (Z.div_le_upper_bound (e - s) 2 (e - s) ltac:(lia) ltac:(lia)). lia.
Qed.

Lemma bitnot_small (p : Z) :
  (0 <= p < 2 ^ 31)%Z -> Js.bitnot p = (- p - 1)%Z /\ Js.bitnot (Js.bitnot p) = p.
Proof.
  intros Hp. unfold Js.bitnot, Js.toInt32, Z.lnot.
  rewrite (Z.mod_small (p + 2 ^ 31)) by lia.
  replace (p + 2 ^ 31 - 2 ^ 31)%Z with p by lia. split; [lia|].
  replace (Z.pred (- p) + 2 ^ 31)%Z with (2 ^ 31 - p - 1)%Z by lia.
  rewrite Z.mod_small by lia. lia.
Qed.

Section BinarySearchFacts.
Import Js BinarySearch.
Context {T : Type}.
Variable arr : list T.
Variable t : T.
Variable cmp : T -> T -> Q.
Let len : Z := Z.of_nat (List.length arr).

Lemma item_Some (i : Z) : (0 <= i < len)%Z -> exists x, item arr i = Some x.
Proof.
  intros Hi. unfold item. destruct (Z.ltb_spec i 0) as [|_]; [lia|].
  destruct (nth_error arr (Z.to_nat i)) eqn:E; [eauto|].
  apply nth_error_None in E. subst len. lia.
Qed.

Lemma item_range (i : Z) (x : T) : item arr i = Some x -> (0 <= i < len)%Z.
Proof.
  unfold item. destruct (Z.ltb_spec i 0) as [|Hi]; [discriminate|].
  intros E. assert (Hn : nth_error arr (Z.to_nat i) <> None) by congruence.
  apply nth_error_Some in Hn. subst len. lia.
Qed.

Hypothesis Hlen : (len < 2 ^ 31)%Z.
(** The comparisons of the target with the elements are monotone along
    the array. *)
Hypothesis above : forall i j x y, (i <= j)%Z ->
  item arr i = Some x -> item arr j = Some y -> 0 < cmp t y -> 0 < cmp t x.
Hypothesis below : forall i j x y, (i <= j)%Z ->
  item arr i = Some x -> item arr j = Some y -> cmp t x < 0 -> cmp t y < 0.

(** The loop invariant: everything left of [s] is smaller than the
    target, everything right of [e] is greater. *)
Lemma loop_spec (s e : Z) :
  (0 <= s)%Z -> (e < len)%Z -> (s <= e + 1)%Z ->
  (forall i x, (0 <= i < s)%Z -> item arr i = Some x -> 0 < cmp t x) ->
  (forall i x, (e < i < len)%Z -> item arr i = Some x -> cmp t x < 0) ->
  exists r, loop arr t cmp s e = Some r /\
    ((exists x, item arr r = Some x /\ cmp t x == 0) \/
     (exists p, r = bitnot p /\ (0 <= p <= len)%Z /\
        (forall i x, (0 <= i < p)%Z -> item arr i = Some x -> 0 < cmp t x) /\
        (forall i x, (p <= i < len)%Z -> item arr i = Some x -> cmp t x < 0))).
Proof.
  funelim (loop arr t cmp s e); intros Hs He Hse Hlo Hhi.
  - (* the loop is left: the insertion point is [startIndex] *)
    eexists; split; [reflexivity|]. right. exists startIndex.
    split; [reflexivity|]. split; [lia|]. split; [exact Hlo|].
    intros i x Hi. apply Hhi. lia.
  - exfalso. fold len in Hlen. lia.
  - (* the middle element is read inside the array *)
    exfalso. pose proof (mid_bounds startIndex endIndex ltac:(lia)) as Hm.
    destruct (item_Some (startIndex + sar (endIndex - startIndex) 1)) as [x Hx]; [lia|].
    congruence.
  - eexists; split; [reflexivity|]. left. exists midElement. split; [assumption|].
    now apply eqb_eq.
  - (* the target is greater: continue on the right *)
    pose proof (mid_bounds startIndex endIndex ltac:(lia)) as Hm.
    match goal with IH : _ -> _ -> _ -> _ -> _ -> exists _, _ |- _ => apply IH end;
      try lia; try assumption.
    intros i x Hi Hx.
    match goal with E : ltb 0 _ = true |- _ => apply ltb_lt in E; rename E into Hgt end.
    eapply (above i (startIndex + sar (endIndex - startIndex) 1));
      [lia | exact Hx | eassumption | exact Hgt].
  - (* the target is smaller: continue on the left *)
    pose proof (mid_bounds startIndex endIndex ltac:(lia)) as Hm.
    match goal with IH : _ -> _ -> _ -> _ -> _ -> exists _, _ |- _ => apply IH end;
      try lia; try assumption.
    intros i x Hi Hx.
    match goal with E : ltb 0 _ = false |- _ => apply ltb_ge in E; rename E into Hle end.
    match goal with E : eqb _ 0 = false |- _ => apply eqb_neq in E; rename E into Hne end.
    eapply (below (startIndex + sar (endIndex - startIndex) 1) i);
      [lia | eassumption | exact Hx | ].
    destruct (Qlt_le_dec (cmp t midElement) 0) as [|Hge]; [assumption|].
    exfalso. apply Hne. lra.
Qed.

End BinarySearchFacts.

Section SortedArrays.
Import Js BinarySearch.
Context {T : Type}.
Variable R : T -> T -> Prop.

Lemma sorted_nth (l : list T) (i j : nat) (x y : T) :
  StronglySorted R l -> (i < j)%nat ->
  nth_error l i = Some x -> nth_error l j = Some y -> R x y.
Proof.
  intros Hs. revert i j. induction Hs as [|a l Hs IH Ha]; intros i j Hij Hx Hy.
  - destruct i; discriminate.
  - destruct j as [|j]; [lia|]. destruct i as [|i]; simpl in *.
    + injection Hx as <-. apply nth_error_In in Hy.
      rewrite List.Forall_forall in Ha. now apply Ha.
    + apply (IH i j); [lia|assumption..].
Qed.

Lemma sorted_insert (l1 l2 : list T) (x : T) :
  StronglySorted R (l1 ++ l2) ->
  Forall (fun a => R a x) l1 -> Forall (R x) l2 ->
  StronglySorted R (l1 ++ x :: l2).
Proof.
  induction l1 as [|a l1 IH]; simpl; intros Hs H1 H2.
  - now constructor.
  - inversion Hs as [|? ? Hs' Ha]; subst. inversion H1; subst.
    constructor; [now apply IH|].
    apply List.Forall_app in Ha as [Ha1 Ha2].
    apply List.Forall_app. split; [assumption|]. now constructor.
Qed.

Lemma item_nth (l : list T) (i : Z) (x : T) :
  item l i = Some x <-> (0 <= i)%Z /\ nth_error l (Z.to_nat i) = Some x.
Proof.
  unfold item. destruct (Z.ltb_spec i 0); split; intros; try easy; try lia; tauto.
Qed.

End SortedArrays.

(** C9. On an array sorted ascending under a consistent comparator,
    [binarySearch] returns the index of an element equal to the target
    when there is one; otherwise it returns the negative number [~p],
    where inserting the target at [p] keeps the array sorted, and [~]
    applied to the result gives [p] back. *)
Theorem binarySearch_contract {T : Type} (arr : list T) (t : T) (cmp : T -> T -> Q) :
  (Z.of_nat (List.length arr) < 2 ^ 31)%Z ->
  (forall a b, cmp a b < 0 <-> 0 < cmp b a) ->
  (forall a b c, cmp a b <= 0 -> cmp b c <= 0 -> cmp a c <= 0) ->
  StronglySorted (fun a b => cmp a b <= 0) arr ->
  exists r, BinarySearch.binarySearch arr t cmp = Some r /\
    ((exists x, In x arr /\ cmp t x == 0) ->
       exists x, Js.item arr r = Some x /\ cmp t x == 0) /\
    (~ (exists x, In x arr /\ cmp t x == 0) ->
       exists p, r = Js.bitnot p /\ Js.bitnot r = p /\ (r < 0)%Z /\
         (0 <= p <= Z.of_nat (List.length arr))%Z /\
         StronglySorted (fun a b => cmp a b <= 0)
           (firstn (Z.to_nat p) arr ++ t :: skipn (Z.to_nat p) arr)).
Proof.
  intros Hlen Hanti Htrans Hsorted.
  assert (Hmono : forall i j x y, (i <= j)%Z ->
            Js.item arr i = Some x -> Js.item arr j = Some y -> cmp x y <= 0 \/ x = y).
  { intros i j x y Hij Hx Hy. apply item_nth in Hx as [Hi Hx]. apply item_nth in Hy as [Hj Hy].
    destruct (Z.eq_dec i j) as [->|Hne]; [right; congruence|left].
    apply (sorted_nth (fun a b => cmp a b <= 0) arr (Z.to_nat i) (Z.to_nat j));
      [assumption|lia|assumption..]. }
  assert (Hflip : forall a b, 0 <= cmp a b -> cmp b a <= 0).
  { intros a b Hab. destruct (Qlt_le_dec 0 (cmp b a)) as [Hpos|]; [|assumption].
    apply Hanti in Hpos. lra. }
  assert (Habove : forall i j x y, (i <= j)%Z ->
            Js.item arr i = Some x -> Js.item arr j = Some y -> 0 < cmp t y -> 0 < cmp t x).
  { intros i j x y Hij Hx Hy Hpos.
    destruct (Hmono i j x y Hij Hx Hy) as [Hle| ->]; [|assumption].
    destruct (Qlt_le_dec 0 (cmp t x)) as [|Hneg]; [assumption|].
    pose proof (Htrans t x y Hneg Hle). lra. }
  assert (Hbelow : forall i j x y, (i <= j)%Z ->
            Js.item arr i = Some x -> Js.item arr j = Some y -> cmp t x < 0 -> cmp t y < 0).
  { intros i j x y Hij Hx Hy Hneg.
    destruct (Hmono i j x y Hij Hx Hy) as [Hle| ->]; [|assumption].
    destruct (Qlt_le_dec (cmp t y) 0) as [|Hpos]; [assumption|].
    apply Hanti in Hneg. pose proof (Htrans x y t Hle (Hflip _ _ Hpos)). lra. }
  assert (Hloop := loop_spec arr t cmp Hlen Habove Hbelow 0%Z
                     (Z.of_nat (List.length arr) - 1)%Z).
  destruct Hloop as (r & Hr & Hcases); try lia.
  exists r. split; [exact Hr|]. split.
  - intros (x & Hin & Hx). destruct Hcases as [Hfound|(p & _ & Hp & Hlo & Hhi)];
      [exact Hfound|exfalso].
    apply In_nth_error in Hin as (n & Hn).
    assert (Hit : Js.item arr (Z.of_nat n) = Some x).
    { apply item_nth. rewrite Nat2Z.id. split; [lia|assumption]. }
    pose proof (item_range arr _ _ Hit) as Hrange.
    destruct (Z_lt_dec (Z.of_nat n) p).
    + pose proof (Hlo (Z.of_nat n) x ltac:(lia) Hit). lra.
    + pose proof (Hhi (Z.of_nat n) x ltac:(lia) Hit). lra.
  - intros Hnone. destruct Hcases as [(x & Hx & Hzero)|(p & -> & Hp & Hlo & Hhi)].
    { exfalso. apply Hnone. exists x. split; [|assumption].
      apply item_nth in Hx as [_ Hx]. eapply nth_error_In; eassumption. }
    exists p. destruct (bitnot_small p ltac:(lia)) as [Hneg Hback].
    split; [reflexivity|]. split; [rewrite Hneg in *; exact Hback|].
    split; [lia|]. split; [lia|].
    apply sorted_insert.
    + now rewrite firstn_skipn.
    + apply List.Forall_forall. intros x Hin. apply In_nth_error in Hin as (n & Hn).
        rewrite nth_error_firstn in Hn. destruct (Nat.ltb_spec n (Z.to_nat p)); [|discriminate].
        assert (Hit : Js.item arr (Z.of_nat n) = Some x).
        { apply item_nth. rewrite Nat2Z.id. split; [lia|assumption]. }
        pose proof (Hlo (Z.of_nat n) x ltac:(lia) Hit) as Hpos. apply Hanti in Hpos. lra.
    + apply List.Forall_forall. intros x Hin. apply In_nth_error in Hin as (n & Hn).
        rewrite nth_error_skipn in Hn.
        assert (Hit : Js.item arr (Z.of_nat (Z.to_nat p + n)) = Some x).
        { apply item_nth. rewrite Nat2Z.id. split; [lia|assumption]. }
        pose proof (item_range arr _ _ Hit) as Hrange.
        pose proof (Hhi (Z.of_nat (Z.to_nat p + n)) x ltac:(lia) Hit). lra.
Qed.

(** The contract at the array [[1; 3; 5]] of numbers, compared by
    difference, searched for 4. *)
Lemma binarySearch_contract_witness :
  exists r, BinarySearch.binarySearch [1; 3; 5] 4 (fun a b => a - b) = Some r /\
    ((exists x, In x [1; 3; 5] /\ 4 - x == 0) ->
       exists x, Js.item [1; 3; 5] r = Some x /\ 4 - x == 0) /\
    (~ (exists x, In x [1; 3; 5] /\ 4 - x == 0) ->
       exists p, r = Js.bitnot p /\ Js.bitnot r = p /\ (r < 0)%Z /\
         (0 <= p <= Z.of_nat (List.length [1; 3; 5]))%Z /\
         StronglySorted (fun a b => a - b <= 0)
           (firstn (Z.to_nat p) [1; 3; 5] ++ 4 :: skipn (Z.to_nat p) [1; 3; 5])).
Proof.
  apply (binarySearch_contract [1; 3; 5] 4 (fun a b => a - b)).
  - simpl. lia.
  - intros a b. split; intros; lra.
  - intros a b c ? ?. lra.
  - repeat constructor; lra.
Defined.

(** ** rules/alignmentWrapper.ts *)

(** C8. The backward wrapper of a live alignment answers the world query
    at [(s, o)] as the forward wrapper answers it at [(length - s, -o)],
    and its tangent at [s] is the negated forward tangent at
    [length - s]. *)
Theorem backward_mirrors_forward (a : Host.DwgAlignment)
    (target2 : Math3d.vec2) (target3 : Math3d.vec3) (s o : Q) :
  Wrapper.toWCS (Wrapper.new a Wrapper.BACKWARD) target2 (s, o) =
    Wrapper.toWCS (Wrapper.new a Wrapper.FORWARD) target2 (Host.length a - s, - o) /\
  Wrapper.tangentAt (Wrapper.new a Wrapper.BACKWARD) target3 s =
    Math3d.vec3_neg
      (Wrapper.tangentAt (Wrapper.new a Wrapper.FORWARD) target3 (Host.length a - s)).
Proof. split; reflexivity. Qed.

(** C7, as the specification states it, fails: the tangent query on a
    destroyed wrapper hands back the array it was given, here
    [(1, 2, 3)], not the zero vector. *)
Lemma destroyed_tangent_not_zero :
  ~ Spec.vec3_eq
      (Wrapper.tangentAt
         (Wrapper.destroyed (Wrapper.new (Reference.straight 4) Wrapper.FORWARD))
         (1, 2, 3) 0)
      Math3d.vec3_zero.
Proof. intros (Hx & _). vm_compute in Hx. discriminate. Qed.

(** C7, amended.  After the alignment is destroyed no query fails: the
    tangent and the two coordinate queries return the array passed as
    [target] unchanged (the zero vector when the caller passed zeros),
    the elevation is 0 and the chainage label is empty. *)
Theorem destroyed_defaults (this : Wrapper.AlignmentWrapper)
    (target3 : Math3d.vec3) (target2 : Math3d.vec2) (station : Q)
    (stationOffset point : Math3d.vec2) :
  Wrapper.tangentAt (Wrapper.destroyed this) target3 station = target3 /\
  Wrapper.toWCS (Wrapper.destroyed this) target2 stationOffset = target2 /\
  Wrapper.fromWCS (Wrapper.destroyed this) target2 point = target2 /\
  Wrapper.tangentAt (Wrapper.destroyed this) Math3d.vec3_zero station = Math3d.vec3_zero /\
  Wrapper.elevationAt (Wrapper.destroyed this) station = 0 /\
  Wrapper.toPK (Wrapper.destroyed this) station = EmptyString.
Proof. repeat split. Qed.

(** ** utils/intersect.ts *)

Section TriangleFacts.
Import Js Math3d Intersect.
Context `{Ops}.

(** The intersector as a cascade of guards over its quantities. *)
Lemma segmentIntersectsTriangle_guards (sa sb ta tb tc : vec3) :
  segmentIntersectsTriangle sa sb ta tb tc =
    if ltb (Spec.lengthSquared sa sb) EPS2 then false
    else if ltb (Spec.determinant sa sb ta tb tc) EPS then false
    else if ltb (Spec.hitT sa sb ta tb tc) (- EPS)
            || ltb (Spec.length sa sb + EPS) (Spec.hitT sa sb ta tb tc) then false
    else if ltb (Spec.hitU sa sb ta tb tc) (- EPS)
            || ltb (1 + EPS) (Spec.hitU sa sb ta tb tc) then false
    else if ltb (Spec.hitV sa sb ta tb tc) (- EPS)
            || ltb (1 + EPS) (Spec.hitV sa sb ta tb tc)
            || ltb (1 + EPS) (Spec.hitU sa sb ta tb tc + Spec.hitV sa sb ta tb tc)
         then false
    else true.
Proof.
  destruct sa as [[sa0 sa1] sa2], sb as [[sb0 sb1] sb2], ta as [[ta0 ta1] ta2],
    tb as [[tb0 tb1] tb2], tc as [[tc0 tc1] tc2].
  reflexivity.
Qed.

(** C6, amended.  The intersector accepts exactly when the squared length
    is at least 1e-7, the determinant is at least 1e-3, and [t], [u], [v]
    and [u + v] lie in their bands widened by 1e-3: only the
    length-squared guard uses 1e-7, the determinant guard uses 1e-3 like
    the bands, so a determinant below 1e-3 is rejected at that guard. *)
Theorem segmentIntersectsTriangle_bands (sa sb ta tb tc : vec3) :
  segmentIntersectsTriangle sa sb ta tb tc = true <->
    (1 # 10000000) <= Spec.lengthSquared sa sb /\
    (1 # 1000) <= Spec.determinant sa sb ta tb tc /\
    (- (1 # 1000) <= Spec.hitT sa sb ta tb tc /\
       Spec.hitT sa sb ta tb tc <= Spec.length sa sb + (1 # 1000)) /\
    (- (1 # 1000) <= Spec.hitU sa sb ta tb tc /\
       Spec.hitU sa sb ta tb tc <= 1 + (1 # 1000)) /\
    (- (1 # 1000) <= Spec.hitV sa sb ta tb tc /\
       Spec.hitV sa sb ta tb tc <= 1 + (1 # 1000)) /\
    Spec.hitU sa sb ta tb tc + Spec.hitV sa sb ta tb tc <= 1 + (1 # 1000).
Proof.
  rewrite segmentIntersectsTriangle_guards. unfold EPS, EPS2.
  generalize (Spec.lengthSquared sa sb) (Spec.length sa sb)
    (Spec.determinant sa sb ta tb tc) (Spec.hitT sa sb ta tb tc)
    (Spec.hitU sa sb ta tb tc) (Spec.hitV sa sb ta tb tc).
  intros l2 l idet t u v.
  repeat match goal with
  | |- context [ltb ?a ?b] =>
      let E := fresh "E" in
      destruct (ltb a b) eqn:E; [apply ltb_lt in E | apply ltb_ge in E]
  end; cbn [orb]; split; try discriminate; try reflexivity; intros; lra.
Qed.

End TriangleFacts.

(** Closed comparisons of rationals, by computation. *)
Ltac decide_Q :=
  repeat split;
  first [ vm_compute; reflexivity
        | vm_compute; discriminate
        | let H := fresh in intro H; vm_compute in H; discriminate ].

Section SmallTriangle.
#[local] Existing Instance Reference.ops.

(** C6, as the specification states it, fails.  A segment along the z
    axis crosses a small triangle in its interior: the squared length is
    4, the determinant is 0.0004 (strictly between 1e-7 and 1e-3), [t],
    [u], [v] and [u + v] are 1, 1/4, 1/4 and 1/2, all well inside their
    bands; still the answer is [false], so the input is rejected at the
    determinant guard. *)
Lemma small_triangle_rejected :
  let sa : Math3d.vec3 := (5 # 1000, 5 # 1000, 1) in
  let sb : Math3d.vec3 := (5 # 1000, 5 # 1000, -1) in
  let ta : Math3d.vec3 := (0, 0, 0) in
  let tb : Math3d.vec3 := (2 # 100, 0, 0) in
  let tc : Math3d.vec3 := (0, 2 # 100, 0) in
  ((1 # 10000000) < Spec.determinant sa sb ta tb tc /\
   Spec.determinant sa sb ta tb tc < (1 # 1000)) /\
  (1 # 10000000) <= Spec.lengthSquared sa sb /\
  (Spec.hitT sa sb ta tb tc == 1 /\ Spec.length sa sb == 2) /\
  (Spec.hitU sa sb ta tb tc == 1 # 4 /\ Spec.hitV sa sb ta tb tc == 1 # 4) /\
  Intersect.segmentIntersectsTriangle sa sb ta tb tc = false.
Proof. decide_Q. Qed.

End SmallTriangle.

(** ** utils/frustum.ts *)

Section FrustumFacts.
Import Js Math3d Frustum.
Context `{Ops}.

(** Whenever the nearest point of a segment of length at least [EPS]
    lies beyond its start ([0 < t]), [intersectSegment] answers [false]:
    the guard reads [0 < t] where a test for [t < 0] is meant. *)
Lemma intersectSegment_positive_parameter (this : SegmentFrustum) (a b : vec3) :
  EPS <= Spec.segmentLength a b -> 0 < Spec.closestParameter this a b ->
  intersectSegment this a b = false.
Proof.
  intros Hlen Ht. unfold intersectSegment.
  fold (Spec.segmentLength a b).
  destruct (ltb (Spec.segmentLength a b) EPS) eqn:E.
  { apply ltb_lt in E. lra. }
  fold (Spec.segmentRay a b). fold (Spec.closestParameter this a b).
  apply ltb_lt in Ht. now rewrite Ht.
Qed.

(** A segment shorter than [EPS] is tested at its first point. *)
Lemma intersectSegment_short_probe (this : SegmentFrustum) (a b : vec3) :
  Spec.segmentLength a b < EPS -> intersectSegment this a b = containsPoint this a.
Proof.
  intros Hlen. unfold intersectSegment. fold (Spec.segmentLength a b).
  apply ltb_lt in Hlen. now rewrite Hlen.
Qed.

End FrustumFacts.

Section Crossing.
#[local] Existing Instance Reference.ops.

(** C5.  The volume is the segment from the origin to [(0, 0, 10)]; the
    segment from [(-1, 0, 5)] to [(1, 0, 5)] crosses its centre line.
    The closest point of the segment is at [t = 1], inside [[0, 2]], and
    on the centre line ([containsPoint] holds there), so a
    closest-approach test accepts; [intersectSegment] returns [false]. *)
Theorem intersectSegment_rejects_crossing :
  let this := {| Frustum._a := (0, 0, 0); Frustum._b := (0, 0, 10) |} in
  let a : Math3d.vec3 := (-1, 0, 5) in
  let b : Math3d.vec3 := (1, 0, 5) in
  Spec.segmentLength a b == 2 /\
  Spec.closestParameter this a b == 1 /\
  Frustum.containsPoint this
    (Math3d.ray3_at (Spec.segmentRay a b) (Spec.closestParameter this a b)) = true /\
  Frustum.intersectSegment this a b = false.
Proof. decide_Q. Qed.

End Crossing.

(** ** rules/objects.ts: the centre of a model *)

Section CenterFacts.
Import Math3d Dwg Intersect ObjectsRule.
Context `{Ops}.

Lemma sumVertices_corners (vs : list Q) (idx : list nat) (x y z : Q) (n : nat) :
  sumVertices vs idx (x, y, z, n) =
    (cs ← Spec.corners vs idx;
     Some (fold_left (fun s v => s + fst (fst v)) cs x,
           fold_left (fun s v => s + snd (fst v)) cs y,
           fold_left (fun s v => s + snd v) cs z,
           (n + List.length cs)%nat)).
Proof.
  revert x y z n. induction idx as [|i idx IH]; intros x y z n; simpl.
  - now rewrite Nat.add_0_r.
  - destruct (vertexAt vs (i * 3)) as [[[vx vy] vz]|]; simpl; [|reflexivity].
    rewrite IH. destruct (Spec.corners vs idx) as [cs|]; simpl; [|reflexivity].
    now rewrite Nat.add_succ_r.
Qed.

Lemma sumMeshes_corners (ms : list Mesh) (success : bool) (x y z : Q) (n : nat) :
  sumMeshes ms success (x, y, z, n) =
    (cs ← Spec.modelCorners ms;
     Some (success || existsb Spec.hasGeometry ms,
           (fold_left (fun s v => s + fst (fst v)) cs x,
            fold_left (fun s v => s + snd (fst v)) cs y,
            fold_left (fun s v => s + snd v) cs z,
            (n + List.length cs)%nat))).
Proof.
  revert success x y z n. induction ms as [|m ms IH]; intros success x y z n; simpl.
  - now rewrite orb_false_r, Nat.add_0_r.
  - unfold Spec.hasGeometry at 1. destruct (geometry m) as [g|]; simpl.
    + rewrite sumVertices_corners.
      destruct (Spec.corners (vertices g) (indices g)) as [cs|]; simpl; [|reflexivity].
      rewrite IH. destruct (Spec.modelCorners ms) as [ws|]; simpl; [|reflexivity].
      rewrite !fold_left_app, List.length_app, Nat.add_assoc, orb_true_r. reflexivity.
    + apply IH.
Qed.

Lemma corners_geometry (ms : list Mesh) (c : vec3) (cs : list vec3) :
  Spec.modelCorners ms = Some (c :: cs) -> existsb Spec.hasGeometry ms = true.
Proof.
  induction ms as [|m ms IH]; simpl; [discriminate|].
  unfold Spec.hasGeometry at 1. destruct (geometry m); [reflexivity|]. exact IH.
Qed.

Lemma modelCenter_corners (target : vec3) (model : DwgObject) :
  modelCenter target model =
    match Spec.modelCorners (meshes model) with
    | None => None
    | Some [] => Some (false, target)
    | Some (v :: vs) =>
        Some (true, mat4_mulv3 (matrix model) (Spec.mean (v :: vs)))
    end.
Proof.
  unfold modelCenter. rewrite sumMeshes_corners.
  destruct (Spec.modelCorners (meshes model)) as [[|v vs]|] eqn:E; simpl; try reflexivity.
  now rewrite (corners_geometry _ _ _ E).
Qed.

(** C4, amended.  The centre is the plain mean of the vertices named by
    the index buffers of all meshes that have a geometry, one term for
    each index entry (no weighting by area), taken through the matrix of
    the model; a model whose meshes name no vertex has no centre, and
    the sweep skips it with its state unchanged; meshes without
    geometry name no vertex. *)
Theorem modelCenter_plain_mean (rule : ObjectsVisibilityRule)
    (selectableObjects : Frustum.SegmentFrustum -> list DwgObject)
    (fuel : nat) (object : DwgObject) (rest : list DwgObject)
    (alignments : list Wrapper.AlignmentWrapper) (target : vec3)
    (sc : Scratch) (messages : gmap string (list Entry)) (k : nat) :
  modelCenter target object =
    match Spec.modelCorners (meshes object) with
    | None => None
    | Some [] => Some (false, target)
    | Some (v :: vs) =>
        Some (true, mat4_mulv3 (matrix object) (Spec.mean (v :: vs)))
    end /\
  scanObjects rule selectableObjects fuel (object :: rest) alignments sc messages =
    match Spec.modelCorners (meshes object) with
    | None => None
    | Some [] => scanObjects rule selectableObjects fuel rest alignments sc messages
    | Some (v :: vs) =>
        '(sc, messages) ←
          scanAlignments rule selectableObjects object fuel alignments
            {| objectCenter := mat4_mulv3 (matrix object) (Spec.mean (v :: vs));
               stationOffset := stationOffset sc; viewPoint := viewPoint sc;
               tg := tg sc; inverseMatrices := inverseMatrices sc |}
            messages;
        scanObjects rule selectableObjects fuel rest alignments sc messages
    end /\
  Spec.modelCorners (repeat {| geometry := None |} k) = Some [].
Proof.
  split; [apply modelCenter_corners|]. split.
  - simpl. rewrite modelCenter_corners.
    destruct (Spec.modelCorners (meshes object)) as [[|v vs]|]; simpl; try reflexivity.
    now destruct sc.
  - induction k; simpl; [reflexivity|assumption].
Qed.

End CenterFacts.

Section Plates.
#[local] Existing Instance Reference.ops.

(** C4, as the specification states it, fails.  For the two plates the
    rule takes [(35/6, 5/6, 0)], the mean of the six corners; the
    area-weighted mean of the triangle vertices is [(95/51, 65/51, 0)]. *)
Lemma centroid_not_area_weighted :
  match ObjectsRule.modelCenter Math3d.vec3_zero Reference.plates,
        Spec.areaWeightedCentroid Reference.plates with
  | Some (true, c), Some c' =>
      Spec.vec3_eq c (35 # 6, 5 # 6, 0) /\ Spec.vec3_eq c' (95 # 51, 65 # 51, 0) /\
      ~ Spec.vec3_eq c c'
  | _, _ => False
  end.
Proof.
  vm_compute. repeat split; try reflexivity.
  intros (Hx & _). vm_compute in Hx. discriminate.
Qed.

End Plates.

(** ** The predicates given to the drawing layer *)

Section PredicateFacts.
Import Math3d Dwg Intersect Host.
Context `{Ops}.

Lemma DwgType_eqb_eq (a b : DwgType) : DwgType_eqb a b = true <-> a = b.
Proof. destruct a, b; simpl; split; intros; congruence. Qed.

(** What [drain] keeps was accepted by the predicate, whatever the cache
    was at that moment. *)
Lemma drain_accepted
    (predicate : InverseMatrices -> DwgObject -> bool * InverseMatrices)
    (P : DwgObject -> Prop) :
  (forall cache obj, fst (predicate cache obj) = true -> P obj) ->
  forall candidates cache, Forall P (fst (drain predicate candidates cache)).
Proof.
  intros HP. induction candidates as [|obj rest IH]; intros cache; simpl.
  - constructor.
  - destruct (predicate cache obj) as [keep cache1] eqn:E.
    specialize (IH cache1). destruct (drain predicate rest cache1) as [found cache2].
    simpl in *. destruct keep; [|assumption].
    constructor; [|assumption]. apply (HP cache). now rewrite E.
Qed.

(** A cache whose entry for the model, if any, is the inverse of its
    matrix answers with that inverse; so does the empty cache. *)
Lemma inverseOf_coherent (cache : InverseMatrices) (obj : DwgObject) :
  (forall m, cache !! oid obj = Some m -> m = mat4_inverse (matrix obj)) ->
  fst (inverseOf cache obj) = mat4_inverse (matrix obj).
Proof.
  intros Hc. unfold inverseOf. destruct (cache !! oid obj) as [m|] eqn:E; [|reflexivity].
  simpl. now apply Hc.
Qed.

Lemma objects_predicate_iff (object : DwgObject) (viewPoint objectCenter : vec3)
    (cache : InverseMatrices) (obj : DwgObject) :
  fst (ObjectsRule.predicate object viewPoint objectCenter cache obj) = true <->
    type obj = model3d /\ oid obj <> oid object /\
    modelIntersectsSegment obj (fst (inverseOf cache obj)) viewPoint objectCenter = true.
Proof.
  unfold ObjectsRule.predicate.
  destruct (Nat.eqb_spec (oid obj) (oid object)) as [Heq|Hne]; simpl.
  { split; [discriminate|]. intros (_ & Hne & _). contradiction. }
  destruct (DwgType_eqb (type obj) model3d) eqn:Et; simpl.
  - apply DwgType_eqb_eq in Et.
    destruct (inverseOf cache obj) as [inverse cache']. simpl. tauto.
  - split; [discriminate|]. intros (Ht & _). apply DwgType_eqb_eq in Ht. congruence.
Qed.

Lemma alignment_predicate_iff (obstacleLayers : gset nat) (viewPoint objectPoint : vec3)
    (cache : InverseMatrices) (obj : DwgObject) :
  fst (AlignmentRule.predicate obstacleLayers viewPoint objectPoint cache obj) = true <->
    type obj = model3d /\ AlignmentRule.onObstacleLayer obstacleLayers obj = true /\
    modelIntersectsSegment obj (fst (inverseOf cache obj)) viewPoint objectPoint = true.
Proof.
  unfold AlignmentRule.predicate.
  destruct (DwgType_eqb (type obj) model3d) eqn:Et; simpl.
  - apply DwgType_eqb_eq in Et.
    destruct (AlignmentRule.onObstacleLayer obstacleLayers obj); simpl.
    + destruct (inverseOf cache obj) as [inverse cache']. simpl. tauto.
    + split; [discriminate|]. intros (_ & ? & _). discriminate.
  - split; [discriminate|]. intros (Ht & _). apply DwgType_eqb_eq in Ht. congruence.
Qed.

(** C10.  In the sweep towards an object the predicate accepts a
    candidate exactly when it is a 3D model, is not the observed object
    and [modelIntersectsSegment] holds for it on the segment from the
    view point to the centre (with the inverse matrix of the cache, which
    is the inverse of its own matrix when the cache has no entry); the
    layer of the candidate plays no part, while the sweep along the
    alignment also asks for an obstacle layer; the observed object is
    never accepted, nor drawn from the generator. *)
Theorem objects_predicate_exact (object : DwgObject) (viewPoint objectCenter : vec3)
    (cache : InverseMatrices) (obj : DwgObject) (l : option DwgLayer)
    (obstacleLayers : gset nat) (candidates : list DwgObject) :
  (fst (ObjectsRule.predicate object viewPoint objectCenter cache obj) = true <->
     type obj = model3d /\ oid obj <> oid object /\
     modelIntersectsSegment obj (fst (inverseOf cache obj)) viewPoint objectCenter = true) /\
  fst (inverseOf ∅ obj) = mat4_inverse (matrix obj) /\
  ObjectsRule.predicate object viewPoint objectCenter cache (Spec.onLayer obj l) =
    ObjectsRule.predicate object viewPoint objectCenter cache obj /\
  (fst (AlignmentRule.predicate obstacleLayers viewPoint objectCenter cache obj) = true <->
     type obj = model3d /\ AlignmentRule.onObstacleLayer obstacleLayers obj = true /\
     modelIntersectsSegment obj (fst (inverseOf cache obj)) viewPoint objectCenter = true) /\
  fst (ObjectsRule.predicate object viewPoint objectCenter cache object) = false /\
  Forall (fun found => type found = model3d /\ oid found <> oid object)
    (fst (drain (ObjectsRule.predicate object viewPoint objectCenter) candidates cache)).
Proof.
  split; [apply objects_predicate_iff|].
  split; [reflexivity|].
  split; [reflexivity|].
  split; [apply alignment_predicate_iff|].
  split.
  - unfold ObjectsRule.predicate. now rewrite Nat.eqb_refl.
  - apply drain_accepted. intros c o Ho. apply objects_predicate_iff in Ho. tauto.
Qed.

End PredicateFacts.

(** ** Runs of a log of stations *)

Section RunsFacts.
Context {V : Type}.
Variable violation : Q * V -> bool.
#[local] Abbreviation X := (Q * V)%type.
#[local] Abbreviation ascending := (StronglySorted (fun x y : X => fst x < fst y)).
#[local] Abbreviation runs := (Spec.runs violation).

Lemma ascending_app (l1 l2 : list X) :
  ascending (l1 ++ l2) ->
  ascending l1 /\ ascending l2 /\
  forall a b, In a l1 -> In b l2 -> fst a < fst b.
Proof.
  induction l1 as [|x l1 IH]; simpl; intros Hs.
  - split; [constructor|]. split; [assumption|]. intros a b [].
  - inversion Hs as [|? ? Hs' Hx]; subst. destruct (IH Hs') as (H1 & H2 & H12).
    apply List.Forall_app in Hx as [Hx1 Hx2].
    split; [now constructor|]. split; [assumption|].
    intros a b [<-|Ha] Hb.
    + rewrite List.Forall_forall in Hx2. now apply Hx2.
    + now apply H12.
Qed.

(** In an ascending run the first station is the least and the last the
    greatest. *)
Lemma ascending_bounds (run : list X) (y : X) :
  ascending run -> In y run ->
  fst (Spec.bounds run) <= fst y /\ fst y <= snd (Spec.bounds run).
Proof.
  destruct run as [|x run]; [intros _ []|]. intros Hs Hy. unfold Spec.bounds.
  cbn [fst snd]. split.
  - inversion Hs as [|? ? _ Hx]; subst. destruct Hy as [<-|Hy]; [lra|].
    rewrite List.Forall_forall in Hx. specialize (Hx _ Hy). lra.
  - destruct (exists_last (l := x :: run) ltac:(discriminate)) as (front & z & E).
    rewrite E in *. rewrite last_last.
    apply ascending_app in Hs as (_ & _ & Hlt).
    apply in_app_or in Hy as [Hy|[<-|[]]]; [|lra].
    specialize (Hlt y z Hy ltac:(now left)). lra.
Qed.

Lemma bounds_in (run : list X) :
  run <> [] ->
  exists a b, In a run /\ In b run /\ Spec.bounds run = (fst a, fst b).
Proof.
  destruct run as [|x run]; [congruence|]. intros _.
  exists x, (List.last (x :: run) x). split; [now left|]. split; [|reflexivity].
  destruct (exists_last (l := x :: run) ltac:(discriminate)) as (front & z & E).
  rewrite E, last_last. apply in_or_app. right. now left.
Qed.

Lemma runs_entries (log cur : list X) (r : list X * option X) :
  In r (runs cur log) ->
  fst r <> [] /\ (forall x, In x (fst r) -> In x (cur ++ log)) /\
  (Forall (fun x => violation x = true) cur ->
   Forall (fun x => violation x = true) (fst r)).
Proof.
  revert cur r. induction log as [|x log IH]; intros cur r; simpl.
  - destruct cur as [|c cur]; [intros []|]. intros [<-|[]]. cbn [fst].
    split; [discriminate|]. split; [|auto]. intros y Hy. now rewrite app_nil_r.
  - destruct (violation x) eqn:Ex.
    + intros Hr. destruct (IH _ _ Hr) as (Hne & Hin & Hv).
      split; [assumption|]. split.
      * intros y Hy. specialize (Hin y Hy). rewrite <- app_assoc in Hin. exact Hin.
      * intros Hc. apply Hv. apply List.Forall_app. split; [assumption|].
        now repeat constructor.
    + assert (Hrest : In r (runs [] log) ->
                fst r <> [] /\ (forall y, In y (fst r) -> In y (cur ++ x :: log)) /\
                (Forall (fun y => violation y = true) cur ->
                 Forall (fun y => violation y = true) (fst r))).
      { intros Hr. destruct (IH _ _ Hr) as (Hne & Hin & Hv).
        split; [assumption|]. split.
        - intros y Hy. apply in_or_app. right. right. now apply Hin.
        - intros _. apply Hv. constructor. }
      destruct cur as [|c cur]; [exact Hrest|].
      intros [<-|Hr]; [|now apply Hrest]. cbn [fst].
      split; [discriminate|]. split; [|auto].
      intros y Hy. apply in_or_app. now left.
Qed.

(** A run keeps every logged station between two of its own. *)
Lemma runs_convex (log cur : list X) (r : list X * option X) :
  ascending (cur ++ log) -> In r (runs cur log) ->
  forall a b y, In a (fst r) -> In b (fst r) -> In y (cur ++ log) ->
    fst a <= fst y -> fst y <= fst b -> In y (fst r).
Proof.
  revert cur r. induction log as [|x log IH]; intros cur r Hs; simpl.
  - destruct cur as [|c cur]; [intros []|]. intros [<-|[]] a b y _ _ Hy _ _.
    cbn [fst]. now rewrite app_nil_r in Hy.
  - destruct (violation x) eqn:Ex.
    + intros Hr a b y Ha Hb Hy. apply (IH (cur ++ [x]) r); try assumption.
      * now rewrite <- app_assoc.
      * now rewrite <- app_assoc.
    + destruct (ascending_app _ _ Hs) as (Hcur & Hxl & Hlt).
      inversion Hxl as [|? ? Hlog Hx]; subst. rewrite List.Forall_forall in Hx.
      assert (Hrest : In r (runs [] log) ->
                forall a b y, In a (fst r) -> In b (fst r) -> In y (cur ++ x :: log) ->
                  fst a <= fst y -> fst y <= fst b -> In y (fst r)).
      { intros Hr a b y Ha Hb Hy Hay Hyb.
        destruct (runs_entries _ _ _ Hr) as (_ & Hin & _). simpl in Hin.
        apply in_app_or in Hy as [Hy|[<-|Hy]].
        - specialize (Hlt y a Hy ltac:(right; now apply Hin)). lra.
        - specialize (Hx a (Hin _ Ha)). lra.
        - now apply (IH [] r Hlog Hr a b y). }
      destruct cur as [|c cur]; [exact Hrest|].
      intros [<-|Hr]; [|now apply Hrest]. cbn [fst].
      intros a b y Ha Hb Hy Hay Hyb.
      apply in_app_or in Hy as [Hy|Hy]; [assumption|].
      specialize (Hlt b y Hb Hy). lra.
Qed.

(** Every station of the run in progress and every violating station of
    the log is in some run. *)
Lemma runs_cover (log cur : list X) (y : X) :
  In y cur \/ (In y log /\ violation y = true) ->
  exists r, In r (runs cur log) /\ In y (fst r).
Proof.
  revert cur. induction log as [|x log IH]; intros cur; simpl.
  - intros [Hy|[[] _]]. destruct cur as [|c cur]; [destruct Hy|].
    exists (c :: cur, None). split; [now left|assumption].
  - intros Hy. destruct (violation x) eqn:Ex.
    + apply IH. destruct Hy as [Hy|[[<-|Hy] Hv]].
      * left. apply in_or_app. now left.
      * left. apply in_or_app. right. now left.
      * right. now split.
    + destruct Hy as [Hy|[[<-|Hy] Hv]].
      * destruct cur as [|c cur]; [destruct Hy|].
        exists (c :: cur, Some x). split; [now left|assumption].
      * congruence.
      * destruct (IH [] (or_intror (conj Hy Hv))) as (r & Hr & Hyr).
        exists r. split; [|assumption]. destruct cur; [assumption|now right].
Qed.

Lemma runs_ordered (log cur : list X) :
  ascending (cur ++ log) ->
  StronglySorted
    (fun r1 r2 : list X * option X =>
       forall a b, In a (fst r1) -> In b (fst r2) -> fst a < fst b)
    (runs cur log).
Proof.
  revert cur. induction log as [|x log IH]; intros cur Hs; simpl.
  - destruct cur; repeat constructor.
  - destruct (violation x) eqn:Ex.
    + apply IH. now rewrite <- app_assoc.
    + destruct (ascending_app _ _ Hs) as (Hcur & Hxl & Hlt).
      inversion Hxl as [|? ? Hlog Hx]; subst.
      destruct cur as [|c cur]; [now apply IH|].
      constructor; [now apply IH|].
      apply List.Forall_forall. intros r Hr a b Ha Hb.
      destruct (runs_entries _ _ _ Hr) as (_ & Hin & _).
      apply Hlt; [assumption|]. right. now apply Hin.
Qed.

Lemma runs_ascending (log cur : list X) (r : list X * option X) :
  ascending (cur ++ log) -> In r (runs cur log) -> ascending (fst r).
Proof.
  revert cur r. induction log as [|x log IH]; intros cur r Hs; simpl.
  - destruct cur as [|c cur]; [intros []|]. intros [<-|[]]. cbn [fst].
    now rewrite app_nil_r in Hs.
  - destruct (violation x) eqn:Ex.
    + apply IH. now rewrite <- app_assoc.
    + destruct (ascending_app _ _ Hs) as (Hcur & Hxl & _).
      inversion Hxl as [|? ? Hlog _]; subst.
      destruct cur as [|c cur]; [now apply IH|].
      intros [<-|Hr]; [assumption|now apply (IH [] r)].
Qed.

Lemma bounds_ordered (rs : list (list X * option X)) :
  StronglySorted
    (fun r1 r2 : list X * option X =>
       forall a b, In a (fst r1) -> In b (fst r2) -> fst a < fst b) rs ->
  (forall r, In r rs -> fst r <> []) ->
  StronglySorted (fun q1 q2 : Q * Q => snd q1 < fst q2)
    (map (fun r => Spec.bounds (fst r)) rs).
Proof.
  induction 1 as [|r rs Ho IH Hr]; intros Hne; simpl; constructor.
  - apply IH. intros r0 Hr0. apply Hne. now right.
  - apply List.Forall_forall. intros q Hq. apply in_map_iff in Hq as (r2 & <- & Hr2).
    rewrite List.Forall_forall in Hr. specialize (Hr _ Hr2).
    destruct (bounds_in _ (Hne r ltac:(now left))) as (a1 & b1 & _ & Hb1 & ->).
    destruct (bounds_in _ (Hne r2 ltac:(now right))) as (a2 & b2 & Ha2 & _ & ->).
    simpl. now apply Hr.
Qed.

(** The range invariants, for the bounds of the runs of an ascending
    log. *)
Lemma runs_sound (log : list X) :
  ascending log ->
  Spec.RangesSound
    (map (fun x => (fst x, violation x)) log)
    (map (fun r => Spec.bounds (fst r)) (runs [] log)).
Proof.
  intros Hs. split.
  - apply bounds_ordered; [now apply runs_ordered|].
    intros r Hr. now destruct (runs_entries _ _ _ Hr).
  - apply List.Forall_forall. intros q Hq. apply in_map_iff in Hq as (r & <- & Hr).
    destruct (runs_entries _ _ _ Hr) as (Hne & _).
    destruct (bounds_in _ Hne) as (a & b & Ha & _ & E).
    pose proof (ascending_bounds _ a (runs_ascending log [] r Hs Hr) Ha). lra.
  - intros q s v Hq Hsv [Hlo Hhi].
    apply in_map_iff in Hq as (r & <- & Hr).
    apply in_map_iff in Hsv as (y & Ey & Hy). injection Ey as <- <-.
    destruct (runs_entries _ _ _ Hr) as (Hne & _ & Hv).
    destruct (bounds_in _ Hne) as (a & b & Ha & Hb & E). rewrite E in *. simpl in *.
    pose proof (runs_convex log [] r Hs Hr a b y Ha Hb Hy Hlo Hhi) as Hin.
    specialize (Hv ltac:(constructor)). rewrite List.Forall_forall in Hv. now apply Hv.
  - intros s Hsv. apply in_map_iff in Hsv as (y & Ey & Hy). injection Ey as <- Hv.
    destruct (runs_cover log [] y (or_intror (conj Hy Hv))) as (r & Hr & Hyr).
    exists (Spec.bounds (fst r)). split; [apply in_map_iff; eauto|].
    apply ascending_bounds; [|assumption]. now apply (runs_ascending log []).
Qed.

End RunsFacts.

(** ** Loops over stations *)

Lemma bind_some {A B : Type} (f : A -> option B) (x : A) : Some x ≫= f = f x.
Proof. reflexivity. Qed.

Lemma bind_none {A B : Type} (f : A -> option B) : None ≫= f = None.
Proof. reflexivity. Qed.

Lemma inject_succ (n : nat) : inject_Z (Z.of_nat (S n)) == inject_Z (Z.of_nat n) + 1.
Proof. rewrite Nat2Z.inj_succ. unfold Z.succ. now rewrite inject_Z_plus. Qed.

Lemma iterations_enough (length step : Q) :
  0 < step -> length < inject_Z (Z.of_nat (Host.iterations length step)) * step.
Proof.
  intros Hstep. unfold Host.iterations.
  set (q := length / step). pose proof (Qlt_floor q) as Hq.
  assert (Hm : inject_Z (Qfloor q + 1) <=
               inject_Z (Z.of_nat (Z.to_nat (Qfloor q + 1)))).
  { rewrite <- Zle_Qle. lia. }
  assert (E : length == q * step) by (unfold q; field; lra).
  rewrite E at 1. apply Qmult_lt_r; [assumption|]. lra.
Qed.

Section ObjectsLoop.
Import Math3d Dwg Host ObjectsRule.
Context `{Ops}.
Variable rule : ObjectsVisibilityRule.
Variable selectableObjects : Frustum.SegmentFrustum -> list DwgObject.
Variable object : DwgObject.
Variable this : Wrapper.AlignmentWrapper.
Variable objectStation : Q.

#[local] Abbreviation step := (viewPointStep rule).
#[local] Abbreviation length := (Wrapper.length this).
#[local] Abbreviation look := (look rule selectableObjects object this objectStation).
#[local] Abbreviation verdicts :=
  (verdicts rule selectableObjects object this objectStation).
#[local] Abbreviation note := (note rule object this).
#[local] Abbreviation ascending :=
  (StronglySorted (fun x y : Spec.Seen => fst x < fst y)).

(** The stations of the log ascend from the first one. *)
Lemma verdicts_ascending (fuel : nat) (station : Q) (sc sc' : Scratch)
    (log : list Spec.Seen) :
  0 < step -> verdicts fuel station sc = Some (log, sc') ->
  ascending log /\ Forall (fun x => station <= fst x) log.
Proof.
  intros Hstep. revert station sc sc' log. induction fuel as [|fuel IH];
    intros station sc sc' log; simpl; [discriminate|].
  destruct (Js.leb station length); [|intros [= <- _]; split; constructor].
  destruct (look station sc) as [[outOfView obstacles] sc1].
  destruct (verdicts fuel (station + step) sc1) as [[rest sc2]|] eqn:E; simpl;
    [|discriminate].
  intros [= <- _]. destruct (IH _ _ _ _ E) as (Hs & Hge). split.
  - constructor; [assumption|]. eapply List.Forall_impl; [|exact Hge].
    intros x Hx. simpl in *. lra.
  - constructor; [simpl; lra|]. eapply List.Forall_impl; [|exact Hge].
    intros x Hx. simpl in *. lra.
Qed.

(** With more fuel than stations the log is complete. *)
Lemma verdicts_total (fuel n : nat) (station : Q) (sc : Scratch) :
  0 < step -> length - station < inject_Z (Z.of_nat n) * step -> (n < fuel)%nat ->
  exists log sc', verdicts fuel station sc = Some (log, sc').
Proof.
  intros Hstep. revert n station sc. induction fuel as [|fuel IH];
    intros n station sc Hn Hfuel; [lia|]. simpl.
  destruct (Js.leb station length) eqn:E; [|eauto].
  apply leb_le in E. destruct (look station sc) as [[outOfView obstacles] sc1].
  destruct n as [|n]; [change (inject_Z (Z.of_nat 0)) with 0 in Hn; lra|].
  rewrite inject_succ in Hn.
  destruct (IH n (station + step) sc1) as (rest & sc2 & ->); [lra|lia|].
  simpl. eauto.
Qed.

Lemma visit_noted (station : Q) (sc sc1 : Scratch) (range range1 : Range)
    (collection collection1 : list Entry) (outOfView : bool)
    (obstacles : list DwgObject) :
  look station sc = (outOfView, obstacles, sc1) ->
  note station (outOfView, obstacles) (range, collection) = (range1, collection1) ->
  visit rule selectableObjects object this objectStation station
    (sc, range, collection) = Some (sc1, range1, collection1).
Proof. intros El En. unfold visit. now rewrite El, En. Qed.

(** The loop is its log, noted station by station. *)
Lemma forStations_notes (fuel : nat) (station : Q) (sc : Scratch)
    (range : Range) (collection : list Entry) :
  forStations fuel length step (visit rule selectableObjects object this objectStation)
      station (sc, range, collection) =
    match verdicts fuel station sc with
    | None => None
    | Some (log, sc') =>
        let '(range, collection) :=
          fold_left (fun st x => note (fst x) (snd x) st) log (range, collection) in
        Some (sc', range, collection)
    end.
Proof.
  revert station sc range collection. induction fuel as [|fuel IH];
    intros station sc range collection; [reflexivity|].
  cbn [forStations ObjectsRule.verdicts].
  destruct (Js.leb station length); [|reflexivity].
  destruct (look station sc) as [[outOfView obstacles] sc1] eqn:El.
  destruct (note station (outOfView, obstacles) (range, collection))
    as [range1 collection1] eqn:En.
  rewrite (visit_noted _ _ _ _ _ _ _ _ _ El En), bind_some, IH.
  destruct (verdicts fuel (station + step) sc1) as [[rest sc2]|];
    [|now rewrite bind_none].
  rewrite bind_some. cbn [fold_left fst snd]. now rewrite En.
Qed.

Lemma last_snoc (run : list Spec.Seen) (x d : Spec.Seen) :
  List.last (run ++ [x]) d = x.
Proof. apply last_last. Qed.

(** Noting a log station by station emits the diagnostics of its runs. *)
Lemma notes_runs (log cur : list Spec.Seen) (collection : list Entry) :
  Forall (fun x => 0 <= fst x) (cur ++ log) ->
  Spec.close rule object this
    (fold_left (fun st x => note (fst x) (snd x) st) log
       (Spec.rangeOf cur, collection)) =
    collection ++
      map (fun r => inr (Spec.diagnosticOf rule object this r))
          (Spec.runs Spec.obstructed cur log).
Proof.
  revert cur collection. induction log as [|x log IH]; intros cur collection Hpos.
  - simpl. unfold Spec.close. destruct cur as [|c cur]; simpl.
    + now rewrite app_nil_r.
    + apply List.Forall_app in Hpos as [Hpos _]. inversion Hpos; subst.
      now rewrite (proj2 (leb_le 0 (fst c))).
  - cbn [fold_left Spec.runs]. destruct x as [station [outOfView obstacles]].
    unfold Spec.obstructed at 1. cbn [fst snd]. unfold note at 2, ObjectsRule.note.
    destruct (outOfView || bool_decide (obstacles = [])) eqn:Ev; cbn [negb].
    + (* out of view or nothing drawn: the range in progress is closed *)
      destruct cur as [|c cur].
      * simpl. apply (IH []). simpl. apply List.Forall_app in Hpos as [_ Hpos].
        now inversion Hpos.
      * assert (Hc : 0 <= fst c).
        { apply List.Forall_app in Hpos as [Hpos _]. now inversion Hpos. }
        cbn [Spec.rangeOf start]. rewrite (proj2 (leb_le 0 (fst c)) Hc).
        change noRange with (Spec.rangeOf []).
        fold (ObjectsRule.note rule object this).
        rewrite (IH []).
        -- cbn [map]. now rewrite <- app_assoc.
        -- simpl. apply List.Forall_app in Hpos as [_ Hpos]. now inversion Hpos.
    + (* an obstacle in view: the range is opened or extended *)
      fold (ObjectsRule.note rule object this).
      replace {| start := if Js.ltb (start (Spec.rangeOf cur)) 0 then station
                          else start (Spec.rangeOf cur);
                 end_ := station;
                 obstaclesAtRange :=
                   obstaclesAtRange (Spec.rangeOf cur) ∪ list_to_set (oid <$> obstacles) |}
        with (Spec.rangeOf (cur ++ [(station, (outOfView, obstacles))])).
      * apply IH. now rewrite <- app_assoc.
      * destruct cur as [|c cur]; [reflexivity|].
        assert (Hc : 0 <= fst c).
        { apply List.Forall_app in Hpos as [Hpos _]. now inversion Hpos. }
        cbn [Spec.rangeOf start obstaclesAtRange app].
        rewrite (proj2 (ltb_ge (fst c) 0) Hc).
        change (c :: cur ++ [(station, (outOfView, obstacles))])
          with ((c :: cur) ++ [(station, (outOfView, obstacles))]).
        rewrite last_snoc. unfold Spec.obstaclesOf. now rewrite fold_left_app.
Qed.

(** What [look] hands over: nothing when the object is out of view,
    else objects accepted by the predicate. *)
Lemma look_seen (station : Q) (sc sc1 : Scratch) (outOfView : bool)
    (obstacles : list DwgObject) :
  look station sc = (outOfView, obstacles, sc1) ->
  (outOfView = true -> obstacles = []) /\
  Forall (fun f => type f = model3d /\ oid f <> oid object) obstacles.
Proof.
  unfold ObjectsRule.look.
  match goal with
  | |- context [if negb ?b then _ else _] => destruct b
  end; cbn [negb].
  - intros [= <- <- _]. split; [reflexivity|constructor].
  - match goal with
    | |- context [drain ?p ?c ?m] =>
        pose proof (drain_accepted p
                      (fun f => type f = model3d /\ oid f <> oid object)
                      ltac:(intros c0 o Ho; apply objects_predicate_iff in Ho; tauto)
                      c m) as Hd;
        destruct (drain p c m) as [found cache]
    end.
    intros [= <- <- _]. split; [discriminate|exact Hd].
Qed.

Lemma verdicts_seen (fuel : nat) (station : Q) (sc sc' : Scratch)
    (log : list Spec.Seen) :
  verdicts fuel station sc = Some (log, sc') ->
  Forall (fun x : Spec.Seen =>
            (fst (snd x) = true -> snd (snd x) = []) /\
            Forall (fun f => type f = model3d /\ oid f <> oid object) (snd (snd x)))
         log.
Proof.
  revert station sc sc' log. induction fuel as [|fuel IH];
    intros station sc sc' log; [discriminate|].
  cbn [ObjectsRule.verdicts].
  destruct (Js.leb station length); [|intros [= <- _]; constructor].
  destruct (look station sc) as [[outOfView obstacles] sc1] eqn:El.
  destruct (verdicts fuel (station + step) sc1) as [[rest sc2]|] eqn:E;
    [rewrite bind_some|rewrite bind_none; discriminate].
  intros [= <- _]. constructor; [exact (look_seen _ _ _ _ _ El)|].
  exact (IH _ _ _ _ E).
Qed.

(** The obstacle set of a run holds the identities of the obstacles
    drawn at its stations, and nothing else. *)
Lemma obstaclesOf_elem (run : list Spec.Seen) (o : nat) :
  o ∈ Spec.obstaclesOf run <->
    exists x f, In x run /\ In f (snd (snd x)) /\ oid f = o.
Proof.
  unfold Spec.obstaclesOf.
  assert (Hgen : forall acc : gset nat,
            o ∈ fold_left (fun (acc : gset nat) (x : Spec.Seen) =>
                             acc ∪ list_to_set (oid <$> snd (snd x))) run acc <->
            o ∈ acc \/ exists x f, In x run /\ In f (snd (snd x)) /\ oid f = o).
  { induction run as [|y run IH]; intros acc; simpl.
    - split; [auto|]. intros [?|(x & f & [] & _)]. assumption.
    - rewrite IH, elem_of_union, elem_of_list_to_set, list_elem_of_fmap. split.
      + intros [[?|(f & Ho & Hf)]|(x & f & Hx & Hf & Ho)]; [now left|right..].
        * exists y, f. apply list_elem_of_In in Hf. auto.
        * exists x, f. auto.
      + intros [?|(x & f & [<-|Hx] & Hf & Ho)]; [now left; left| |].
        * left. right. exists f. apply list_elem_of_In in Hf. auto.
        * right. exists x, f. auto. }
  rewrite Hgen. split; [intros [Hin|?]; [|assumption]|auto].
  now apply not_elem_of_empty in Hin.
Qed.

(** The sweep of one alignment, run by run. *)
Lemma sweep_runs (fuel : nat) (sc : Scratch) (collection : list Entry) :
  0 < step -> (iterations length step < fuel)%nat ->
  exists log sc',
    verdicts fuel 0 sc = Some (log, sc') /\
    sweep rule selectableObjects object this objectStation fuel sc collection =
      Some (sc', collection ++
                   map (fun r => inr (Spec.diagnosticOf rule object this r))
                       (Spec.runs Spec.obstructed [] log)) /\
    ascending log.
Proof.
  intros Hstep Hfuel.
  destruct (verdicts_total fuel (iterations length step) 0 sc Hstep) as (log & sc' & Hv);
    [pose proof (iterations_enough length step Hstep); lra|assumption|].
  destruct (verdicts_ascending _ _ _ _ _ Hstep Hv) as (Hs & Hpos).
  exists log, sc'. split; [assumption|]. split; [|assumption].
  unfold sweep. rewrite forStations_notes, Hv.
  pose proof (notes_runs log [] collection Hpos) as Hn. cbn [Spec.rangeOf] in Hn.
  destruct (fold_left (fun st x => note (fst x) (snd x) st) log (noRange, collection))
    as [range1 collection1].
  rewrite bind_some. unfold Spec.close in Hn. cbn [fst snd] in Hn.
  rewrite <- Hn. now destruct (Js.leb 0 (start range1)).
Qed.

Lemma diagnostic_bounds (log : list Spec.Seen) :
  map (fun d => (rangeStart d, rangeEnd d))
      (map (Spec.diagnosticOf rule object this) (Spec.runs Spec.obstructed [] log)) =
  map (fun r => Spec.bounds (fst r)) (Spec.runs Spec.obstructed [] log).
Proof.
  rewrite map_map. apply map_ext_in. intros r Hr.
  destruct (runs_entries _ _ _ _ Hr) as (Hne & _).
  destruct r as [[|x run] closing]; [now contradiction Hne|reflexivity].
Qed.


End ObjectsLoop.

(** ** rules/objects.ts: the ranges of the sweep *)

(** C1, amended.  In the sweep towards an object only stations with a
    drawn obstacle are accumulated: the diagnostics pushed for one
    alignment are those of the maximal runs of consecutive obstructed
    stations, so a gated station (too far, beyond 90 degrees, object
    behind) ends the range in progress exactly as a visible station
    does and opens none; a gated station draws no obstacle, and the
    obstacle set of a range holds exactly the models drawn at the
    obstructed stations of its run. *)
Theorem objects_sweep_runs `{Math3d.Ops} (rule : ObjectsRule.ObjectsVisibilityRule)
    (selectableObjects : Frustum.SegmentFrustum -> list Dwg.DwgObject)
    (object : Dwg.DwgObject) (this : Wrapper.AlignmentWrapper) (objectStation : Q)
    (fuel : nat) (sc : ObjectsRule.Scratch) (collection : list ObjectsRule.Entry) :
  0 < ObjectsRule.viewPointStep rule ->
  (Host.iterations (Wrapper.length this) (ObjectsRule.viewPointStep rule) < fuel)%nat ->
  exists log sc',
    ObjectsRule.verdicts rule selectableObjects object this objectStation fuel 0 sc =
      Some (log, sc') /\
    ObjectsRule.sweep rule selectableObjects object this objectStation fuel sc collection =
      Some (sc', collection ++
                   map (fun r => inr (Spec.diagnosticOf rule object this r))
                       (Spec.runs Spec.obstructed [] log)) /\
    Forall (fun x : Spec.Seen =>
              (fst (snd x) = true -> snd (snd x) = []) /\
              Forall (fun f => Dwg.type f = Dwg.model3d /\ Dwg.oid f <> Dwg.oid object)
                     (snd (snd x))) log /\
    forall r o, In r (Spec.runs Spec.obstructed [] log) ->
      (o ∈ ObjectsRule.obstacles (Spec.diagnosticOf rule object this r) <->
       exists x f, In x (fst r) /\ Spec.obstructed x = true /\
                   In f (snd (snd x)) /\ Dwg.oid f = o).
Proof.
  intros Hstep Hfuel.
  destruct (sweep_runs rule selectableObjects object this objectStation fuel sc collection
              Hstep Hfuel) as (log & sc' & Hv & Hsweep & _).
  exists log, sc'. split; [assumption|]. split; [assumption|].
  split; [exact (verdicts_seen _ _ _ _ _ _ _ _ _ _ Hv)|].
  intros r o Hr. cbn [Spec.diagnosticOf ObjectsRule.violation ObjectsRule.obstacles].
  destruct (runs_entries _ _ _ _ Hr) as (Hne & _ & Hall).
  specialize (Hall ltac:(constructor)). rewrite List.Forall_forall in Hall.
  destruct r as [[|x0 run] closing]; [now contradiction Hne|].
  cbn [fst Spec.rangeOf ObjectsRule.obstaclesAtRange]. rewrite obstaclesOf_elem.
  split.
  - intros (x & f & Hx & Hf & Ho). exists x, f. auto.
  - intros (x & f & Hx & _ & Hf & Ho). exists x, f. auto.
Qed.

Section Road.
#[local] Existing Instance Reference.ops.

(** The amended C1 on the road with the wall and the sign, view
    distance 3. *)
Lemma objects_sweep_runs_witness :
  0 < ObjectsRule.viewPointStep (Reference.objectsRule 3) /\
  (Host.iterations (Wrapper.length Reference.road)
     (ObjectsRule.viewPointStep (Reference.objectsRule 3)) < 20)%nat /\
  exists log sc',
    ObjectsRule.verdicts (Reference.objectsRule 3) Reference.drawing Reference.sign
      Reference.road (7 # 2) 20 0 Reference.signScratch = Some (log, sc') /\
    ObjectsRule.sweep (Reference.objectsRule 3) Reference.drawing Reference.sign
      Reference.road (7 # 2) 20 Reference.signScratch [] =
      Some (sc', [] ++
                   map (fun r => inr (Spec.diagnosticOf (Reference.objectsRule 3)
                                         Reference.sign Reference.road r))
                       (Spec.runs Spec.obstructed [] log)) /\
    Forall (fun x : Spec.Seen =>
              (fst (snd x) = true -> snd (snd x) = []) /\
              Forall (fun f => Dwg.type f = Dwg.model3d /\
                               Dwg.oid f <> Dwg.oid Reference.sign)
                     (snd (snd x))) log /\
    forall r o, In r (Spec.runs Spec.obstructed [] log) ->
      (o ∈ ObjectsRule.obstacles
             (Spec.diagnosticOf (Reference.objectsRule 3) Reference.sign Reference.road r) <->
       exists x f, In x (fst r) /\ Spec.obstructed x = true /\
                   In f (snd (snd x)) /\ Dwg.oid f = o).
Proof.
  assert (Hstep : 0 < ObjectsRule.viewPointStep (Reference.objectsRule 3)) by reflexivity.
  assert (Hfuel : (Host.iterations (Wrapper.length Reference.road)
                     (ObjectsRule.viewPointStep (Reference.objectsRule 3)) < 20)%nat)
    by (vm_compute; lia).
  split; [exact Hstep|]. split; [exact Hfuel|].
  exact (objects_sweep_runs (Reference.objectsRule 3) Reference.drawing Reference.sign
           Reference.road (7 # 2) 20 Reference.signScratch [] Hstep Hfuel).
Defined.

(** C1, as the specification states it, fails.  With view distance 3 the
    sign is out of view at station 0 (too far) and at station 4 (behind),
    hidden by the wall at stations 1 and 2, and visible at station 3.
    Accumulating the stations where the sign is not visible would give
    the ranges [[0, 2]] and [[4, 4]]; the rule emits [[1, 2]] alone. *)
Lemma gated_station_opens_no_range :
  option_map
    (fun r => map (fun x : Spec.Seen => (fst x, fst (snd x), map Dwg.oid (snd (snd x))))
                  (fst r))
    (ObjectsRule.verdicts (Reference.objectsRule 3) Reference.drawing Reference.sign
       Reference.road (7 # 2) 20 0 Reference.signScratch) =
    Some [(0, true, []); (1, false, [1%nat]); (2, false, [1%nat]);
          (3, false, []); (4, true, [])] /\
  option_map
    (fun r => map (fun r => Spec.bounds (fst r)) (Spec.runs Spec.notVisible [] (fst r)))
    (ObjectsRule.verdicts (Reference.objectsRule 3) Reference.drawing Reference.sign
       Reference.road (7 # 2) 20 0 Reference.signScratch) =
    Some [(0, 2); (4, 4)] /\
  option_map (fun r => Spec.emittedBounds (snd r))
    (ObjectsRule.sweep (Reference.objectsRule 3) Reference.drawing Reference.sign
       Reference.road (7 # 2) 20 Reference.signScratch []) =
    Some [(1, 2)].
Proof. repeat split; vm_compute; reflexivity. Qed.

End Road.

(** ** rules/alignment.ts: the ranges of the sweep *)

Section AlignmentLoop.
Import Math3d Dwg Host AlignmentRule.
Context `{Ops}.
Variable rule : AlignmentVisibilityRule.
Variable obstacleLayers : gset nat.
Variable selectableObjects : Frustum.SegmentFrustum -> list DwgObject.
Variable this : Wrapper.AlignmentWrapper.

#[local] Abbreviation step := (viewPointStep rule).
#[local] Abbreviation length := (Wrapper.length this).
#[local] Abbreviation findObstacles :=
  (findObstacles rule obstacleLayers selectableObjects this).
#[local] Abbreviation look := (look rule obstacleLayers selectableObjects this).
#[local] Abbreviation verdicts := (verdicts rule obstacleLayers selectableObjects this).
#[local] Abbreviation note := (note rule this).
#[local] Abbreviation ascending :=
  (StronglySorted (fun x y : Spec.Probe => fst x < fst y)).

(** One turn of the inner loop, by cases. *)
Ltac inner_cases :=
  cbn [AlignmentRule.findObstacles];
  repeat match goal with
  | |- context [if Js.leb ?a ?b then _ else _] => destruct (Js.leb a b)
  | |- context [if Js.ltb ?a ?b then _ else _] => destruct (Js.ltb a b)
  | |- context [drain ?p ?c ?m] =>
      let found := fresh "found" in
      let cache := fresh "cache" in
      destruct (drain p c m) as [[|? found] cache]
  end.

(** The inner loop adds what it finds to the set it is given. *)
Lemma findObstacles_adds (fuel : nat) (objectStation : Q) (S : gset nat) (sc : Scratch) :
  findObstacles fuel objectStation S sc =
    match findObstacles fuel objectStation ∅ sc with
    | Some (hasObstacles, reached, found, sc') =>
        Some (hasObstacles, reached, S ∪ found, sc')
    | None => None
    end.
Proof.
  revert objectStation sc. induction fuel as [|fuel IH]; intros objectStation sc;
    [reflexivity|].
  inner_cases; try (now rewrite union_empty_r_L); try apply IH.
  now rewrite union_empty_l_L.
Qed.

(** Without an obstacle nothing is added. *)
Lemma findObstacles_none (fuel : nat) (objectStation reached : Q) (found : gset nat)
    (sc sc' : Scratch) :
  findObstacles fuel objectStation ∅ sc = Some (false, reached, found, sc') ->
  found = ∅.
Proof.
  revert objectStation sc. induction fuel as [|fuel IH]; intros objectStation sc;
    [discriminate|].
  inner_cases; try (intros E; congruence); try apply IH.
Qed.

(** With more fuel than object stations the inner loop ends. *)
Lemma findObstacles_total (fuel n : nat) (objectStation : Q) (S : gset nat)
    (sc : Scratch) :
  0 < objectStep rule ->
  length - objectStation < inject_Z (Z.of_nat n) * objectStep rule -> (n < fuel)%nat ->
  exists r, findObstacles fuel objectStation S sc = Some r.
Proof.
  intros Hstep. revert n objectStation sc. induction fuel as [|fuel IH];
    intros n objectStation sc Hn Hfuel; [lia|].
  cbn [AlignmentRule.findObstacles].
  destruct (Js.leb objectStation length) eqn:E; [|eauto]. apply leb_le in E.
  destruct (Js.ltb _ _); [eauto|].
  match goal with
  | |- context [drain ?p ?c ?m] => destruct (drain p c m) as [[|? found] cache]
  end; [|eauto].
  destruct n as [|n]; [change (inject_Z (Z.of_nat 0)) with 0 in Hn; lra|].
  rewrite inject_succ in Hn. apply (IH n); [lra|lia].
Qed.

Lemma look_adds (fuel : nat) (station : Q) (S : gset nat) (sc : Scratch) :
  look fuel station S sc =
    match look fuel station ∅ sc with
    | Some (hasObstacles, reached, found, sc') =>
        Some (hasObstacles, reached, S ∪ found, sc')
    | None => None
    end.
Proof. unfold AlignmentRule.look. apply findObstacles_adds. Qed.

Lemma look_total (fuel : nat) (station : Q) (S : gset nat) (sc : Scratch) :
  0 < objectStep rule -> 0 <= station ->
  (iterations length (objectStep rule) < fuel)%nat ->
  exists r, look fuel station S sc = Some r.
Proof.
  intros Hstep Hpos Hfuel. unfold AlignmentRule.look.
  apply (findObstacles_total fuel (iterations length (objectStep rule)));
    [assumption| |assumption].
  pose proof (iterations_enough length (objectStep rule) Hstep). lra.
Qed.

(** The stations of the log ascend from the first one, and a station
    without obstacle has found none. *)
Lemma probes_ascending (inner fuel : nat) (station : Q) (sc sc' : Scratch)
    (log : list Spec.Probe) :
  0 < step -> verdicts inner fuel station sc = Some (log, sc') ->
  ascending log /\ Forall (fun x => station <= fst x) log /\
  Forall (fun x => Spec.hasObstacles x = false -> Spec.found x = ∅) log.
Proof.
  intros Hstep. revert station sc sc' log. induction fuel as [|fuel IH];
    intros station sc sc' log; [discriminate|].
  cbn [AlignmentRule.verdicts].
  destruct (Js.leb station length); [|intros [= <- _]; repeat split; constructor].
  destruct (look inner station ∅ sc) as [[[[hasObstacles reached] found] sc1]|] eqn:El;
    [rewrite bind_some|rewrite bind_none; discriminate].
  destruct (verdicts inner fuel (station + step) sc1) as [[rest sc2]|] eqn:E;
    [rewrite bind_some|rewrite bind_none; discriminate].
  intros [= <- _]. destruct (IH _ _ _ _ E) as (Hs & Hge & Hf). repeat split.
  - constructor; [assumption|]. eapply List.Forall_impl; [|exact Hge].
    intros x Hx. simpl in *. lra.
  - constructor; [simpl; lra|]. eapply List.Forall_impl; [|exact Hge].
    intros x Hx. simpl in *. lra.
  - constructor; [|assumption]. unfold Spec.hasObstacles, Spec.found. cbn [fst snd].
    intros ->. exact (findObstacles_none _ _ _ _ _ _ El).
Qed.

Lemma probes_total (inner fuel n : nat) (station : Q) (sc : Scratch) :
  0 < step -> 0 < objectStep rule -> 0 <= station ->
  (iterations length (objectStep rule) < inner)%nat ->
  length - station < inject_Z (Z.of_nat n) * step -> (n < fuel)%nat ->
  exists log sc', verdicts inner fuel station sc = Some (log, sc').
Proof.
  intros Hstep Hostep Hpos Hinner. revert n station sc Hpos.
  induction fuel as [|fuel IH]; intros n station sc Hpos Hn Hfuel; [lia|].
  cbn [AlignmentRule.verdicts].
  destruct (Js.leb station length) eqn:E; [|eauto]. apply leb_le in E.
  destruct (look_total inner station ∅ sc Hostep Hpos Hinner)
    as ([[[hasObstacles reached] found] sc1] & ->).
  rewrite bind_some.
  destruct n as [|n]; [change (inject_Z (Z.of_nat 0)) with 0 in Hn; lra|].
  rewrite inject_succ in Hn.
  destruct (IH n (station + step) sc1) as (rest & sc2 & ->); [lra|lra|lia|].
  rewrite bind_some. eauto.
Qed.

#[local] Abbreviation noted := (Spec.noted rule this).

Lemma visit_noted_probe (inner : nat) (station : Q) (sc : Scratch)
    (range : Range) (collection : list Entry) :
  visit rule obstacleLayers selectableObjects this inner station
      (sc, range, collection) =
    match look inner station ∅ sc with
    | Some (hasObstacles, reached, found, sc1) =>
        let '(range, collection) :=
          noted (range, collection) (station, (hasObstacles, reached, found)) in
        Some (sc1, range, collection)
    | None => None
    end.
Proof.
  unfold visit. rewrite look_adds.
  now destruct (look inner station ∅ sc) as [[[[hasObstacles reached] found] sc1]|].
Qed.

Lemma forStations_noted (inner fuel : nat) (station : Q) (sc : Scratch)
    (range : Range) (collection : list Entry) :
  forStations fuel length step
      (visit rule obstacleLayers selectableObjects this inner)
      station (sc, range, collection) =
    match verdicts inner fuel station sc with
    | None => None
    | Some (log, sc') =>
        let '(range, collection) := fold_left noted log (range, collection) in
        Some (sc', range, collection)
    end.
Proof.
  revert station sc range collection. induction fuel as [|fuel IH];
    intros station sc range collection; [reflexivity|].
  cbn [forStations AlignmentRule.verdicts].
  destruct (Js.leb station length); [|reflexivity].
  rewrite visit_noted_probe.
  destruct (look inner station ∅ sc) as [[[[hasObstacles reached] found] sc1]|];
    [rewrite bind_some|now rewrite bind_none].
  destruct (noted (range, collection) (station, (hasObstacles, reached, found)))
    as [range1 collection1] eqn:En.
  rewrite bind_some, IH.
  destruct (verdicts inner fuel (station + step) sc1) as [[rest sc2]|];
    [|now rewrite bind_none].
  rewrite bind_some. cbn [fold_left]. now rewrite En.
Qed.

End AlignmentLoop.

(** ** Key frames *)

Section KeyFrameFacts.
Import AlignmentRule.
#[local] Abbreviation KeyFrame := AlignmentVisibilityDiagnosticKeyFrame.

Lemma addKeyFrame_cases (kfs : list KeyFrame) (s o : Q) :
  addKeyFrame kfs s o = kfs ++ [(s, o)] \/
  exists front p l, kfs = (front ++ [p]) ++ [l] /\
    addKeyFrame kfs s o = (front ++ [p]) ++ [(s, o)].
Proof.
  unfold addKeyFrame. destruct (rev kfs) as [|l [|p r]] eqn:E; [now left..|].
  destruct (Js.ltb _ _); [right|now left].
  assert (Hk : kfs = (rev r ++ [p]) ++ [l]).
  { rewrite <- (rev_involutive kfs), E. simpl. reflexivity. }
  exists (rev r), p, l. split; [assumption|].
  f_equal. rewrite Hk. apply removelast_last.
Qed.

Lemma bounds_snoc {V : Type} (l : list (Q * V)) (y : Q * V) :
  l <> [] -> Spec.bounds (l ++ [y]) = (fst (Spec.bounds l), fst y).
Proof.
  destruct l as [|x l]; [congruence|]. intros _. unfold Spec.bounds. cbn [app fst].
  f_equal. change (x :: l ++ [y]) with ((x :: l) ++ [y]). now rewrite last_last.
Qed.

(** A key frame added to a range keeps its first station and ends it at
    the new station. *)
Lemma addKeyFrame_bounds (kfs : list KeyFrame) (s o : Q) :
  kfs <> [] ->
  addKeyFrame kfs s o <> [] /\
  Spec.bounds (addKeyFrame kfs s o) = (fst (Spec.bounds kfs), s).
Proof.
  intros Hne. destruct (addKeyFrame_cases kfs s o) as [->|(front & p & l & Hk & ->)];
    unfold AlignmentVisibilityDiagnosticKeyFrame in *.
  - split; [now destruct kfs|]. now rewrite bounds_snoc.
  - split; [now destruct front|].
    rewrite Hk, (bounds_snoc (front ++ [p]) (s, o)), (bounds_snoc (front ++ [p]) l)
      by now destruct front.
    reflexivity.
Qed.

Lemma keyFrames_bounds (rest : list Spec.Probe) (kfs : list KeyFrame) :
  kfs <> [] ->
  let result :=
    fold_left (fun kfs x => addKeyFrame kfs (fst x) (Spec.objectStation x)) rest kfs in
  result <> [] /\
  Spec.bounds result =
    (fst (Spec.bounds kfs),
     match rest with [] => snd (Spec.bounds kfs) | x :: _ => fst (List.last rest x) end).
Proof.
  revert kfs. induction rest as [|x rest IH]; intros kfs Hne; cbn [fold_left].
  - split; [assumption|]. now destruct (Spec.bounds kfs).
  - destruct (addKeyFrame_bounds kfs (fst x) (Spec.objectStation x) Hne) as (Hne' & Hb).
    destruct (IH _ Hne') as (Hr & Hbr). split; [assumption|].
    rewrite Hbr, Hb. cbn [fst snd]. f_equal.
    destruct rest as [|y rest]; [reflexivity|].
    change (List.last (x :: y :: rest) x) with (List.last (y :: rest) x).
    destruct (exists_last (l := y :: rest) ltac:(discriminate)) as (front & z & ->).
    now rewrite !last_last.
Qed.

(** The key frames of a run span the run. *)
Lemma keyFramesOf_bounds (run : list Spec.Probe) :
  run <> [] ->
  Spec.keyFramesOf run <> [] /\ Spec.bounds (Spec.keyFramesOf run) = Spec.bounds run.
Proof.
  destruct run as [|x rest]; [congruence|]. intros _.
  unfold Spec.keyFramesOf. cbn [fold_left].
  change (addKeyFrame [] (fst x) (Spec.objectStation x))
    with [(fst x, Spec.objectStation x)].
  destruct (keyFrames_bounds rest [(fst x, Spec.objectStation x)] ltac:(discriminate))
    as (Hne & Hb).
  split; [assumption|]. rewrite Hb. unfold Spec.bounds at 3. cbn [fst snd List.last].
  f_equal. destruct rest as [|y rest]; [reflexivity|].
  destruct (exists_last (l := y :: rest) ltac:(discriminate)) as (front & z & ->).
  now rewrite !last_last.
Qed.

(** Two key frames with the same object station: the next key frame
    replaces the second. *)
Lemma addKeyFrame_merges (a b : KeyFrame) (s o T : Q) :
  snd a == T -> snd b == T -> addKeyFrame [a; b] s o = [a; (s, o)].
Proof.
  intros Ha Hb. unfold addKeyFrame. cbn [rev app].
  assert (Hlt : Js.ltb (Qabs (snd b - snd a)) (1 # 100) = true).
  { apply ltb_lt. apply Qabs_case; intros; lra. }
  now rewrite Hlt.
Qed.

Lemma keyFrames_constant (rest : list Spec.Probe) (a b : KeyFrame) (T : Q) :
  snd a == T -> snd b == T ->
  (forall x, In x rest -> Spec.objectStation x == T) ->
  fold_left (fun kfs x => addKeyFrame kfs (fst x) (Spec.objectStation x)) rest [a; b] =
    [a; match rest with
        | [] => b
        | x :: _ => (fst (List.last rest x), Spec.objectStation (List.last rest x))
        end].
Proof.
  revert b. induction rest as [|x rest IH]; intros b Ha Hb Hall; [reflexivity|].
  cbn [fold_left]. rewrite (addKeyFrame_merges a b _ _ T Ha Hb).
  rewrite IH; [|assumption|apply Hall; now left|intros y Hy; apply Hall; now right].
  f_equal. f_equal. destruct rest as [|y rest]; [reflexivity|].
  change (List.last (x :: y :: rest) x) with (List.last (y :: rest) x).
  destruct (exists_last (l := y :: rest) ltac:(discriminate)) as (front & z & ->).
  now rewrite !last_last.
Qed.

(** The key frames of a run with one object station: the first station,
    and the last one when the run has more than one station. *)
Lemma keyFramesOf_constant (run : list Spec.Probe) (T : Q) :
  (forall x, In x run -> Spec.objectStation x == T) ->
  Spec.keyFramesOf run =
    match run with
    | [] => []
    | [x] => [(fst x, Spec.objectStation x)]
    | x :: (y :: _) as rest =>
        [(fst x, Spec.objectStation x);
         (fst (List.last rest y), Spec.objectStation (List.last rest y))]
    end.
Proof.
  intros Hall. destruct run as [|x [|y rest]]; [reflexivity..|].
  unfold Spec.keyFramesOf. cbn [fold_left].
  change (addKeyFrame (addKeyFrame [] (fst x) (Spec.objectStation x))
            (fst y) (Spec.objectStation y))
    with [(fst x, Spec.objectStation x); (fst y, Spec.objectStation y)].
  rewrite (keyFrames_constant rest _ _ T).
  - f_equal. f_equal. destruct rest as [|z rest]; [reflexivity|].
    change (List.last (y :: z :: rest) y) with (List.last (z :: rest) y).
    destruct (exists_last (l := z :: rest) ltac:(discriminate)) as (front & w & ->).
    now rewrite !last_last.
  - apply Hall. now left.
  - apply Hall. right. now left.
  - intros z Hz. apply Hall. right. now right.
Qed.

End KeyFrameFacts.

Section AlignmentRuns.
Import AlignmentRule.
Variable rule : AlignmentVisibilityRule.
Variable this : Wrapper.AlignmentWrapper.

#[local] Abbreviation noted := (Spec.noted rule this).

(** Noting a log station by station emits the diagnostics of its runs. *)
Lemma noted_runs (log cur : list Spec.Probe) (collection : list Entry) :
  Forall (fun x => 0 <= fst x) (cur ++ log) ->
  Forall (fun x => Spec.hasObstacles x = false -> Spec.found x = ∅) log ->
  Spec.closeProbed rule this (fold_left noted log (Spec.probedRange cur, collection)) =
    collection ++
      map (fun r => inr (Spec.probedDiagnostic rule this r))
          (Spec.runs Spec.hasObstacles cur log).
Proof.
  revert cur collection. induction log as [|x log IH]; intros cur collection Hpos Hnone.
  - simpl. unfold Spec.closeProbed. destruct cur as [|c cur]; simpl.
    + now rewrite app_nil_r.
    + apply List.Forall_app in Hpos as [Hpos _]. inversion Hpos; subst.
      now rewrite (proj2 (leb_le 0 (fst c))).
  - inversion Hnone as [|? ? Hx Hnone']; subst.
    assert (Hlog : Forall (fun y : Spec.Probe => 0 <= fst y) ([] ++ log)).
    { apply List.Forall_app in Hpos as [_ Hpos]. now inversion Hpos. }
    destruct x as [station [[hasObstacles reached] found]].
    cbn [fold_left Spec.runs].
    change (Spec.hasObstacles (station, (hasObstacles, reached, found)))
      with hasObstacles in *.
    change (Spec.found (station, (hasObstacles, reached, found))) with found in *.
    change (noted (Spec.probedRange cur, collection)
                  (station, (hasObstacles, reached, found)))
      with (note rule this station
              (hasObstacles, reached,
               obstaclesAtStation (Spec.probedRange cur) ∪ found)
              (Spec.probedRange cur, collection)).
    destruct hasObstacles.
    + (* an obstacle: the range is opened or extended *)
      replace (note rule this station
                 (true, reached, obstaclesAtStation (Spec.probedRange cur) ∪ found)
                 (Spec.probedRange cur, collection))
        with (Spec.probedRange (cur ++ [(station, (true, reached, found))]), collection).
      * apply IH; [now rewrite <- app_assoc|assumption].
      * unfold note. cbn [negb rangeStart]. f_equal.
        destruct cur as [|c cur]; [reflexivity|].
        assert (Hc : 0 <= fst c).
        { apply List.Forall_app in Hpos as [Hpos _]. now inversion Hpos. }
        cbn [Spec.probedRange rangeStart rangeKeyFrames obstaclesAtStation app].
        rewrite (proj2 (ltb_ge (fst c) 0) Hc).
        unfold Spec.keyFramesOf, Spec.foundOver.
        change (c :: cur ++ [(station, (true, reached, found))])
          with ((c :: cur) ++ [(station, (true, reached, found))]).
        now rewrite !fold_left_app.
    + (* no obstacle: the range in progress is closed *)
      assert (found = ∅) as -> by auto.
      replace (obstaclesAtStation (Spec.probedRange cur) ∪ ∅)
        with (obstaclesAtStation (Spec.probedRange cur))
        by (symmetry; apply union_empty_r_L).
      destruct cur as [|c cur].
      * change (note rule this station (false, reached, obstaclesAtStation (Spec.probedRange []))
                  (Spec.probedRange [], collection))
          with (Spec.probedRange [], collection).
        apply (IH [] collection Hlog Hnone').
      * assert (Hc : 0 <= fst c).
        { apply List.Forall_app in Hpos as [Hpos _]. now inversion Hpos. }
        replace (note rule this station
                   (false, reached, obstaclesAtStation (Spec.probedRange (c :: cur)))
                   (Spec.probedRange (c :: cur), collection))
          with (Spec.probedRange [],
                collection ++
                  [inr (Spec.probedDiagnostic rule this
                          (c :: cur, Some (station, (false, reached, ∅))))]).
        -- rewrite (IH [] _ Hlog Hnone'). cbn [map]. now rewrite <- app_assoc.
        -- unfold note. cbn [negb Spec.probedRange rangeStart].
           now rewrite (proj2 (leb_le 0 (fst c)) Hc).
Qed.

Lemma probed_spans (log : list Spec.Probe) :
  map Spec.span
      (map (Spec.probedDiagnostic rule this) (Spec.runs Spec.hasObstacles [] log)) =
  map (fun r => Spec.bounds (fst r)) (Spec.runs Spec.hasObstacles [] log).
Proof.
  rewrite map_map. apply map_ext_in. intros r Hr.
  destruct (runs_entries _ _ _ _ Hr) as (Hne & _).
  unfold Spec.span, Spec.probedDiagnostic, violation. cbn [keyFrames].
  destruct r as [[|x run] closing]; [now contradiction Hne|].
  cbn [fst Spec.probedRange rangeKeyFrames].
  now destruct (keyFramesOf_bounds (x :: run) ltac:(discriminate)).
Qed.

End AlignmentRuns.

Section AlignmentScan.
Import Math3d Dwg Host AlignmentRule.
Context `{Ops}.
Variable rule : AlignmentVisibilityRule.
Variable obstacleLayers : gset nat.
Variable selectableObjects : Frustum.SegmentFrustum -> list DwgObject.
Variable this : Wrapper.AlignmentWrapper.

(** The scan of one alignment, run by run. *)
Lemma scan_runs (fuel : nat) (sc : Scratch) (collection : list Entry) :
  0 < viewPointStep rule -> 0 < objectStep rule ->
  (iterations (Wrapper.length this) (viewPointStep rule) < fuel)%nat ->
  (iterations (Wrapper.length this) (objectStep rule) < fuel)%nat ->
  exists log sc',
    verdicts rule obstacleLayers selectableObjects this fuel fuel 0 sc = Some (log, sc') /\
    scan rule obstacleLayers selectableObjects this fuel sc collection =
      Some (sc', collection ++
                   map (fun r => inr (Spec.probedDiagnostic rule this r))
                       (Spec.runs Spec.hasObstacles [] log)) /\
    StronglySorted (fun x y : Spec.Probe => fst x < fst y) log.
Proof.
  intros Hstep Hostep Hfuel Hinner.
  destruct (probes_total rule obstacleLayers selectableObjects this fuel fuel
              (iterations (Wrapper.length this) (viewPointStep rule)) 0 sc
              Hstep Hostep ltac:(lra) Hinner) as (log & sc' & Hv);
    [pose proof (iterations_enough (Wrapper.length this) _ Hstep); lra|assumption|].
  destruct (probes_ascending _ _ _ _ _ _ _ _ _ _ Hstep Hv) as (Hs & Hpos & Hnone).
  exists log, sc'. split; [assumption|]. split; [|assumption].
  unfold scan. rewrite forStations_noted, Hv.
  pose proof (noted_runs rule this log [] collection Hpos Hnone) as Hn.
  cbn [Spec.probedRange] in Hn.
  destruct (fold_left (Spec.noted rule this) log (noRange, collection))
    as [range1 collection1].
  rewrite bind_some. unfold Spec.closeProbed in Hn. cbn [fst snd] in Hn.
  rewrite <- Hn. now destruct (Js.leb 0 (rangeStart range1)).
Qed.

End AlignmentScan.

(** C3, amended.  In the sweep along the alignment the diagnostics of
    one alignment are those of the maximal runs of stations with an
    obstacle; where the object station recorded is the same at every
    station of a run, the key frames of its diagnostic are the key frame
    of the first station alone when the run has one station, and
    otherwise exactly two: the key frame of the first station and the key
    frame of the last station, however many stations the run has. *)
Theorem keyFrames_of_constant_target `{Math3d.Ops}
    (rule : AlignmentRule.AlignmentVisibilityRule) (obstacleLayers : gset nat)
    (selectableObjects : Frustum.SegmentFrustum -> list Dwg.DwgObject)
    (this : Wrapper.AlignmentWrapper) (fuel : nat)
    (sc : AlignmentRule.Scratch) (collection : list AlignmentRule.Entry) :
  0 < AlignmentRule.viewPointStep rule -> 0 < AlignmentRule.objectStep rule ->
  (Host.iterations (Wrapper.length this) (AlignmentRule.viewPointStep rule) < fuel)%nat ->
  (Host.iterations (Wrapper.length this) (AlignmentRule.objectStep rule) < fuel)%nat ->
  exists log sc',
    AlignmentRule.verdicts rule obstacleLayers selectableObjects this fuel fuel 0 sc =
      Some (log, sc') /\
    AlignmentRule.scan rule obstacleLayers selectableObjects this fuel sc collection =
      Some (sc', collection ++
                   map (fun r => inr (Spec.probedDiagnostic rule this r))
                       (Spec.runs Spec.hasObstacles [] log)) /\
    forall r T, In r (Spec.runs Spec.hasObstacles [] log) ->
      (forall x, In x (fst r) -> Spec.objectStation x == T) ->
      AlignmentRule.keyFrames (Spec.probedDiagnostic rule this r) =
        match fst r with
        | [] => []
        | [x] => [(fst x, Spec.objectStation x)]
        | x :: (y :: _) as rest =>
            [(fst x, Spec.objectStation x);
             (fst (List.last rest y), Spec.objectStation (List.last rest y))]
        end /\
      List.length (AlignmentRule.keyFrames (Spec.probedDiagnostic rule this r)) =
        Nat.min 2 (List.length (fst r)).
Proof.
  intros Hstep Hostep Hfuel Hinner.
  destruct (scan_runs rule obstacleLayers selectableObjects this fuel sc collection
              Hstep Hostep Hfuel Hinner) as (log & sc' & Hv & Hscan & _).
  exists log, sc'. split; [assumption|]. split; [assumption|].
  intros r T Hr Hall.
  destruct (runs_entries _ _ _ _ Hr) as (Hne & _).
  assert (Hk : AlignmentRule.keyFrames (Spec.probedDiagnostic rule this r) =
               Spec.keyFramesOf (fst r)).
  { destruct r as [[|x run] closing]; [now contradiction Hne|reflexivity]. }
  rewrite Hk, (keyFramesOf_constant (fst r) T Hall).
  split; [reflexivity|]. now destruct (fst r) as [|x [|y rest]].
Qed.

(** C2, amended.  For one scan of an alignment by the sweep along it,
    and for one sweep of an alignment towards one object, with the
    stations visited and the verdict of the sweep at each of them: the
    ranges of the diagnostics pushed (for the sweep along the alignment
    the stations spanned by the key frames, for the sweep towards an
    object [rangeStart] and [rangeEnd]) ascend without overlap, every
    visited station inside a range was a violation, and every violation
    lies in a range.  Nothing is said of the ranges of several objects
    taken together, nor of the end printed in the message of a
    record. *)
Theorem sweep_ranges_sound `{Math3d.Ops}
    (selectableObjects : Frustum.SegmentFrustum -> list Dwg.DwgObject)
    (this : Wrapper.AlignmentWrapper) (fuel : nat)
    (alongRule : AlignmentRule.AlignmentVisibilityRule) (obstacleLayers : gset nat)
    (alongScratch : AlignmentRule.Scratch) (alongCollection : list AlignmentRule.Entry)
    (towardsRule : ObjectsRule.ObjectsVisibilityRule) (object : Dwg.DwgObject)
    (objectStation : Q)
    (towardsScratch : ObjectsRule.Scratch) (towardsCollection : list ObjectsRule.Entry) :
  0 < AlignmentRule.viewPointStep alongRule -> 0 < AlignmentRule.objectStep alongRule ->
  (Host.iterations (Wrapper.length this) (AlignmentRule.viewPointStep alongRule)
     < fuel)%nat ->
  (Host.iterations (Wrapper.length this) (AlignmentRule.objectStep alongRule)
     < fuel)%nat ->
  0 < ObjectsRule.viewPointStep towardsRule ->
  (Host.iterations (Wrapper.length this) (ObjectsRule.viewPointStep towardsRule)
     < fuel)%nat ->
  (exists log sc' emitted,
     AlignmentRule.verdicts alongRule obstacleLayers selectableObjects this fuel fuel 0
       alongScratch = Some (log, sc') /\
     AlignmentRule.scan alongRule obstacleLayers selectableObjects this fuel
       alongScratch alongCollection = Some (sc', alongCollection ++ map inr emitted) /\
     Spec.RangesSound (map (fun x => (fst x, Spec.hasObstacles x)) log)
       (map Spec.span emitted)) /\
  (exists log sc' emitted,
     ObjectsRule.verdicts towardsRule selectableObjects object this objectStation fuel 0
       towardsScratch = Some (log, sc') /\
     ObjectsRule.sweep towardsRule selectableObjects object this objectStation fuel
       towardsScratch towardsCollection =
       Some (sc', towardsCollection ++ map inr emitted) /\
     Spec.RangesSound (map (fun x => (fst x, Spec.obstructed x)) log)
       (map (fun d => (ObjectsRule.rangeStart d, ObjectsRule.rangeEnd d)) emitted)).
Proof.
  intros Hstep Hostep Hfuel Hinner Hstep' Hfuel'. split.
  - destruct (scan_runs alongRule obstacleLayers selectableObjects this fuel
                alongScratch alongCollection Hstep Hostep Hfuel Hinner)
      as (log & sc' & Hv & Hscan & Hs).
    exists log, sc',
      (map (Spec.probedDiagnostic alongRule this) (Spec.runs Spec.hasObstacles [] log)).
    split; [assumption|]. split; [now rewrite map_map|].
    rewrite probed_spans. now apply runs_sound.
  - destruct (sweep_runs towardsRule selectableObjects object this objectStation fuel
                towardsScratch towardsCollection Hstep' Hfuel')
      as (log & sc' & Hv & Hsweep & Hs).
    exists log, sc',
      (map (Spec.diagnosticOf towardsRule object this) (Spec.runs Spec.obstructed [] log)).
    split; [assumption|]. split; [now rewrite map_map|].
    rewrite diagnostic_bounds. now apply runs_sound.
Qed.

Section RoadScan.
#[local] Existing Instance Reference.ops.

(** The amended C3 on the road with the wall. *)
Lemma keyFrames_of_constant_target_witness :
  0 < AlignmentRule.viewPointStep Reference.alignmentRule /\
  0 < AlignmentRule.objectStep Reference.alignmentRule /\
  (Host.iterations (Wrapper.length Reference.road)
     (AlignmentRule.viewPointStep Reference.alignmentRule) < 20)%nat /\
  (Host.iterations (Wrapper.length Reference.road)
     (AlignmentRule.objectStep Reference.alignmentRule) < 20)%nat /\
  exists log sc',
    AlignmentRule.verdicts Reference.alignmentRule {[7%nat]} Reference.drawing
      Reference.road 20 20 0 Reference.alignmentScratch = Some (log, sc') /\
    AlignmentRule.scan Reference.alignmentRule {[7%nat]} Reference.drawing
      Reference.road 20 Reference.alignmentScratch [] =
      Some (sc', [] ++
                   map (fun r => inr (Spec.probedDiagnostic Reference.alignmentRule
                                         Reference.road r))
                       (Spec.runs Spec.hasObstacles [] log)) /\
    forall r T, In r (Spec.runs Spec.hasObstacles [] log) ->
      (forall x, In x (fst r) -> Spec.objectStation x == T) ->
      AlignmentRule.keyFrames
          (Spec.probedDiagnostic Reference.alignmentRule Reference.road r) =
        match fst r with
        | [] => []
        | [x] => [(fst x, Spec.objectStation x)]
        | x :: (y :: _) as rest =>
            [(fst x, Spec.objectStation x);
             (fst (List.last rest y), Spec.objectStation (List.last rest y))]
        end /\
      List.length (AlignmentRule.keyFrames
                     (Spec.probedDiagnostic Reference.alignmentRule Reference.road r)) =
        Nat.min 2 (List.length (fst r)).
Proof.
  assert (Hstep : 0 < AlignmentRule.viewPointStep Reference.alignmentRule) by reflexivity.
  assert (Hostep : 0 < AlignmentRule.objectStep Reference.alignmentRule) by reflexivity.
  assert (Hfuel : (Host.iterations (Wrapper.length Reference.road)
                     (AlignmentRule.viewPointStep Reference.alignmentRule) < 20)%nat)
    by (vm_compute; lia).
  assert (Hinner : (Host.iterations (Wrapper.length Reference.road)
                      (AlignmentRule.objectStep Reference.alignmentRule) < 20)%nat)
    by (vm_compute; lia).
  split; [exact Hstep|]. split; [exact Hostep|]. split; [exact Hfuel|].
  split; [exact Hinner|].
  exact (keyFrames_of_constant_target Reference.alignmentRule {[7%nat]} Reference.drawing
           Reference.road 20 Reference.alignmentScratch [] Hstep Hostep Hfuel Hinner).
Defined.

(** C3, as the specification states it, fails.  On the road the wall
    hides the object station 3 from the stations 0, 1 and 2: one range,
    one object station throughout, and two key frames. *)
Lemma constant_target_two_keyFrames :
  option_map
    (fun r => map (fun x => (fst x, Spec.hasObstacles x, Spec.objectStation x)) (fst r))
    (AlignmentRule.verdicts Reference.alignmentRule {[7%nat]} Reference.drawing
       Reference.road 20 20 0 Reference.alignmentScratch) =
    Some [(0, true, 3); (1, true, 3); (2, true, 3); (3, false, 5); (4, false, 5)] /\
  option_map (fun r => Spec.emittedKeyFrames (snd r))
    (AlignmentRule.scan Reference.alignmentRule {[7%nat]} Reference.drawing
       Reference.road 20 Reference.alignmentScratch []) =
    Some [[(0, 3); (2, 3)]].
Proof. split; vm_compute; reflexivity. Qed.

(** C2 on the road: the sweep along it with the wall, and the sweep
    towards the sign. *)
Lemma sweep_ranges_sound_witness :
  0 < AlignmentRule.viewPointStep Reference.alignmentRule /\
  0 < AlignmentRule.objectStep Reference.alignmentRule /\
  (Host.iterations (Wrapper.length Reference.road)
     (AlignmentRule.viewPointStep Reference.alignmentRule) < 20)%nat /\
  (Host.iterations (Wrapper.length Reference.road)
     (AlignmentRule.objectStep Reference.alignmentRule) < 20)%nat /\
  0 < ObjectsRule.viewPointStep (Reference.objectsRule 3) /\
  (Host.iterations (Wrapper.length Reference.road)
     (ObjectsRule.viewPointStep (Reference.objectsRule 3)) < 20)%nat /\
  (exists log sc' emitted,
     AlignmentRule.verdicts Reference.alignmentRule {[7%nat]} Reference.drawing
       Reference.road 20 20 0 Reference.alignmentScratch = Some (log, sc') /\
     AlignmentRule.scan Reference.alignmentRule {[7%nat]} Reference.drawing
       Reference.road 20 Reference.alignmentScratch [] =
       Some (sc', [] ++ map inr emitted) /\
     Spec.RangesSound (map (fun x => (fst x, Spec.hasObstacles x)) log)
       (map Spec.span emitted)) /\
  (exists log sc' emitted,
     ObjectsRule.verdicts (Reference.objectsRule 3) Reference.drawing Reference.sign
       Reference.road (7 # 2) 20 0 Reference.signScratch = Some (log, sc') /\
     ObjectsRule.sweep (Reference.objectsRule 3) Reference.drawing Reference.sign
       Reference.road (7 # 2) 20 Reference.signScratch [] =
       Some (sc', [] ++ map inr emitted) /\
     Spec.RangesSound (map (fun x => (fst x, Spec.obstructed x)) log)
       (map (fun d => (ObjectsRule.rangeStart d, ObjectsRule.rangeEnd d)) emitted)).
Proof.
  assert (Hstep : 0 < AlignmentRule.viewPointStep Reference.alignmentRule) by reflexivity.
  assert (Hostep : 0 < AlignmentRule.objectStep Reference.alignmentRule) by reflexivity.
  assert (Hfuel : (Host.iterations (Wrapper.length Reference.road)
                     (AlignmentRule.viewPointStep Reference.alignmentRule) < 20)%nat)
    by (vm_compute; lia).
  assert (Hinner : (Host.iterations (Wrapper.length Reference.road)
                      (AlignmentRule.objectStep Reference.alignmentRule) < 20)%nat)
    by (vm_compute; lia).
  assert (Hstep' : 0 < ObjectsRule.viewPointStep (Reference.objectsRule 3))
    by reflexivity.
  assert (Hfuel' : (Host.iterations (Wrapper.length Reference.road)
                      (ObjectsRule.viewPointStep (Reference.objectsRule 3)) < 20)%nat)
    by (vm_compute; lia).
  split; [exact Hstep|]. split; [exact Hostep|]. split; [exact Hfuel|].
  split; [exact Hinner|]. split; [exact Hstep'|]. split; [exact Hfuel'|].
  exact (sweep_ranges_sound Reference.drawing Reference.road 20
           Reference.alignmentRule {[7%nat]} Reference.alignmentScratch []
           (Reference.objectsRule 3) Reference.sign (7 # 2) Reference.signScratch []
           Hstep Hostep Hfuel Hinner Hstep' Hfuel').
Defined.

(** C2, as the specification states it, fails.  Two signs stand at one
    place beside the road: the rule for objects pushes the range
    [[1, 2]] for each of them into the array of the road, so the ranges
    of this one path are not ordered without overlap.  And on the road
    with labelled stations the record of the sweep along it prints the
    range from PK0 to PK3, while its key frames span [[0, 2]] and
    station 3, inside the printed range, had no obstacle. *)
Lemma ranges_of_one_path_overlap :
  option_map (fun messages => option_map Spec.emittedBounds (messages !! "model"%string))
    (ObjectsRule.execute (Reference.objectsRule 3) Reference.drawing 20 "model"
       [Reference.straight 4] [Reference.sign; Samples.secondSign]) =
    Some (Some [(1, 2); (1, 2)]) /\
  ~ StronglySorted (fun r1 r2 : Q * Q => snd r1 < fst r2) [(1, 2); (1, 2)] /\
  option_map
    (fun r => flat_map (fun e => match e with
                                 | inr d => [(Host.args (Host.message
                                                (AlignmentRule.diagnostic d)),
                                              Spec.span d)]
                                 | inl _ => []
                                 end) (snd r))
    (AlignmentRule.scan Reference.alignmentRule {[7%nat]} Reference.drawing
       (Wrapper.new Samples.labelled Wrapper.FORWARD) 20 Reference.alignmentScratch []) =
    Some [(["PK0"; "PK3"]%string, (0, 2))] /\
  option_map (fun r => map (fun x => (fst x, Spec.hasObstacles x)) (fst r))
    (AlignmentRule.verdicts Reference.alignmentRule {[7%nat]} Reference.drawing
       (Wrapper.new Samples.labelled Wrapper.FORWARD) 20 20 0
       Reference.alignmentScratch) =
    Some [(0, true); (1, true); (2, true); (3, false); (4, false)].
Proof.
  split; [vm_compute; reflexivity|]. split; [|split; vm_compute; reflexivity].
  intros Hs. inversion Hs as [|? ? _ Hall]; subst.
  inversion Hall as [|? ? Hlt _]; subst. vm_compute in Hlt. discriminate.
Qed.

End RoadScan.

(** * Further facts *)

(** ** utils/binarySearch.ts, on any array *)

Section SearchAnyArray.
Import Js BinarySearch.
Context {T : Type}.
Variable arr : list T.
Variable t : T.
Variable cmp : T -> T -> Q.

(** Without any order on the array the loop still ends inside it. *)
Lemma loop_inside (s e : Z) :
  (Z.of_nat (List.length arr) < 2 ^ 31)%Z ->
  (0 <= s)%Z -> (e < Z.of_nat (List.length arr))%Z -> (s <= e + 1)%Z ->
  exists r, loop arr t cmp s e = Some r /\
    ((exists x, item arr r = Some x /\ cmp t x == 0) \/
     (exists p, r = bitnot p /\ (s <= p <= e + 1)%Z)).
Proof.
  intros Hlen. funelim (loop arr t cmp s e); intros Hs He Hse.
  - eexists; split; [reflexivity|]. right. exists startIndex. split; [reflexivity|lia].
  - exfalso. lia.
  - exfalso. pose proof (mid_bounds startIndex endIndex ltac:(lia)) as Hm.
    destruct (item_Some arr (startIndex + sar (endIndex - startIndex) 1))
      as [x Hx]; [lia|]. congruence.
  - eexists; split; [reflexivity|]. left. exists midElement. split; [assumption|].
    now apply eqb_eq.
  - pose proof (mid_bounds startIndex endIndex ltac:(lia)) as Hm.
    match goal with
    | IH : _ -> _ -> _ -> _ -> exists _, _ |- _ =>
        destruct IH as (r & Hr & Hcase); [assumption|lia..|]
    end.
    exists r. split; [assumption|].
    destruct Hcase as [?|(p & -> & Hp)]; [now left|right]. exists p. split; [reflexivity|lia].
  - pose proof (mid_bounds startIndex endIndex ltac:(lia)) as Hm.
    match goal with
    | IH : _ -> _ -> _ -> _ -> exists _, _ |- _ =>
        destruct IH as (r & Hr & Hcase); [assumption|lia..|]
    end.
    exists r. split; [assumption|].
    destruct Hcase as [?|(p & -> & Hp)]; [now left|right]. exists p. split; [reflexivity|lia].
Qed.

End SearchAnyArray.

(** X1.  On any array shorter than 2^31, sorted or not, [binarySearch]
    returns: either an index inside the array whose element compares
    equal to the target, or the complement [~p] of a position [p]
    between 0 and the length, which is negative and from which [~] gives
    [p] back. *)
Theorem binarySearch_inside {T : Type} (arr : list T) (t : T) (cmp : T -> T -> Q) :
  (Z.of_nat (List.length arr) < 2 ^ 31)%Z ->
  exists r, BinarySearch.binarySearch arr t cmp = Some r /\
    (((0 <= r < Z.of_nat (List.length arr))%Z /\
      exists x, Js.item arr r = Some x /\ cmp t x == 0) \/
     (exists p, (0 <= p <= Z.of_nat (List.length arr))%Z /\
        r = (- p - 1)%Z /\ Js.bitnot r = p)).
Proof.
  intros Hlen.
  destruct (loop_inside arr t cmp 0 (Z.of_nat (List.length arr) - 1) Hlen)
    as (r & Hr & Hcase); try lia.
  exists r. split; [exact Hr|].
  destruct Hcase as [(x & Hx & Hzero)|(p & -> & Hp)].
  - left. split; [exact (item_range arr r x Hx)|]. eauto.
  - right. exists p. destruct (bitnot_small p ltac:(lia)) as [Hneg Hback].
    split; [lia|]. split; [assumption|]. now rewrite Hneg in *.
Qed.

Lemma binarySearch_inside_witness :
  (Z.of_nat (List.length [5; 1; 3]) < 2 ^ 31)%Z /\
  exists r, BinarySearch.binarySearch [5; 1; 3] 3 (fun a b => a - b) = Some r /\
    (((0 <= r < Z.of_nat (List.length [5; 1; 3]))%Z /\
      exists x, Js.item [5; 1; 3] r = Some x /\ 3 - x == 0) \/
     (exists p, (0 <= p <= Z.of_nat (List.length [5; 1; 3]))%Z /\
        r = (- p - 1)%Z /\ Js.bitnot r = p)).
Proof.
  assert (Hlen : (Z.of_nat (List.length [5; 1; 3]) < 2 ^ 31)%Z) by (simpl; lia).
  split; [exact Hlen|].
  exact (binarySearch_inside [5; 1; 3] 3 (fun a b => a - b) Hlen).
Defined.

(** ** rules/alignmentWrapper.ts, both directions *)

(** X2.  If the alignment of the host hands back with [fromWCS], up to
    equality of numbers, the station and the offset its [toWCS] was
    given, then so does the forward wrapper; and the backward wrapper
    hands back the offset, and as station [length - (length - s)]: the
    station mirrored twice, each time by one subtraction from the
    length. *)
Theorem wrapper_round_trip (a : Host.DwgAlignment)
    (target1 target2 : Math3d.vec2) (s o : Q) :
  (forall t1 t2 p, Laws.vec2_eq (Host.fromWCS a t1 (Host.toWCS a t2 p)) p) ->
  Laws.vec2_eq
    (Wrapper.fromWCS (Wrapper.new a Wrapper.FORWARD) target1
       (Wrapper.toWCS (Wrapper.new a Wrapper.FORWARD) target2 (s, o)))
    (s, o) /\
  Laws.vec2_eq
    (Wrapper.fromWCS (Wrapper.new a Wrapper.BACKWARD) target1
       (Wrapper.toWCS (Wrapper.new a Wrapper.BACKWARD) target2 (s, o)))
    (Host.length a - (Host.length a - s), o).
Proof.
  intros Hhost. split; [apply Hhost|].
  destruct (Hhost target1 target2 (Host.length a - s, - o)) as (Hs & Ho).
  unfold Laws.vec2_eq. cbn in *. split.
  - now rewrite Hs.
  - rewrite Ho. ring.
Qed.

Lemma wrapper_round_trip_witness :
  (forall t1 t2 p,
     Laws.vec2_eq
       (Host.fromWCS (Reference.straight 4) t1 (Host.toWCS (Reference.straight 4) t2 p))
       p) /\
  Laws.vec2_eq
    (Wrapper.fromWCS (Wrapper.new (Reference.straight 4) Wrapper.FORWARD) (0, 0)
       (Wrapper.toWCS (Wrapper.new (Reference.straight 4) Wrapper.FORWARD) (0, 0) (1, 2)))
    (1, 2) /\
  Laws.vec2_eq
    (Wrapper.fromWCS (Wrapper.new (Reference.straight 4) Wrapper.BACKWARD) (0, 0)
       (Wrapper.toWCS (Wrapper.new (Reference.straight 4) Wrapper.BACKWARD) (0, 0) (1, 2)))
    (Host.length (Reference.straight 4) - (Host.length (Reference.straight 4) - 1), 2).
Proof.
  assert (Hhost : forall t1 t2 p,
    Laws.vec2_eq
      (Host.fromWCS (Reference.straight 4) t1 (Host.toWCS (Reference.straight 4) t2 p)) p).
  { intros t1 t2 p. split; reflexivity. }
  split; [exact Hhost|].
  exact (wrapper_round_trip (Reference.straight 4) (0, 0) (0, 0) 1 2 Hhost).
Defined.

(** ** utils/frustum.ts, the whole of [intersectSegment] *)

Section FrustumCases.
Import Js Math3d Frustum.
Context `{Ops}.

(** X3.  [intersectSegment] accepts in exactly two cases: the segment is
    shorter than 1e-3 and its first point is in the volume; or the
    segment is at least that long, the parameter of its point nearest to
    the centre line is not positive, and that point is in the volume.
    So for a segment of length 1e-3 or more the only points ever tested
    lie at or before its first point. *)
Theorem intersectSegment_cases (this : SegmentFrustum) (a b : vec3) :
  intersectSegment this a b = true <->
    (Spec.segmentLength a b < (1 # 1000) /\ containsPoint this a = true) \/
    ((1 # 1000) <= Spec.segmentLength a b /\
     Spec.closestParameter this a b <= 0 /\
     containsPoint this
       (ray3_at (Spec.segmentRay a b) (Spec.closestParameter this a b)) = true).
Proof.
  unfold intersectSegment.
  fold (Spec.segmentLength a b). fold (Spec.segmentRay a b).
  fold (Spec.closestParameter this a b). unfold EPS.
  generalize (containsPoint this a)
    (containsPoint this (ray3_at (Spec.segmentRay a b) (Spec.closestParameter this a b)))
    (Spec.segmentLength a b) (Spec.closestParameter this a b).
  intros ca ct l t.
  destruct (ltb l (1 # 1000)) eqn:El; [apply ltb_lt in El | apply ltb_ge in El].
  - split; [intros ->; left; split; [assumption|reflexivity]|].
    intros [[_ ?]|[? _]]; [assumption|lra].
  - destruct (ltb 0 t) eqn:E0; [apply ltb_lt in E0 | apply ltb_ge in E0]; cbn [orb].
    + split; [discriminate|]. intros [[? _]|(_ & ? & _)]; lra.
    + destruct (ltb l t) eqn:E1; [apply ltb_lt in E1; lra | apply ltb_ge in E1].
      split; [intros ->; right; repeat split; assumption|].
      intros [[? _]|(_ & _ & ?)]; [lra|assumption].
Qed.

End FrustumCases.

(** ** utils/intersect.ts, triangles and models *)

Section TriangleSides.
Import Js Math3d Intersect.
Context `{Ops}.

(** Exchanging two corners of the triangle negates the determinant. *)
Lemma determinant_flipped (sa sb ta tb tc : vec3) :
  Spec.determinant sa sb ta tc tb == - Spec.determinant sa sb ta tb tc.
Proof.
  unfold Spec.determinant, Spec.normal.
  destruct (Spec.unit sa sb) as [[ux uy] uz].
  destruct ta as [[ta0 ta1] ta2], tb as [[tb0 tb1] tb2], tc as [[tc0 tc1] tc2].
  cbn. ring.
Qed.

(** X4.  The intersector is one-sided: a triangle that is hit is not hit
    by the same segment once two of its corners are exchanged, that is,
    when it is seen from behind. *)
Theorem segmentIntersectsTriangle_one_sided (sa sb ta tb tc : vec3) :
  segmentIntersectsTriangle sa sb ta tb tc = true ->
  segmentIntersectsTriangle sa sb ta tc tb = false.
Proof.
  rewrite !segmentIntersectsTriangle_guards.
  pose proof (determinant_flipped sa sb ta tb tc) as Hflip. unfold EPS in *.
  destruct (ltb (Spec.lengthSquared sa sb) EPS2); [discriminate|].
  destruct (ltb (Spec.determinant sa sb ta tb tc) (1 # 1000)) eqn:E; [discriminate|].
  apply ltb_ge in E. intros _.
  assert (Hlt : Spec.determinant sa sb ta tc tb < 1 # 1000) by lra.
  apply ltb_lt in Hlt. now rewrite Hlt.
Qed.

Lemma lengthSquared_same (v : vec3) : Spec.lengthSquared v v == 0.
Proof. destruct v as [[x y] z]. unfold Spec.lengthSquared. cbn. ring. Qed.

(** The callback of [walkSegment] either keeps a hit or tests the
    triangle. *)
Lemma visitTriangle_or (vertices : list Q) (indices : list nat) (a b : vec3)
    (intersects : bool) (triangle : nat) :
  visitTriangle vertices indices a b intersects triangle =
    intersects || Laws.triangleHit vertices indices a b triangle.
Proof. now destruct intersects. Qed.

Lemma fold_visitTriangle (vertices : list Q) (indices : list nat) (a b : vec3)
    (triangles : list nat) (intersects : bool) :
  fold_left (visitTriangle vertices indices a b) triangles intersects =
    intersects || existsb (Laws.triangleHit vertices indices a b) triangles.
Proof.
  revert intersects. induction triangles as [|t rest IH]; intros intersects; cbn [fold_left existsb].
  - now rewrite orb_false_r.
  - now rewrite IH, visitTriangle_or, orb_assoc.
Qed.

(** The loop over the meshes is the disjunction of [meshHit]. *)
Lemma meshesIntersect_existsb (meshes : list Dwg.Mesh) (a b : vec3) :
  meshesIntersect meshes a b = existsb (Laws.meshHit a b) meshes.
Proof.
  induction meshes as [|mesh rest IH]; [reflexivity|].
  cbn [meshesIntersect existsb]. unfold Laws.meshHit at 1.
  destruct (Dwg.geometry mesh) as [g|]; [|exact IH].
  destruct (Dwg.spatial g) as [sp|]; [|exact IH].
  rewrite fold_visitTriangle. cbn [orb].
  now destruct (existsb _ (Dwg.walkSegment sp a b)).
Qed.

(** A segment from a point to itself hits no triangle, whether or not
    the corners of the triangle can be read. *)
Lemma triangleHit_same (vertices : list Q) (indices : list nat) (v : vec3) (triangle : nat) :
  Laws.triangleHit vertices indices v v triangle = false.
Proof.
  assert (Hshort : ltb (Spec.lengthSquared v v) EPS2 = true).
  { apply ltb_lt. rewrite lengthSquared_same. reflexivity. }
  unfold Laws.triangleHit, visitTriangle.
  repeat match goal with
  | |- context [match ?x with Some _ => _ | None => _ end] => destruct x
  end;
  first [ rewrite segmentIntersectsTriangle_guards; now rewrite Hshort
        | fold (Spec.lengthSquared v v); now rewrite Hshort ].
Qed.

End TriangleSides.

Section TriangleSidesWitness.
#[local] Existing Instance Reference.ops.

Lemma segmentIntersectsTriangle_one_sided_witness :
  let sa : Math3d.vec3 := (0, 0, 1) in
  let sb : Math3d.vec3 := (7 # 2, 0, 1) in
  let ta : Math3d.vec3 := (5 # 2, -10, -10) in
  let tb : Math3d.vec3 := (5 # 2, 0, 20) in
  let tc : Math3d.vec3 := (5 # 2, 10, -10) in
  Intersect.segmentIntersectsTriangle sa sb ta tb tc = true /\
  Intersect.segmentIntersectsTriangle sa sb ta tc tb = false.
Proof.
  intros sa sb ta tb tc.
  assert (Hhit : Intersect.segmentIntersectsTriangle sa sb ta tb tc = true)
    by (vm_compute; reflexivity).
  split; [exact Hhit|].
  exact (segmentIntersectsTriangle_one_sided sa sb ta tb tc Hhit).
Defined.

End TriangleSidesWitness.

Section ModelHits.
Import Js Math3d Dwg Intersect.
Context `{Ops}.

(** X5.  [modelIntersectsSegment] answers [true] exactly when some mesh
    of the model that has a geometry with a triangle index contains a
    triangle, among those the index offers for the segment taken to model
    space, that the triangle test accepts: stopping at the first hit
    changes nothing, and a model without such a mesh is never hit. *)
Theorem modelIntersectsSegment_exists (model : DwgObject) (inverse : mat4) (a b : vec3) :
  modelIntersectsSegment model inverse a b = true <->
    exists mesh g sp triangle,
      In mesh (meshes model) /\ geometry mesh = Some g /\ spatial g = Some sp /\
      In triangle (walkSegment sp (mat4_mulv3 inverse a) (mat4_mulv3 inverse b)) /\
      Laws.triangleHit (vertices g) (indices g)
        (mat4_mulv3 inverse a) (mat4_mulv3 inverse b) triangle = true.
Proof.
  unfold modelIntersectsSegment. rewrite meshesIntersect_existsb, existsb_exists.
  split.
  - intros (mesh & Hin & Hhit). unfold Laws.meshHit in Hhit.
    destruct (geometry mesh) as [g|] eqn:Eg; [|discriminate].
    destruct (spatial g) as [sp|] eqn:Es; [|discriminate].
    apply existsb_exists in Hhit. destruct Hhit as (triangle & Ht & Hhit).
    exists mesh, g, sp, triangle. auto.
  - intros (mesh & g & sp & triangle & Hin & Eg & Es & Ht & Hhit).
    exists mesh. split; [assumption|]. unfold Laws.meshHit. rewrite Eg, Es.
    apply existsb_exists. eauto.
Qed.

(** X6.  A sight line from a point to itself intersects no model: the
    guard on the squared length rejects every triangle, also one whose
    corners cannot be read. *)
Theorem modelIntersectsSegment_point (model : DwgObject) (inverse : mat4) (a : vec3) :
  modelIntersectsSegment model inverse a a = false.
Proof.
  unfold modelIntersectsSegment. rewrite meshesIntersect_existsb.
  apply not_true_iff_false. intros Hhit. apply existsb_exists in Hhit.
  destruct Hhit as (mesh & _ & Hhit). unfold Laws.meshHit in Hhit.
  destruct (geometry mesh) as [g|]; [|discriminate].
  destruct (spatial g) as [sp|]; [|discriminate].
  apply existsb_exists in Hhit. destruct Hhit as (triangle & _ & Hhit).
  now rewrite triangleHit_same in Hhit.
Qed.

Lemma existsb_permutation {X : Type} (f : X -> bool) (l l' : list X) :
  Permutation l l' -> existsb f l = existsb f l'.
Proof.
  induction 1 as [|x l l' _ IH|x y l|l l' l'' _ IH1 _ IH2]; cbn [existsb].
  - reflexivity.
  - now rewrite IH.
  - now rewrite !orb_assoc, (orb_comm (f y) (f x)).
  - now rewrite IH1.
Qed.

(** X7.  The answer of [modelIntersectsSegment] does not depend on the
    order in which the meshes of the model are enumerated. *)
Theorem modelIntersectsSegment_mesh_order (model model' : DwgObject) (inverse : mat4)
    (a b : vec3) :
  Permutation (meshes model) (meshes model') ->
  modelIntersectsSegment model inverse a b = modelIntersectsSegment model' inverse a b.
Proof.
  intros Hperm. unfold modelIntersectsSegment. rewrite !meshesIntersect_existsb.
  now apply existsb_permutation.
Qed.

End ModelHits.

(** ** The cache of inverse matrices *)

Section CacheFacts.
Import Math3d Dwg Intersect Host.
Context `{Ops}.

(** What [drain] keeps comes from the candidates. *)
Lemma drain_candidates
    (predicate : InverseMatrices -> DwgObject -> bool * InverseMatrices)
    (candidates : list DwgObject) (cache : InverseMatrices) :
  Forall (fun f => In f candidates) (fst (drain predicate candidates cache)).
Proof.
  revert cache. induction candidates as [|obj rest IH]; intros cache; simpl; [constructor|].
  destruct (predicate cache obj) as [keep cache1].
  specialize (IH cache1). destruct (drain predicate rest cache1) as [found cache2].
  simpl in *.
  assert (Hrest : Forall (fun f => obj = f \/ In f rest) found).
  { eapply List.Forall_impl; [|exact IH]. intros f Hf. now right. }
  destruct keep; [constructor; [now left|assumption]|assumption].
Qed.

(** A coherent cache stays coherent when the inverse of one of the
    objects is stored. *)
Lemma inverseOf_keeps_coherent (objects : list DwgObject) (cache : InverseMatrices)
    (obj : DwgObject) :
  Laws.oneMatrix objects -> In obj objects -> Laws.coherent cache objects ->
  fst (inverseOf cache obj) = mat4_inverse (matrix obj) /\
  Laws.coherent (snd (inverseOf cache obj)) objects.
Proof.
  intros Hone Hobj Hc. split; [apply inverseOf_coherent; intros m; now apply Hc|].
  unfold inverseOf. destruct (cache !! oid obj) as [m|] eqn:E; [exact Hc|].
  cbn [snd]. intros x m Hx. unfold InverseMatrices in *.
  destruct (decide (oid x = oid obj)) as [Heq|Hne].
  - rewrite Heq, lookup_insert_eq. intros [= <-]. now rewrite (Hone x obj Hx Hobj Heq).
  - rewrite lookup_insert_ne by congruence. now apply Hc.
Qed.

(** Draining with a predicate that answers as a test on the object
    alone whenever the cache is coherent, and keeps it coherent, is
    filtering with that test. *)
Lemma drain_filter
    (predicate : InverseMatrices -> DwgObject -> bool * InverseMatrices)
    (test : DwgObject -> bool) (objects : list DwgObject) :
  (forall cache obj, In obj objects -> Laws.coherent cache objects ->
     fst (predicate cache obj) = test obj /\
     Laws.coherent (snd (predicate cache obj)) objects) ->
  forall candidates cache,
    (forall obj, In obj candidates -> In obj objects) ->
    Laws.coherent cache objects ->
    fst (drain predicate candidates cache) = List.filter test candidates /\
    Laws.coherent (snd (drain predicate candidates cache)) objects.
Proof.
  intros Hp. induction candidates as [|obj rest IH]; intros cache Hin Hc; simpl.
  - now split.
  - destruct (Hp cache obj (Hin obj ltac:(now left)) Hc) as (Ht & Hc1).
    destruct (predicate cache obj) as [keep cache1]. cbn [fst snd] in *.
    destruct (IH cache1 ltac:(intros o Ho; apply Hin; now right) Hc1) as (Hf & Hc2).
    destruct (drain predicate rest cache1) as [found cache2]. cbn [fst snd] in *.
    rewrite <- Ht, <- Hf. now split.
Qed.

Lemma objects_predicate_test (object : DwgObject) (viewPoint objectCenter : vec3)
    (objects : list DwgObject) (cache : InverseMatrices) (obj : DwgObject) :
  Laws.oneMatrix objects -> In obj objects -> Laws.coherent cache objects ->
  fst (ObjectsRule.predicate object viewPoint objectCenter cache obj) =
    Laws.objectsTest object viewPoint objectCenter obj /\
  Laws.coherent (snd (ObjectsRule.predicate object viewPoint objectCenter cache obj)) objects.
Proof.
  intros Hone Hobj Hc. unfold ObjectsRule.predicate, Laws.objectsTest.
  destruct (Nat.eqb (oid obj) (oid object) || negb (DwgType_eqb (type obj) model3d));
    [now split|].
  destruct (inverseOf_keeps_coherent objects cache obj Hone Hobj Hc) as (Hi & Hc').
  destruct (inverseOf cache obj) as [inverse cache']. cbn [fst snd negb andb] in *.
  now rewrite Hi.
Qed.

Lemma alignment_predicate_test (obstacleLayers : gset nat) (viewPoint objectPoint : vec3)
    (objects : list DwgObject) (cache : InverseMatrices) (obj : DwgObject) :
  Laws.oneMatrix objects -> In obj objects -> Laws.coherent cache objects ->
  fst (AlignmentRule.predicate obstacleLayers viewPoint objectPoint cache obj) =
    Laws.alignmentTest obstacleLayers viewPoint objectPoint obj /\
  Laws.coherent
    (snd (AlignmentRule.predicate obstacleLayers viewPoint objectPoint cache obj)) objects.
Proof.
  intros Hone Hobj Hc. unfold AlignmentRule.predicate, Laws.alignmentTest.
  destruct (negb (DwgType_eqb (type obj) model3d)
            || negb (AlignmentRule.onObstacleLayer obstacleLayers obj)); [now split|].
  destruct (inverseOf_keeps_coherent objects cache obj Hone Hobj Hc) as (Hi & Hc').
  destruct (inverseOf cache obj) as [inverse cache']. cbn [fst snd negb andb] in *.
  now rewrite Hi.
Qed.

(** X8.  The cache of inverse matrices changes no answer.  When objects
    with one identity have one matrix and every entry of the cache is
    the inverse of the matrix of its object, what either sweep draws from
    the drawing layer is the list of candidates filtered, in order, by a
    test on the candidate alone, computed with the inverse of its own
    matrix; and the cache left behind is again of that kind. *)
Theorem cache_changes_no_answer (object : DwgObject) (obstacleLayers : gset nat)
    (viewPoint target : vec3) (candidates : list DwgObject) (cache : InverseMatrices) :
  Laws.oneMatrix candidates -> Laws.coherent cache candidates ->
  (fst (drain (ObjectsRule.predicate object viewPoint target) candidates cache) =
     List.filter (Laws.objectsTest object viewPoint target) candidates /\
   Laws.coherent
     (snd (drain (ObjectsRule.predicate object viewPoint target) candidates cache))
     candidates) /\
  (fst (drain (AlignmentRule.predicate obstacleLayers viewPoint target) candidates cache) =
     List.filter (Laws.alignmentTest obstacleLayers viewPoint target) candidates /\
   Laws.coherent
     (snd (drain (AlignmentRule.predicate obstacleLayers viewPoint target) candidates cache))
     candidates).
Proof.
  intros Hone Hc. split.
  - apply (drain_filter _ _ candidates); [|auto|assumption].
    intros c o Ho Hco. now apply objects_predicate_test.
  - apply (drain_filter _ _ candidates); [|auto|assumption].
    intros c o Ho Hco. now apply alignment_predicate_test.
Qed.

End CacheFacts.

(** ** rules/alignment.ts: the inner loop and the key frames *)

Section AlignmentInner.
Import Math3d Dwg Host AlignmentRule.
Context `{Ops}.
Variable rule : AlignmentVisibilityRule.
Variable obstacleLayers : gset nat.
Variable selectableObjects : Frustum.SegmentFrustum -> list DwgObject.
Variable this : Wrapper.AlignmentWrapper.

#[local] Abbreviation length := (Wrapper.length this).
#[local] Abbreviation findObstacles :=
  (findObstacles rule obstacleLayers selectableObjects this).
#[local] Abbreviation look := (look rule obstacleLayers selectableObjects this).
#[local] Abbreviation verdicts := (verdicts rule obstacleLayers selectableObjects this).

(** An obstacle of the sweep along the alignment: a 3D model on an
    obstacle layer that the drawing layer offered for some frustum. *)
#[local] Abbreviation offered :=
  (fun f : DwgObject =>
     (exists frustum, In f (selectableObjects frustum)) /\
     type f = model3d /\ onObstacleLayer obstacleLayers f = true).

(** Where the inner loop stops. *)
Lemma findObstacles_reach (fuel : nat) (objectStation : Q) (S : gset nat) (sc : Scratch)
    (hasObstacles : bool) (reached : Q) (found : gset nat) (sc' : Scratch) :
  0 < objectStep rule ->
  findObstacles fuel objectStation S sc = Some (hasObstacles, reached, found, sc') ->
  objectStation <= reached /\ viewPoint sc' = viewPoint sc /\
  (hasObstacles = true ->
     reached <= length /\
     vec3_len (vec3_sub (objectPoint sc') (viewPoint sc)) <= viewDistance rule /\
     exists obstacles, obstacles <> [] /\
       found = S ∪ list_to_set (oid <$> obstacles) /\ Forall offered obstacles) /\
  (hasObstacles = false ->
     found = S /\
     (length < reached \/
      viewDistance rule < vec3_len (vec3_sub (objectPoint sc') (viewPoint sc)))).
Proof.
  intros Hstep. revert objectStation sc. induction fuel as [|fuel IH];
    intros objectStation sc; [discriminate|].
  cbn [AlignmentRule.findObstacles].
  destruct (Js.leb objectStation length) eqn:El; [apply leb_le in El|apply leb_gt in El].
  2: { intros [= <- <- <- <-]. split; [lra|]. split; [reflexivity|].
       split; [discriminate|]. intros _. split; [reflexivity|now left]. }
  match goal with
  | |- context [Js.ltb (viewDistance rule) (vec3_len (vec3_sub ?p _))] =>
      set (objectPoint' := p)
  end.
  destruct (Js.ltb (viewDistance rule) (vec3_len (vec3_sub objectPoint' (viewPoint sc))))
    eqn:Ed; [apply ltb_lt in Ed|apply ltb_ge in Ed].
  { intros [= <- <- <- <-]. cbn [viewPoint objectPoint]. split; [lra|].
    split; [reflexivity|]. split; [discriminate|]. intros _. split; [reflexivity|now right]. }
  match goal with
  | |- context [drain ?p ?c ?m] =>
      pose proof (drain_accepted p
                    (fun f => type f = model3d /\ onObstacleLayer obstacleLayers f = true)
                    ltac:(intros c0 o Ho; apply alignment_predicate_iff in Ho; tauto)
                    c m) as Hd;
      pose proof (drain_candidates p c m) as Hc;
      destruct (drain p c m) as [obstacles cache]
  end.
  cbn [fst] in Hd, Hc. destruct obstacles as [|f rest].
  - intros E. destruct (IH _ _ E) as (Hge & Hvp & Ht & Hf). cbn [viewPoint] in *.
    split; [lra|]. split; [assumption|]. split; assumption.
  - intros [= <- <- <- <-]. cbn [viewPoint objectPoint]. split; [lra|].
    split; [reflexivity|]. split; [|discriminate]. intros _. split; [assumption|].
    split; [assumption|]. exists (f :: rest). split; [discriminate|].
    split; [reflexivity|].
    rewrite List.Forall_forall in *. intros g Hg. split; [eauto|]. now apply Hd.
Qed.

(** What the log of the sweep holds at a station with an obstacle. *)
Lemma probes_reach (inner fuel : nat) (station : Q) (sc sc' : Scratch)
    (log : list Spec.Probe) :
  0 < objectStep rule -> verdicts inner fuel station sc = Some (log, sc') ->
  Forall (fun x => fst x <= length /\
            (Spec.hasObstacles x = true ->
               fst x + objectStep rule <= Spec.objectStation x /\
               Spec.objectStation x <= length /\
               exists obstacles, obstacles <> [] /\
                 Spec.found x = list_to_set (oid <$> obstacles) /\
                 Forall offered obstacles)) log.
Proof.
  intros Hstep. revert station sc sc' log. induction fuel as [|fuel IH];
    intros station sc sc' log; [discriminate|].
  cbn [AlignmentRule.verdicts].
  destruct (Js.leb station length) eqn:El; [apply leb_le in El|intros [= <- _]; constructor].
  destruct (look inner station ∅ sc) as [[[[hasObstacles reached] found] sc1]|] eqn:Elook;
    [rewrite bind_some|rewrite bind_none; discriminate].
  destruct (verdicts inner fuel (station + viewPointStep rule) sc1) as [[rest sc2]|] eqn:E;
    [rewrite bind_some|rewrite bind_none; discriminate].
  intros [= <- _]. constructor; [|exact (IH _ _ _ _ E)].
  unfold Spec.hasObstacles, Spec.objectStation, Spec.found. cbn [fst snd].
  split; [assumption|]. intros ->.
  destruct (findObstacles_reach _ _ _ _ _ _ _ _ Hstep Elook) as (Hge & _ & Ht & _).
  destruct (Ht eq_refl) as (Hle & _ & obstacles & Hne & Hfound & Hall).
  split; [assumption|]. split; [assumption|].
  exists obstacles. split; [assumption|]. split; [|assumption].
  now rewrite Hfound, union_empty_l_L.
Qed.

End AlignmentInner.

Section KeyFrameOrder.
Import AlignmentRule.
#[local] Abbreviation KeyFrame := AlignmentVisibilityDiagnosticKeyFrame.
#[local] Abbreviation increasing :=
  (StronglySorted (fun a b : Q * Q => fst a < fst b)).

Lemma increasing_snoc (l : list (Q * Q)) (y : Q * Q) :
  increasing l -> (forall k, In k l -> fst k < fst y) -> increasing (l ++ [y]).
Proof.
  induction 1 as [|x l Hs IH Hx]; intros Hy; simpl.
  - repeat constructor.
  - constructor; [apply IH; intros k Hk; apply Hy; now right|].
    apply List.Forall_app. split; [assumption|].
    constructor; [apply Hy; now left|constructor].
Qed.

(** A key frame added at a station beyond those of the range keeps the
    stations of the key frames increasing; each key frame kept was there
    before. *)
Lemma addKeyFrame_increasing (kfs : list KeyFrame) (s o : Q) :
  increasing kfs -> (forall k, In k kfs -> fst k < s) ->
  increasing (addKeyFrame kfs s o) /\
  forall k, In k (addKeyFrame kfs s o) -> In k kfs \/ k = (s, o).
Proof.
  intros Hs Hlt. unfold AlignmentVisibilityDiagnosticKeyFrame in *.
  destruct (addKeyFrame_cases kfs s o) as [->|(front & p & l & Hk & ->)].
  - split; [now apply increasing_snoc|].
    intros k Hk. apply in_app_or in Hk as [Hk|[<-|[]]]; auto.
  - assert (Hfront : forall k, In k (front ++ [p]) -> In k kfs).
    { intros k Hin. rewrite Hk. apply in_or_app. now left. }
    split.
    + apply increasing_snoc; [|intros k Hin; apply Hlt; auto].
      rewrite Hk in Hs. now apply ascending_app in Hs as (Hs & _).
    + intros k Hin. apply in_app_or in Hin as [Hin|[<-|[]]]; auto.
Qed.

Lemma keyFrames_increasing (rest : list Spec.Probe) (kfs : list KeyFrame) :
  increasing kfs ->
  StronglySorted (fun x y : Spec.Probe => fst x < fst y) rest ->
  (forall k x, In k kfs -> In x rest -> fst k < fst x) ->
  let result :=
    fold_left (fun kfs x => addKeyFrame kfs (fst x) (Spec.objectStation x)) rest kfs in
  increasing result /\
  forall k, In k result ->
    In k kfs \/ exists x, In x rest /\ k = (fst x, Spec.objectStation x).
Proof.
  revert kfs. induction rest as [|x rest IH]; intros kfs Hs Hrest Hlt; cbn [fold_left].
  - split; [assumption|auto].
  - inversion Hrest as [|? ? Hrest' Hx]; subst. rewrite List.Forall_forall in Hx.
    destruct (addKeyFrame_increasing kfs (fst x) (Spec.objectStation x) Hs
                ltac:(intros k Hk; apply Hlt; [assumption|now left])) as (Hs1 & Hin1).
    destruct (IH (addKeyFrame kfs (fst x) (Spec.objectStation x)) Hs1 Hrest') as (Hs2 & Hin2).
    { intros k y Hk Hy. destruct (Hin1 k Hk) as [Hk'| ->].
      - apply Hlt; [assumption|now right].
      - cbn [fst]. now apply Hx. }
    split; [assumption|]. intros k Hk.
    destruct (Hin2 k Hk) as [Hk'|(y & Hy & ->)].
    + destruct (Hin1 k Hk') as [?| ->]; [now left|]. right. exists x. split; [now left|reflexivity].
    + right. exists y. split; [now right|reflexivity].
Qed.

(** The key frames of a run of ascending stations: their stations
    increase, and each pairs a station of the run with the object
    station recorded there. *)
Lemma keyFramesOf_increasing (run : list Spec.Probe) :
  StronglySorted (fun x y : Spec.Probe => fst x < fst y) run ->
  increasing (Spec.keyFramesOf run) /\
  forall k, In k (Spec.keyFramesOf run) ->
    exists x, In x run /\ k = (fst x, Spec.objectStation x).
Proof.
  intros Hrun. unfold Spec.keyFramesOf.
  destruct (keyFrames_increasing run [] ltac:(constructor) Hrun ltac:(intros k x []))
    as (Hs & Hin).
  split; [assumption|]. intros k Hk. destruct (Hin k Hk) as [[]|?]. assumption.
Qed.

End KeyFrameOrder.

Section AlignmentDiagnostics.
Import Math3d Dwg Host AlignmentRule.
Context `{Ops}.
Variable rule : AlignmentVisibilityRule.
Variable obstacleLayers : gset nat.
Variable selectableObjects : Frustum.SegmentFrustum -> list DwgObject.
Variable this : Wrapper.AlignmentWrapper.

Lemma foundOver_elem (run : list Spec.Probe) (o : nat) :
  o ∈ Spec.foundOver run <-> exists x, In x run /\ o ∈ Spec.found x.
Proof.
  unfold Spec.foundOver.
  assert (Hgen : forall acc : gset nat,
            o ∈ fold_left (fun (acc : gset nat) (x : Spec.Probe) => acc ∪ Spec.found x)
                  run acc <->
            o ∈ acc \/ exists x, In x run /\ o ∈ Spec.found x).
  { induction run as [|y run IH]; intros acc; simpl.
    - split; [auto|]. intros [?|(x & [] & _)]. assumption.
    - rewrite IH, elem_of_union. split.
      + intros [[?|?]|(x & Hx & Ho)]; [now left|right..]; eauto.
      + intros [?|(x & [<-|Hx] & Ho)]; [now left; left|now left; right|right; eauto]. }
  rewrite Hgen. split; [intros [Hin|?]; [|assumption]|auto].
  now apply not_elem_of_empty in Hin.
Qed.

(** The diagnostics of one alignment are those of runs whose stations
    all carry what the log says of a station with an obstacle. *)
Lemma scan_emits (P : Spec.Probe -> Prop) (fuel : nat) (sc : Scratch)
    (collection : list Entry) :
  0 < viewPointStep rule -> 0 < objectStep rule ->
  (iterations (Wrapper.length this) (viewPointStep rule) < fuel)%nat ->
  (iterations (Wrapper.length this) (objectStep rule) < fuel)%nat ->
  (forall log sc',
     verdicts rule obstacleLayers selectableObjects this fuel fuel 0 sc = Some (log, sc') ->
     Forall (fun x => Spec.hasObstacles x = true -> P x) log) ->
  exists sc' runs,
    scan rule obstacleLayers selectableObjects this fuel sc collection =
      Some (sc', collection ++ map inr (map (Spec.probedDiagnostic rule this) runs)) /\
    Forall (fun r : list Spec.Probe * option Spec.Probe =>
              fst r <> [] /\
              StronglySorted (fun x y : Spec.Probe => fst x < fst y) (fst r) /\
              Forall (fun x => 0 <= fst x /\ P x) (fst r)) runs.
Proof.
  intros Hstep Hostep Hfuel Hinner HP.
  destruct (scan_runs rule obstacleLayers selectableObjects this fuel sc collection
              Hstep Hostep Hfuel Hinner) as (log & sc' & Hv & Hscan & Hs).
  exists sc', (Spec.runs Spec.hasObstacles [] log).
  split; [now rewrite map_map|].
  destruct (probes_ascending _ _ _ _ _ _ _ _ _ _ Hstep Hv) as (_ & Hpos & _).
  specialize (HP _ _ Hv). rewrite List.Forall_forall in *.
  intros r Hr. destruct (runs_entries _ _ _ _ Hr) as (Hne & Hin & Hall).
  split; [assumption|]. split; [exact (runs_ascending _ log [] r Hs Hr)|].
  specialize (Hall ltac:(constructor)). rewrite List.Forall_forall in *.
  intros x Hx. split; [apply Hpos; now apply Hin|].
  apply HP; [now apply Hin|now apply Hall].
Qed.

End AlignmentDiagnostics.

(** X9.  In the sweep along an alignment, with positive steps and
    enough iterations, the scan of the alignment ends and every
    diagnostic it pushes has at least one key frame; the observer
    stations of its key frames increase strictly, so the key frames are
    sorted as the binary search of the playback needs them; and every key
    frame has its observer station at or after 0 and its object station
    at least one object step ahead of it and not beyond the end of the
    alignment. *)
Theorem scan_keyFrames_increasing `{Math3d.Ops}
    (rule : AlignmentRule.AlignmentVisibilityRule) (obstacleLayers : gset nat)
    (selectableObjects : Frustum.SegmentFrustum -> list Dwg.DwgObject)
    (this : Wrapper.AlignmentWrapper) (fuel : nat) (sc : AlignmentRule.Scratch)
    (collection : list AlignmentRule.Entry) :
  0 < AlignmentRule.viewPointStep rule -> 0 < AlignmentRule.objectStep rule ->
  (Host.iterations (Wrapper.length this) (AlignmentRule.viewPointStep rule) < fuel)%nat ->
  (Host.iterations (Wrapper.length this) (AlignmentRule.objectStep rule) < fuel)%nat ->
  exists sc' emitted,
    AlignmentRule.scan rule obstacleLayers selectableObjects this fuel sc collection =
      Some (sc', collection ++ map inr emitted) /\
    Forall (fun d =>
              AlignmentRule.keyFrames d <> [] /\
              StronglySorted (fun a b : Q * Q => fst a < fst b) (AlignmentRule.keyFrames d) /\
              Forall (fun k : Q * Q =>
                        0 <= fst k /\
                        fst k + AlignmentRule.objectStep rule <= snd k /\
                        snd k <= Wrapper.length this)
                     (AlignmentRule.keyFrames d))
           emitted.
Proof.
  intros Hstep Hostep Hfuel Hinner.
  destruct (scan_emits rule obstacleLayers selectableObjects this
              (fun x => fst x + AlignmentRule.objectStep rule <= Spec.objectStation x /\
                        Spec.objectStation x <= Wrapper.length this)
              fuel sc collection Hstep Hostep Hfuel Hinner) as (sc' & runs & Hscan & Hruns).
  { intros log sc' Hv.
    eapply List.Forall_impl; [|exact (probes_reach _ _ _ _ _ _ _ _ _ _ Hostep Hv)].
    intros x (_ & Hx) Hhas. destruct (Hx Hhas) as (? & ? & _). now split. }
  exists sc', (map (Spec.probedDiagnostic rule this) runs). split; [assumption|].
  apply List.Forall_forall. intros d Hd. apply in_map_iff in Hd as (r & <- & Hr).
  rewrite List.Forall_forall in Hruns. destruct (Hruns r Hr) as (Hne & Hs & Hall).
  destruct r as [[|x run] closing]; [now contradiction Hne|].
  cbn [Spec.probedDiagnostic AlignmentRule.violation AlignmentRule.keyFrames fst
       Spec.probedRange AlignmentRule.rangeKeyFrames] in *.
  destruct (keyFramesOf_bounds (x :: run) ltac:(discriminate)) as (Hkne & _).
  destruct (keyFramesOf_increasing (x :: run) Hs) as (Hinc & Hin).
  split; [assumption|]. split; [assumption|].
  apply List.Forall_forall. intros k Hk. destruct (Hin k Hk) as (y & Hy & ->).
  rewrite List.Forall_forall in Hall. destruct (Hall y Hy) as (? & ? & ?).
  cbn [fst snd]. auto.
Qed.

(** X10.  Under the same conditions every diagnostic pushed by the scan
    of an alignment names at least one obstacle, and every obstacle it
    names is the identity of a 3D model on one of the obstacle layers
    that the drawing layer offered for some sight line. *)
Theorem scan_obstacles_offered `{Math3d.Ops}
    (rule : AlignmentRule.AlignmentVisibilityRule) (obstacleLayers : gset nat)
    (selectableObjects : Frustum.SegmentFrustum -> list Dwg.DwgObject)
    (this : Wrapper.AlignmentWrapper) (fuel : nat) (sc : AlignmentRule.Scratch)
    (collection : list AlignmentRule.Entry) :
  0 < AlignmentRule.viewPointStep rule -> 0 < AlignmentRule.objectStep rule ->
  (Host.iterations (Wrapper.length this) (AlignmentRule.viewPointStep rule) < fuel)%nat ->
  (Host.iterations (Wrapper.length this) (AlignmentRule.objectStep rule) < fuel)%nat ->
  exists sc' emitted,
    AlignmentRule.scan rule obstacleLayers selectableObjects this fuel sc collection =
      Some (sc', collection ++ map inr emitted) /\
    Forall (fun d =>
              (exists o, o ∈ AlignmentRule.obstacles d) /\
              forall o, o ∈ AlignmentRule.obstacles d ->
                exists frustum f,
                  In f (selectableObjects frustum) /\ Dwg.oid f = o /\
                  Dwg.type f = Dwg.model3d /\
                  AlignmentRule.onObstacleLayer obstacleLayers f = true)
           emitted.
Proof.
  intros Hstep Hostep Hfuel Hinner.
  destruct (scan_emits rule obstacleLayers selectableObjects this
              (fun x => exists obstacles, obstacles <> [] /\
                 Spec.found x = list_to_set (Dwg.oid <$> obstacles) /\
                 Forall (fun f =>
                           (exists frustum, In f (selectableObjects frustum)) /\
                           Dwg.type f = Dwg.model3d /\
                           AlignmentRule.onObstacleLayer obstacleLayers f = true)
                        obstacles)
              fuel sc collection Hstep Hostep Hfuel Hinner) as (sc' & runs & Hscan & Hruns).
  { intros log sc' Hv.
    eapply List.Forall_impl; [|exact (probes_reach _ _ _ _ _ _ _ _ _ _ Hostep Hv)].
    intros x (_ & Hx) Hhas. now destruct (Hx Hhas) as (_ & _ & ?). }
  exists sc', (map (Spec.probedDiagnostic rule this) runs). split; [assumption|].
  apply List.Forall_forall. intros d Hd. apply in_map_iff in Hd as (r & <- & Hr).
  rewrite List.Forall_forall in Hruns. destruct (Hruns r Hr) as (Hne & _ & Hall).
  destruct r as [[|x run] closing]; [now contradiction Hne|].
  cbn [Spec.probedDiagnostic AlignmentRule.violation AlignmentRule.obstacles fst
       Spec.probedRange AlignmentRule.obstaclesAtStation] in *.
  rewrite List.Forall_forall in Hall. split.
  - destruct (Hall x ltac:(now left)) as (_ & obstacles & Hobs & Hfound & _).
    destruct obstacles as [|f rest]; [congruence|].
    exists (Dwg.oid f). apply foundOver_elem. exists x. split; [now left|].
    rewrite Hfound. apply elem_of_list_to_set. cbn. left.
  - intros o Ho. apply foundOver_elem in Ho as (y & Hy & Ho).
    destruct (Hall y Hy) as (_ & obstacles & _ & Hfound & Hoff).
    rewrite Hfound in Ho. apply elem_of_list_to_set, list_elem_of_fmap in Ho.
    destruct Ho as (f & -> & Hf). apply list_elem_of_In in Hf.
    rewrite List.Forall_forall in Hoff. destruct (Hoff f Hf) as ((frustum & Hin) & Ht & Hl).
    exists frustum, f. auto.
Qed.

(** ** rules/alignment.ts: no obstacle layers *)

Section NoObstacleLayers.
Import Math3d Dwg Host AlignmentRule.
Context `{Ops}.
Variable rule : AlignmentVisibilityRule.
Variable selectableObjects : Frustum.SegmentFrustum -> list DwgObject.

Lemma runs_none {X : Type} (violation : X -> bool) (log : list X) :
  Forall (fun x => violation x = false) log -> Spec.runs violation [] log = [].
Proof.
  induction 1 as [|x log Hx _ IH]; [reflexivity|]. cbn [Spec.runs]. now rewrite Hx.
Qed.

(** With no obstacle layer the predicate refuses every object and leaves
    the cache alone, so nothing is drawn. *)
Lemma drain_no_layers (viewPoint objectPoint : vec3) (candidates : list DwgObject)
    (cache : InverseMatrices) :
  drain (predicate ∅ viewPoint objectPoint) candidates cache = ([], cache).
Proof.
  induction candidates as [|obj rest IH]; [reflexivity|]. cbn [drain].
  assert (Hp : predicate ∅ viewPoint objectPoint cache obj = (false, cache)).
  { unfold predicate.
    assert (Hl : onObstacleLayer ∅ obj = false).
    { unfold onObstacleLayer. destruct (layer obj) as [l|]; [|reflexivity].
      apply bool_decide_eq_false_2, not_elem_of_empty. }
    rewrite Hl. now rewrite orb_true_r. }
  now rewrite Hp, IH.
Qed.

Lemma findObstacles_no_layers (this : Wrapper.AlignmentWrapper) (fuel : nat)
    (objectStation : Q) (S : gset nat) (sc : Scratch)
    (hasObstacles : bool) (reached : Q) (found : gset nat) (sc' : Scratch) :
  findObstacles rule ∅ selectableObjects this fuel objectStation S sc =
    Some (hasObstacles, reached, found, sc') ->
  hasObstacles = false.
Proof.
  revert objectStation sc. induction fuel as [|fuel IH]; intros objectStation sc;
    [discriminate|].
  cbn [findObstacles].
  destruct (Js.leb _ _); [|now intros [= <- _ _ _]].
  destruct (Js.ltb _ _); [now intros [= <- _ _ _]|].
  rewrite drain_no_layers. apply IH.
Qed.

Lemma verdicts_no_layers (this : Wrapper.AlignmentWrapper) (inner fuel : nat)
    (station : Q) (sc sc' : Scratch) (log : list Spec.Probe) :
  verdicts rule ∅ selectableObjects this inner fuel station sc = Some (log, sc') ->
  Forall (fun x => Spec.hasObstacles x = false) log.
Proof.
  revert station sc sc' log. induction fuel as [|fuel IH];
    intros station sc sc' log; [discriminate|].
  cbn [verdicts].
  destruct (Js.leb _ _); [|intros [= <- _]; constructor].
  destruct (look rule ∅ selectableObjects this inner station ∅ sc)
    as [[[[hasObstacles reached] found] sc1]|] eqn:El;
    [rewrite bind_some|rewrite bind_none; discriminate].
  destruct (verdicts rule ∅ selectableObjects this inner fuel
              (station + viewPointStep rule) sc1) as [[rest sc2]|] eqn:E;
    [rewrite bind_some|rewrite bind_none; discriminate].
  intros [= <- _]. constructor; [|exact (IH _ _ _ _ E)].
  exact (findObstacles_no_layers _ _ _ _ _ _ _ _ _ El).
Qed.

(** The scan of an alignment then pushes nothing. *)
Lemma scan_no_layers (this : Wrapper.AlignmentWrapper) (fuel : nat) (sc : Scratch)
    (collection : list Entry) :
  0 < viewPointStep rule -> 0 < objectStep rule ->
  (iterations (Wrapper.length this) (viewPointStep rule) < fuel)%nat ->
  (iterations (Wrapper.length this) (objectStep rule) < fuel)%nat ->
  exists sc', scan rule ∅ selectableObjects this fuel sc collection = Some (sc', collection).
Proof.
  intros Hstep Hostep Hfuel Hinner.
  destruct (scan_runs rule ∅ selectableObjects this fuel sc collection
              Hstep Hostep Hfuel Hinner) as (log & sc' & Hv & Hscan & _).
  exists sc'. rewrite Hscan, (runs_none Spec.hasObstacles log (verdicts_no_layers _ _ _ _ _ _ _ Hv)).
  cbn [map]. now rewrite app_nil_r.
Qed.

(** Alignments whose scans push nothing leave the arrays of [messages]
    as they were, and create an empty array for each model of an
    alignment that had none, and no other. *)
Lemma scanAll_pushes_nothing (obstacleLayers : gset nat) (fuel : nat)
    (alignments : list Wrapper.AlignmentWrapper) :
  Forall (fun this => forall sc collection, exists sc',
            scan rule obstacleLayers selectableObjects this fuel sc collection =
              Some (sc', collection)) alignments ->
  forall sc (messages : gmap string (list Entry)),
  exists messages',
    scanAll rule obstacleLayers selectableObjects fuel alignments sc messages =
      Some messages' /\
    (forall name entries, messages !! name = Some entries ->
       messages' !! name = Some entries) /\
    (forall name entries, messages' !! name = Some entries ->
       messages !! name = Some entries \/
       (messages !! name = None /\ entries = [] /\
        exists this, In this alignments /\ Wrapper.modelName this = name)) /\
    (forall this, In this alignments -> is_Some (messages' !! Wrapper.modelName this)).
Proof.
  induction 1 as [|this rest Hthis _ IH]; intros sc messages; cbn [scanAll].
  - exists messages. split; [reflexivity|]. split; [auto|]. split; [auto|]. intros this [].
  - destruct (Hthis sc (default [] (messages !! Wrapper.modelName this))) as (sc1 & ->).
    rewrite bind_some.
    destruct (IH sc1 (<[Wrapper.modelName this :=
                        default [] (messages !! Wrapper.modelName this)]> messages))
      as (messages' & -> & Hkeep & Hnew & Hall).
    exists messages'. split; [reflexivity|]. split; [|split].
    + intros name entries Hn. apply Hkeep.
      destruct (decide (name = Wrapper.modelName this)) as [->|Hne].
      * now rewrite lookup_insert_eq, Hn.
      * now rewrite lookup_insert_ne by congruence.
    + intros name entries Hn.
      destruct (decide (name = Wrapper.modelName this)) as [->|Hne].
      * apply Hnew in Hn as [Hn|(Hn & _)]; [|now rewrite lookup_insert_eq in Hn].
        rewrite lookup_insert_eq in Hn. injection Hn as <-.
        destruct (messages !! Wrapper.modelName this) as [e|]; [now left|right].
        split; [reflexivity|]. split; [reflexivity|]. exists this. split; [now left|reflexivity].
      * apply Hnew in Hn as [Hn|(Hn & He & that & Hthat & Hname)].
        -- rewrite lookup_insert_ne in Hn by congruence. now left.
        -- rewrite lookup_insert_ne in Hn by congruence. right.
           split; [assumption|]. split; [assumption|]. exists that. split; [now right|assumption].
    + intros that [<-|Hthat]; [|now apply Hall].
      exists (default [] (messages !! Wrapper.modelName this)).
      apply Hkeep. apply lookup_insert_eq.
Qed.

End NoObstacleLayers.

(** X11.  When the obstacle filter selects no layer, [execute] of the
    rule along the alignment, with positive steps and enough iterations
    for every alignment found, ends with the one warning as the only
    record: the array of the model of the drawing holds the warning and
    nothing else, every other array is empty and belongs to the model of
    an alignment found, and every alignment found has its array.
    Whatever the drawing layer offers, no violation is reported. *)
Theorem execute_without_obstacle_layers `{Math3d.Ops}
    (rule : AlignmentRule.AlignmentVisibilityRule)
    (selectableObjects : Frustum.SegmentFrustum -> list Dwg.DwgObject)
    (fuel : nat) (modelName : string) (found : list Host.DwgAlignment) :
  0 < AlignmentRule.viewPointStep rule -> 0 < AlignmentRule.objectStep rule ->
  Forall (fun a =>
            (Host.iterations (Host.length a) (AlignmentRule.viewPointStep rule) < fuel)%nat /\
            (Host.iterations (Host.length a) (AlignmentRule.objectStep rule) < fuel)%nat)
         found ->
  exists messages,
    AlignmentRule.execute rule ∅ selectableObjects fuel modelName found = Some messages /\
    messages !! modelName = Some [inl AlignmentRule.noObstacleLayers] /\
    (forall name entries, messages !! name = Some entries -> name <> modelName ->
       entries = [] /\
       exists a, In a found /\
         Wrapper.modelName (Wrapper.new a (AlignmentRule.direction rule)) = name) /\
    (forall a, In a found ->
       is_Some (messages !!
                  Wrapper.modelName (Wrapper.new a (AlignmentRule.direction rule)))).
Proof.
  intros Hstep Hostep Hfuel. unfold AlignmentRule.execute.
  rewrite bool_decide_eq_true_2 by apply size_empty.
  match goal with
  | |- context [AlignmentRule.scanAll _ _ _ _ ?alignments ?sc0 ?messages0] =>
      assert (Hall : Forall (fun this => forall sc collection, exists sc',
                AlignmentRule.scan rule ∅ selectableObjects this fuel sc collection =
                  Some (sc', collection)) alignments);
      [|destruct (scanAll_pushes_nothing rule selectableObjects ∅ fuel alignments Hall
                    sc0 messages0) as (messages' & Hscan & Hkeep & Hnew & Hhas)]
  end.
  { apply List.Forall_forall. intros this Hthis sc collection.
    apply list_elem_of_In, list_elem_of_fmap in Hthis as (a & -> & Ha).
    apply list_elem_of_In in Ha. rewrite List.Forall_forall in Hfuel.
    destruct (Hfuel a Ha). now apply scan_no_layers. }
  exists messages'. split; [exact Hscan|]. split; [|split].
  - apply Hkeep. apply lookup_singleton_eq.
  - intros name entries Hn Hne.
    apply Hnew in Hn as [Hn|(_ & He & this & Hthis & Hname)].
    + apply lookup_singleton_Some in Hn as [Heq _]. congruence.
    + split; [assumption|].
      apply list_elem_of_In, list_elem_of_fmap in Hthis as (a & -> & Ha).
      apply list_elem_of_In in Ha. eauto.
  - intros a Ha. apply Hhas. apply list_elem_of_In, list_elem_of_fmap.
    exists a. split; [reflexivity|]. now apply list_elem_of_In.
Qed.

(** ** rules/objects.ts: where the ranges lie *)

Section ObjectsInView.
Import Math3d Dwg Host ObjectsRule.
Context `{Ops}.
Variable rule : ObjectsVisibilityRule.
Variable selectableObjects : Frustum.SegmentFrustum -> list DwgObject.
Variable object : DwgObject.
Variable this : Wrapper.AlignmentWrapper.
Variable objectStation : Q.

#[local] Abbreviation look := (look rule selectableObjects object this objectStation).
#[local] Abbreviation verdicts :=
  (verdicts rule selectableObjects object this objectStation).

(** The object is in view only from stations at or before its own, and
    from view points within the view distance of its centre. *)
Lemma look_in_view (station : Q) (sc sc1 : Scratch) (obstacles : list DwgObject) :
  look station sc = (false, obstacles, sc1) ->
  station <= objectStation /\
  vec3_len (vec3_sub (objectCenter sc) (viewPoint sc1)) <= viewDistance rule.
Proof.
  unfold ObjectsRule.look.
  match goal with
  | |- context [Js.ltb (viewDistance rule) (vec3_len (vec3_sub _ ?p))] =>
      set (viewPoint' := p)
  end.
  destruct (Js.ltb (viewDistance rule) (vec3_len (vec3_sub (objectCenter sc) viewPoint')))
    eqn:Ed; cbn [negb]; [intros [= ]|apply ltb_ge in Ed].
  destruct (Js.ltb (vec2_dot _ _) 0); cbn [negb]; [intros [= ]|].
  destruct (Js.ltb objectStation station) eqn:Es; cbn [negb];
    [intros [= ]|apply ltb_ge in Es].
  destruct (drain _ _ _) as [found cache]. intros [= _ <-]. cbn [viewPoint]. now split.
Qed.

Lemma verdicts_in_view (fuel : nat) (station : Q) (sc sc' : Scratch)
    (log : list Spec.Seen) :
  verdicts fuel station sc = Some (log, sc') ->
  Forall (fun x : Spec.Seen =>
            fst x <= Wrapper.length this /\
            (fst (snd x) = false -> fst x <= objectStation)) log.
Proof.
  revert station sc sc' log. induction fuel as [|fuel IH];
    intros station sc sc' log; [discriminate|].
  cbn [ObjectsRule.verdicts].
  destruct (Js.leb station (Wrapper.length this)) eqn:El;
    [apply leb_le in El|intros [= <- _]; constructor].
  destruct (look station sc) as [[outOfView obstacles] sc1] eqn:Elook.
  destruct (verdicts fuel (station + viewPointStep rule) sc1) as [[rest sc2]|] eqn:E;
    [rewrite bind_some|rewrite bind_none; discriminate].
  intros [= <- _]. constructor; [|exact (IH _ _ _ _ E)].
  cbn [fst snd]. split; [assumption|]. intros ->.
  now destruct (look_in_view _ _ _ _ Elook).
Qed.

End ObjectsInView.

(** X12.  In the sweep towards an object, with a positive step and
    enough iterations, the sweep of one alignment ends and every
    diagnostic it pushes has a range that starts at or after station 0,
    does not end before it starts, and ends neither beyond the end of
    the alignment nor beyond the station of the object on it; it names
    at least one obstacle, and never the observed object. *)
Theorem sweep_ranges_before_object `{Math3d.Ops} (rule : ObjectsRule.ObjectsVisibilityRule)
    (selectableObjects : Frustum.SegmentFrustum -> list Dwg.DwgObject)
    (object : Dwg.DwgObject) (this : Wrapper.AlignmentWrapper) (objectStation : Q)
    (fuel : nat) (sc : ObjectsRule.Scratch) (collection : list ObjectsRule.Entry) :
  0 < ObjectsRule.viewPointStep rule ->
  (Host.iterations (Wrapper.length this) (ObjectsRule.viewPointStep rule) < fuel)%nat ->
  exists sc' emitted,
    ObjectsRule.sweep rule selectableObjects object this objectStation fuel sc collection =
      Some (sc', collection ++ map inr emitted) /\
    Forall (fun d =>
              0 <= ObjectsRule.rangeStart d /\
              ObjectsRule.rangeStart d <= ObjectsRule.rangeEnd d /\
              ObjectsRule.rangeEnd d <= Wrapper.length this /\
              ObjectsRule.rangeEnd d <= objectStation /\
              (exists o, o ∈ ObjectsRule.obstacles d) /\
              Dwg.oid object ∉ ObjectsRule.obstacles d)
           emitted.
Proof.
  intros Hstep Hfuel.
  destruct (sweep_runs rule selectableObjects object this objectStation fuel sc collection
              Hstep Hfuel) as (log & sc' & Hv & Hsweep & Hs).
  exists sc', (map (Spec.diagnosticOf rule object this) (Spec.runs Spec.obstructed [] log)).
  split; [now rewrite map_map|].
  destruct (verdicts_ascending _ _ _ _ _ _ _ _ _ _ Hstep Hv) as (_ & Hpos).
  pose proof (verdicts_seen _ _ _ _ _ _ _ _ _ _ Hv) as Hseen.
  pose proof (verdicts_in_view _ _ _ _ _ _ _ _ _ _ Hv) as Hview.
  rewrite List.Forall_forall in Hpos, Hseen, Hview.
  apply List.Forall_forall. intros d Hd. apply in_map_iff in Hd as (r & <- & Hr).
  destruct (runs_entries _ _ _ _ Hr) as (Hne & Hin & Hall).
  specialize (Hall ltac:(constructor)). rewrite List.Forall_forall in Hall.
  pose proof (runs_ascending _ log [] r Hs Hr) as Hasc.
  destruct (bounds_in (fst r) Hne) as (a & b & Ha & Hb & Hbounds).
  assert (Hobs : forall x, In x (fst r) ->
            fst (snd x) = false /\ snd (snd x) <> []).
  { intros x Hx. specialize (Hall x Hx). unfold Spec.obstructed in Hall.
    destruct (fst (snd x)); [discriminate|]. split; [reflexivity|].
    cbn [orb negb] in Hall. apply negb_true_iff, bool_decide_eq_false_1 in Hall.
    exact Hall. }
  destruct r as [[|x0 run] closing]; [now contradiction Hne|].
  cbn [Spec.diagnosticOf ObjectsRule.violation ObjectsRule.rangeStart ObjectsRule.rangeEnd
       ObjectsRule.obstacles fst Spec.rangeOf ObjectsRule.start ObjectsRule.end_
       ObjectsRule.obstaclesAtRange] in *.
  assert (Hend : fst (List.last (x0 :: run) x0) = fst b)
    by (unfold Spec.bounds in Hbounds; injection Hbounds as _ Hend; exact Hend).
  pose proof (ascending_bounds (x0 :: run) b Hasc Hb) as Hab.
  unfold Spec.bounds in Hab. cbn [fst snd] in Hab.
  rewrite Hend in *.
  split; [apply (Hpos x0); apply (Hin x0); now left|].
  split; [lra|].
  split; [apply (Hview b); now apply (Hin b)|].
  split; [apply (Hview b); [now apply (Hin b)|now apply Hobs]|].
  split.
  - destruct (Hobs x0 ltac:(now left)) as (_ & Hx0).
    destruct (snd (snd x0)) as [|f rest] eqn:E; [congruence|].
    exists (Dwg.oid f). apply obstaclesOf_elem. exists x0, f.
    split; [now left|]. split; [rewrite E; now left|reflexivity].
  - intros Ho. apply obstaclesOf_elem in Ho as (x & f & Hx & Hf & Ho).
    destruct (Hseen x (Hin x Hx)) as (_ & Hfs). rewrite List.Forall_forall in Hfs.
    destruct (Hfs f Hf) as (_ & Hneq). contradiction.
Qed.

(** ** The playback of a diagnostic *)

Section PlaybackFacts.
Import Js Playback.

Lemma max_cases (a b : Q) : (a < b /\ max a b = b) \/ (b <= a /\ max a b = a).
Proof.
  unfold max. destruct (ltb a b) eqn:E; [apply ltb_lt in E|apply ltb_ge in E]; auto.
Qed.

Lemma min_cases (a b : Q) : (b < a /\ min a b = b) \/ (a <= b /\ min a b = a).
Proof.
  unfold min. destruct (ltb b a) eqn:E; [apply ltb_lt in E|apply ltb_ge in E]; auto.
Qed.

Lemma slowdownAfter_bounds (slowdown : Q) (active : bool) :
  (1 # 100) <= slowdown <= 1 -> (1 # 100) <= slowdownAfter slowdown active <= 1.
Proof.
  intros Hs. unfold slowdownAfter. destruct active; [|lra].
  destruct (max_cases (slowdown * (1 # 2)) (1 # 100)) as [[? ->]|[? ->]]; lra.
Qed.

(** X13.  Whatever the sequence of activations and deactivations, the
    slowdown of the playback stays between 0.01 and 1, so the speed,
    17 times the slowdown, is positive and the durations never divide by
    zero; a deactivation puts the slowdown back to 1. *)
Theorem slowdown_bounds (activations : list bool) :
  (1 # 100) <= slowdownOver activations <= 1 /\
  0 < speed (slowdownOver activations) /\
  slowdownOver (activations ++ [false]) == 1.
Proof.
  unfold slowdownOver.
  assert (Hgen : forall s, (1 # 100) <= s <= 1 ->
            (1 # 100) <= fold_left slowdownAfter activations s <= 1).
  { induction activations as [|a rest IH]; intros s Hs; [exact Hs|].
    cbn [fold_left]. apply IH. now apply slowdownAfter_bounds. }
  specialize (Hgen 1 ltac:(lra)). split; [exact Hgen|]. split.
  - unfold speed. lra.
  - rewrite fold_left_app. reflexivity.
Qed.

End PlaybackFacts.

Section KeyFrameLookup.
Import Js Playback.
#[local] Abbreviation KeyFrame := AlignmentRule.AlignmentVisibilityDiagnosticKeyFrame.
#[local] Abbreviation increasing :=
  (StronglySorted (fun a b : Q * Q => fst a < fst b)).
Variable keyFrames : list KeyFrame.
Hypothesis Hinc : increasing keyFrames.
#[local] Abbreviation len := (Z.of_nat (List.length keyFrames)).

Lemma keyFrames_order (i j : Z) (x y : KeyFrame) :
  (i < j)%Z -> item keyFrames i = Some x -> item keyFrames j = Some y -> fst x < fst y.
Proof.
  intros Hij Hx Hy. apply item_nth in Hx as (Hi & Hx). apply item_nth in Hy as (Hj & Hy).
  apply (sorted_nth (fun a b : Q * Q => fst a < fst b) keyFrames
           (Z.to_nat i) (Z.to_nat j) x y Hinc); [lia|assumption..].
Qed.

Lemma keyFrames_order_le (i j : Z) (x y : KeyFrame) :
  (i <= j)%Z -> item keyFrames i = Some x -> item keyFrames j = Some y -> fst x <= fst y.
Proof.
  intros Hij Hx Hy. destruct (Z.eq_dec i j) as [->|Hne].
  - rewrite Hx in Hy. injection Hy as <-. lra.
  - apply Qlt_le_weak. apply (keyFrames_order i j); [lia|assumption..].
Qed.

(** The index looked up for a station: inside the key frames, the key
    frames before it are before the station and those after it are
    after the station. *)
Lemma keyFrameIndex_spec (station : Q) :
  keyFrames <> [] -> (len < 2 ^ 31)%Z ->
  exists i, keyFrameIndex keyFrames station = Some i /\ (0 <= i < len)%Z /\
    (forall j x, (j < i)%Z -> item keyFrames j = Some x -> fst x < station) /\
    (forall j x, (i < j)%Z -> item keyFrames j = Some x -> station < fst x).
Proof.
  intros Hne Hlen.
  assert (Hpos : (0 < len)%Z) by (destruct keyFrames; [congruence|cbn; lia]).
  destruct (loop_spec keyFrames (station, 0) (fun a b : KeyFrame => fst a - fst b) Hlen)
    with (s := 0%Z) (e := (len - 1)%Z) as (r & Hr & Hcase); try lia.
  - intros i j x y Hij Hx Hy. cbn [fst].
    pose proof (keyFrames_order_le i j x y Hij Hx Hy). lra.
  - intros i j x y Hij Hx Hy. cbn [fst].
    pose proof (keyFrames_order_le i j x y Hij Hx Hy). lra.
  - unfold keyFrameIndex, BinarySearch.binarySearch. rewrite Hr, bind_some.
    destruct Hcase as [(x & Hx & Hzero)|(p & -> & Hp & Hbelow & Habove)].
    + pose proof (item_range keyFrames r x Hx) as Hrange. cbn [fst] in Hzero.
      destruct (Z.ltb_spec r 0) as [|_]; [lia|].
      destruct (Z.leb_spec len r) as [|_]; [lia|].
      exists r. split; [reflexivity|]. split; [assumption|]. split.
      * intros j y Hj Hy. pose proof (keyFrames_order j r y x Hj Hy Hx). lra.
      * intros j y Hj Hy. pose proof (keyFrames_order r j x y Hj Hx Hy). lra.
    + destruct (bitnot_small p ltac:(lia)) as (Hneg & Hback).
      destruct (Z.ltb_spec (bitnot p) 0) as [_|]; [|lia]. rewrite Hback.
      destruct (Z.leb_spec len p) as [Hfull|Hin].
      * exists (len - 1)%Z. split; [reflexivity|]. split; [lia|]. split.
        -- intros j y Hj Hy. pose proof (item_range keyFrames j y Hy).
           specialize (Hbelow j y ltac:(lia) Hy). cbn [fst] in Hbelow. lra.
        -- intros j y Hj Hy. pose proof (item_range keyFrames j y Hy). lia.
      * exists p. split; [reflexivity|]. split; [lia|]. split.
        -- intros j y Hj Hy. pose proof (item_range keyFrames j y Hy).
           specialize (Hbelow j y ltac:(lia) Hy). cbn [fst] in Hbelow. lra.
        -- intros j y Hj Hy. pose proof (item_range keyFrames j y Hy).
           specialize (Habove j y ltac:(lia) Hy). cbn [fst] in Habove. lra.
Qed.

End KeyFrameLookup.

(** On increasing key frames the object station shown is read inside
    the array. *)
Lemma objectStationAt_defined
    (keyFrames : list AlignmentRule.AlignmentVisibilityDiagnosticKeyFrame) (station : Q) :
  keyFrames <> [] ->
  StronglySorted (fun a b : Q * Q => fst a < fst b) keyFrames ->
  (Z.of_nat (List.length keyFrames) < 2 ^ 31)%Z ->
  exists objectStation, Playback.objectStationAt keyFrames station = Some objectStation.
Proof.
  intros Hne Hinc Hlen.
  destruct (keyFrameIndex_spec keyFrames Hinc station Hne Hlen) as (i & Hi & Hrange & _).
  unfold Playback.objectStationAt. rewrite Hi, bind_some.
  destruct (Z.ltb_spec 0 i) as [Hpos|Hzero].
  - destruct (item_Some keyFrames (i - 1) ltac:(lia)) as (k & ->). cbn. eauto.
  - destruct (item_Some keyFrames 0 ltac:(lia)) as (k & ->). cbn. eauto.
Qed.

(** So the callback of the animation yields a view. *)
Lemma frame_defined (vec3_normalize : Math3d.vec3 -> Math3d.vec3)
    (alignment : Wrapper.AlignmentWrapper) (rule : AlignmentRule.AlignmentVisibilityRule)
    (keyFrames : list AlignmentRule.AlignmentVisibilityDiagnosticKeyFrame) (t : Q) :
  keyFrames <> [] ->
  StronglySorted (fun a b : Q * Q => fst a < fst b) keyFrames ->
  (Z.of_nat (List.length keyFrames) < 2 ^ 31)%Z ->
  exists shown, Playback.frame vec3_normalize alignment rule keyFrames t = Some shown.
Proof.
  intros Hne Hinc Hlen.
  assert (Hpos : (0 < Z.of_nat (List.length keyFrames))%Z)
    by (destruct keyFrames; [congruence|cbn; lia]).
  destruct (item_Some keyFrames 0 ltac:(lia)) as (first & Hfirst).
  destruct (item_Some keyFrames (Z.of_nat (List.length keyFrames) - 1) ltac:(lia))
    as (last & Hlast).
  unfold Playback.frame, Playback.stationAt, Playback.totalLength, Playback.startStation.
  rewrite Hfirst, Hlast. cbn [fmap option_fmap option_map mbind option_bind].
  destruct (objectStationAt_defined keyFrames
              (Playback.min t 1 * (fst last - fst first) + fst first) Hne Hinc Hlen)
    as (objectStation & ->).
  cbn [mbind option_bind]. eauto.
Qed.

(** X14.  The key frame the playback shows for a station.  On key frames
    with strictly increasing observer stations (not empty, fewer than
    2^31) the lookup ends with an index [i] inside the key frames: every
    key frame after [i] lies after the station, and the object station
    shown is that of key frame [i - 1], which lies before the station,
    or that of the first key frame when [i] is 0.  No read leaves the
    array. *)
Theorem playback_keyFrame_in_force
    (keyFrames : list AlignmentRule.AlignmentVisibilityDiagnosticKeyFrame) (station : Q) :
  keyFrames <> [] ->
  StronglySorted (fun a b : Q * Q => fst a < fst b) keyFrames ->
  (Z.of_nat (List.length keyFrames) < 2 ^ 31)%Z ->
  exists i k,
    Playback.keyFrameIndex keyFrames station = Some i /\
    (0 <= i < Z.of_nat (List.length keyFrames))%Z /\
    Js.item keyFrames (Z.max 0 (i - 1)) = Some k /\
    Playback.objectStationAt keyFrames station = Some (snd k) /\
    ((0 < i)%Z -> fst k < station) /\
    (forall j x, (i < j)%Z -> Js.item keyFrames j = Some x -> station < fst x).
Proof.
  intros Hne Hinc Hlen.
  destruct (keyFrameIndex_spec keyFrames Hinc station Hne Hlen)
    as (i & Hi & Hrange & Hbefore & Hafter).
  destruct (item_Some keyFrames (Z.max 0 (i - 1)) ltac:(lia)) as (k & Hk).
  exists i, k. split; [assumption|]. split; [assumption|]. split; [assumption|].
  split; [|split; [|assumption]].
  - unfold Playback.objectStationAt. rewrite Hi, bind_some.
    destruct (Z.ltb_spec 0 i) as [Hpos|Hzero].
    + replace (Z.max 0 (i - 1)) with (i - 1)%Z in Hk by lia. now rewrite Hk.
    + replace (Z.max 0 (i - 1)) with 0%Z in Hk by lia. now rewrite Hk.
  - intros Hpos. apply (Hbefore (Z.max 0 (i - 1))); [lia|assumption].
Qed.

(** X15.  On such key frames the callback of the animation never fails,
    whatever the time [t] the host passes.  For [t >= 0] the station it
    looks from is not before the observer station of the first key
    frame; at [t = 0] it is that station; and from [t = 1] on it is the
    station of [t = 1], since [t] is cut at 1. *)
Theorem playback_frame_from_start (vec3_normalize : Math3d.vec3 -> Math3d.vec3)
    (alignment : Wrapper.AlignmentWrapper) (rule : AlignmentRule.AlignmentVisibilityRule)
    (keyFrames : list AlignmentRule.AlignmentVisibilityDiagnosticKeyFrame) (t : Q) :
  keyFrames <> [] ->
  StronglySorted (fun a b : Q * Q => fst a < fst b) keyFrames ->
  (Z.of_nat (List.length keyFrames) < 2 ^ 31)%Z ->
  exists first station atOne shown,
    Js.item keyFrames 0 = Some first /\
    Playback.stationAt keyFrames t = Some station /\
    Playback.stationAt keyFrames 1 = Some atOne /\
    (0 <= t -> fst first <= station) /\
    (t == 0 -> station == fst first) /\
    (1 <= t -> station == atOne) /\
    Playback.frame vec3_normalize alignment rule keyFrames t = Some shown.
Proof.
  intros Hne Hinc Hlen.
  assert (Hpos : (0 < Z.of_nat (List.length keyFrames))%Z)
    by (destruct keyFrames; [congruence|cbn; lia]).
  destruct (item_Some keyFrames 0 ltac:(lia)) as (first & Hfirst).
  destruct (item_Some keyFrames (Z.of_nat (List.length keyFrames) - 1) ltac:(lia))
    as (last & Hlast).
  assert (Hle : fst first <= fst last).
  { apply (keyFrames_order_le keyFrames Hinc 0 (Z.of_nat (List.length keyFrames) - 1));
      [lia|assumption..]. }
  assert (Hstation : forall u, Playback.stationAt keyFrames u =
            Some (Playback.min u 1 * (fst last - fst first) + fst first)).
  { intros u. unfold Playback.stationAt, Playback.totalLength, Playback.startStation.
    now rewrite Hfirst, Hlast. }
  destruct (frame_defined vec3_normalize alignment rule keyFrames t Hne Hinc Hlen)
    as (shown & Hframe).
  exists first, (Playback.min t 1 * (fst last - fst first) + fst first),
    (Playback.min 1 1 * (fst last - fst first) + fst first), shown.
  split; [assumption|]. split; [apply Hstation|]. split; [apply Hstation|].
  split; [|split; [|split; [|assumption]]].
  - intros Ht. destruct (min_cases t 1) as [[H1 ->]|[H1 ->]]; [lra|nra].
  - intros Ht. destruct (min_cases t 1) as [[H1 ->]|[H1 ->]]; [lra|]. rewrite Ht. ring.
  - intros Ht. destruct (min_cases t 1) as [[H1 ->]|[H1 ->]];
      destruct (min_cases 1 1) as [[H2 ->]|[H2 ->]]; try lra; try reflexivity.
    assert (Et : t == 1) by lra. rewrite Et. reflexivity.
Qed.

(** X16.  The playback of a diagnostic of the sweep towards an object
    lasts at least one second.  For a range that does not end before it
    starts the view point is, for every time [t >= 0], not before the
    start of the range; at [t = 0] it is at the start; and from [t = 1]
    on it stays where it is at [t = 1], since [t] is cut at 1. *)
Theorem objects_playback_from_start (rangeStart rangeEnd slowdown t : Q) :
  rangeStart <= rangeEnd ->
  1 <= Playback.objectsDuration rangeStart rangeEnd slowdown /\
  (0 <= t -> rangeStart <= Playback.viewPointStation rangeStart rangeEnd t) /\
  (t == 0 -> Playback.viewPointStation rangeStart rangeEnd t == rangeStart) /\
  (1 <= t ->
     Playback.viewPointStation rangeStart rangeEnd t ==
       Playback.viewPointStation rangeStart rangeEnd 1).
Proof.
  intros Hrange. split; [|split; [|split]].
  - unfold Playback.objectsDuration.
    destruct (max_cases (Qabs (Playback.distance rangeStart rangeEnd)
                         / Playback.speed slowdown) 1) as [[? ->]|[? ->]]; lra.
  - intros Ht. unfold Playback.viewPointStation, Playback.distance.
    destruct (min_cases t 1) as [[H1 ->]|[H1 ->]]; [lra|nra].
  - intros Ht. unfold Playback.viewPointStation, Playback.distance.
    destruct (min_cases t 1) as [[H1 ->]|[H1 ->]]; [lra|]. rewrite Ht. ring.
  - intros Ht. unfold Playback.viewPointStation, Playback.distance.
    destruct (min_cases t 1) as [[H1 ->]|[H1 ->]];
      destruct (min_cases 1 1) as [[H2 ->]|[H2 ->]]; try lra; try reflexivity.
    assert (Et : t == 1) by lra. rewrite Et. reflexivity.
Qed.

(** ** properties.ts *)

Section PropertyFacts.
Import Properties.

(** No object differs from the first once all hold one same value that
    equals itself. *)
Lemma differs_same {V : Type} (eqb : V -> V -> bool) (v : V) (others : list (option V)) :
  eqb v v = true -> Forall (fun other => other = Some v) others ->
  differs eqb (Some v) others = false.
Proof.
  intros Hrefl Hall. unfold differs. apply not_true_iff_false. intros Hex.
  apply existsb_exists in Hex as (other & Hin & Hd).
  rewrite List.Forall_forall in Hall. rewrite (Hall other Hin), Hrefl in Hd. discriminate.
Qed.

Lemma inserted_all {V : Type} (field : string) (v : V) (objects : list (gmap string V)) :
  Forall (fun other => other = Some v)
    ((fun object : gmap string V => object !! field) <$>
       ((fun object : gmap string V => <[field := v]> object) <$> objects)).
Proof.
  apply List.Forall_forall. intros other Hin.
  apply list_elem_of_In, list_elem_of_fmap in Hin as (o' & -> & Hin).
  apply list_elem_of_fmap in Hin as (o & -> & _). apply lookup_insert_eq.
Qed.

(** With distinct keys, the entry read for a key is the entry that
    holds it. *)
Lemma find_entry (entries : list (string * string)) (key label : string) :
  NoDup (fst <$> entries) -> In (key, label) entries ->
  List.find (fun entry => String.eqb (fst entry) key) entries = Some (key, label).
Proof.
  induction entries as [|[k l] rest IH]; intros Hnd Hin; [destruct Hin|].
  cbn [List.find fst]. apply NoDup_cons in Hnd as (Hk & Hnd).
  destruct (String.eqb_spec k key) as [->|Hne].
  - destruct Hin as [[= ->]|Hin]; [reflexivity|]. exfalso. apply Hk.
    apply list_elem_of_fmap. exists (key, label). split; [reflexivity|].
    now apply list_elem_of_In.
  - destruct Hin as [[= -> _]|Hin]; [congruence|]. now apply IH.
Qed.

(** X17.  Picking an item of the dropdown of an enum property, on at
    least one object and with the keys of the manifest distinct, makes
    the property show the label of that item, never the label for
    differing values; every object then holds the identifier of the
    item in the field, and keeps its other fields. *)
Theorem enum_pick_shows_label (ctx : Ctx) (field : string) (item : TreeItem)
    (objects : list EnumObject) :
  NoDup (fst <$> values ctx) -> In item (getChildren ctx) -> objects <> [] ->
  enumValue ctx field (enumChange field (Some item) objects) =
    Some (EnumSame (Some (itemLabel item))) /\
  Forall (fun object => object !! field = Some (id item))
    (enumChange field (Some item) objects) /\
  Forall2 (fun before after : EnumObject =>
             forall other, other <> field -> after !! other = before !! other)
    objects (enumChange field (Some item) objects).
Proof.
  intros Hnd Hitem Hne. split; [|split].
  - destruct objects as [|first others]; [congruence|].
    unfold enumValue, enumChange, EnumObject. cbn [fmap list_fmap].
    rewrite lookup_insert_eq.
    rewrite (differs_same String.eqb (id item)); [|apply String.eqb_refl|apply inserted_all].
    unfold valueAt. cbn [Host.interpolate].
    unfold getChildren in Hitem. apply in_map_iff in Hitem as ([k l] & <- & Hin).
    cbn [id itemLabel fst snd]. now rewrite (find_entry _ k l Hnd Hin).
  - apply List.Forall_forall. intros object Hin. cbn [enumChange] in Hin.
    apply list_elem_of_In, list_elem_of_fmap in Hin as (o & -> & _).
    apply lookup_insert_eq.
  - cbn [enumChange]. clear Hne. induction objects as [|o rest IH]; constructor; [|exact IH].
    intros other Hother. apply lookup_insert_ne. congruence.
Qed.



End PropertyFacts.

(** ** rules/objects.ts: nothing to check *)

Section NothingToCheck.
Import Math3d Dwg Host ObjectsRule.
Context `{Ops}.
Variable rule : ObjectsVisibilityRule.
Variable selectableObjects : Frustum.SegmentFrustum -> list DwgObject.

(** Without alignments the loop over the objects changes no message. *)
Lemma scanObjects_no_alignments (fuel : nat) (objects : list DwgObject) (sc : Scratch)
    (messages : gmap string (list Entry)) :
  Forall (fun object => is_Some (Spec.modelCorners (meshes object))) objects ->
  scanObjects rule selectableObjects fuel objects [] sc messages = Some messages.
Proof.
  intros Hall. revert sc. induction Hall as [|object rest (cs & Hcs) _ IH]; intros sc;
    [reflexivity|].
  cbn [scanObjects]. rewrite modelCenter_corners, Hcs.
  destruct cs as [|v vs]; rewrite bind_some; cbn [negb scanAlignments]; [apply IH|].
  rewrite bind_some. apply IH.
Qed.

End NothingToCheck.

(** X20.  When the object filter selects nothing, [execute] of the rule
    for objects ends at once with the one warning that no object layer
    was found, for the model of the drawing; the warning that no
    alignment layer was found, when it was due as well, is replaced by
    it. *)
Theorem execute_without_objects `{Math3d.Ops} (rule : ObjectsRule.ObjectsVisibilityRule)
    (selectableObjects : Frustum.SegmentFrustum -> list Dwg.DwgObject)
    (fuel : nat) (modelName : string) (found : list Host.DwgAlignment) :
  ObjectsRule.execute rule selectableObjects fuel modelName found [] =
    Some {[ modelName := [inl ObjectsRule.noObjects] ]}.
Proof.
  unfold ObjectsRule.execute. cbn [ObjectsRule.scanObjects].
  rewrite (bool_decide_eq_true_2 ([] = [])) by reflexivity. f_equal.
  destruct (bool_decide _); [apply insert_singleton_eq|apply insert_empty].
Qed.

(** X21.  When the alignment filter selects nothing while there are
    objects, all with readable vertices, [execute] of the rule for
    objects ends with the one warning that no alignment layer was found
    and no other record. *)
Theorem execute_without_alignments `{Math3d.Ops} (rule : ObjectsRule.ObjectsVisibilityRule)
    (selectableObjects : Frustum.SegmentFrustum -> list Dwg.DwgObject)
    (fuel : nat) (modelName : string) (objects : list Dwg.DwgObject) :
  objects <> [] ->
  Forall (fun object => is_Some (Spec.modelCorners (Dwg.meshes object))) objects ->
  ObjectsRule.execute rule selectableObjects fuel modelName [] objects =
    Some {[ modelName := [inl ObjectsRule.noAlignments] ]}.
Proof.
  intros Hne Hall. unfold ObjectsRule.execute. cbn [fmap list_fmap].
  rewrite scanObjects_no_alignments by assumption.
  rewrite (bool_decide_eq_true_2 ([] = [])) by reflexivity.
  now rewrite (bool_decide_eq_false_2 (objects = [])) by assumption.
Qed.

(** ** rules/alignment.ts: the inner loop, and the playback of what the
    sweep emits *)

(** X22.  The inner loop over the object stations, with a positive
    object step and enough iterations, ends at or after the station it
    starts from.  When it reports an obstacle it has stopped at an object
    station on the alignment whose point lies within the view distance of
    the view point, and has added the obstacles drawn there, at least
    one, to the set it was given; when it reports none the set is
    unchanged, and it has stopped past the end of the alignment or at
    the first object point beyond the view distance. *)
Theorem findObstacles_within_view `{Math3d.Ops}
    (rule : AlignmentRule.AlignmentVisibilityRule) (obstacleLayers : gset nat)
    (selectableObjects : Frustum.SegmentFrustum -> list Dwg.DwgObject)
    (this : Wrapper.AlignmentWrapper) (fuel : nat) (objectStation : Q)
    (S : gset nat) (sc : AlignmentRule.Scratch) :
  0 < AlignmentRule.objectStep rule -> 0 <= objectStation ->
  (Host.iterations (Wrapper.length this) (AlignmentRule.objectStep rule) < fuel)%nat ->
  exists hasObstacles reached found sc',
    AlignmentRule.findObstacles rule obstacleLayers selectableObjects this fuel
      objectStation S sc = Some (hasObstacles, reached, found, sc') /\
    objectStation <= reached /\
    (hasObstacles = true ->
       reached <= Wrapper.length this /\
       Math3d.vec3_len
         (Math3d.vec3_sub (AlignmentRule.objectPoint sc') (AlignmentRule.viewPoint sc))
         <= AlignmentRule.viewDistance rule /\
       exists obstacles, obstacles <> [] /\
         found = S ∪ list_to_set (Dwg.oid <$> obstacles)) /\
    (hasObstacles = false ->
       found = S /\
       (Wrapper.length this < reached \/
        AlignmentRule.viewDistance rule <
          Math3d.vec3_len
            (Math3d.vec3_sub (AlignmentRule.objectPoint sc') (AlignmentRule.viewPoint sc)))).
Proof.
  intros Hstep Hpos Hfuel.
  destruct (findObstacles_total rule obstacleLayers selectableObjects this fuel
              (Host.iterations (Wrapper.length this) (AlignmentRule.objectStep rule))
              objectStation S sc Hstep)
    as ([[[hasObstacles reached] found] sc'] & Hfind); [|assumption|].
  { pose proof (iterations_enough (Wrapper.length this) _ Hstep). lra. }
  exists hasObstacles, reached, found, sc'. split; [assumption|].
  destruct (findObstacles_reach _ _ _ _ _ _ _ _ _ _ _ _ Hstep Hfind)
    as (Hge & _ & Ht & Hf).
  split; [assumption|]. split; [|assumption].
  intros Hhas. destruct (Ht Hhas) as (? & ? & obstacles & ? & ? & _).
  split; [assumption|]. split; [assumption|]. exists obstacles. now split.
Qed.

Section Playable.
Import Math3d Dwg Host AlignmentRule.
Context `{Ops}.
Variable rule : AlignmentVisibilityRule.
Variable obstacleLayers : gset nat.
Variable selectableObjects : Frustum.SegmentFrustum -> list DwgObject.
Variable this : Wrapper.AlignmentWrapper.

(** The log has fewer stations than the loop was given iterations. *)
Lemma probes_length (inner fuel : nat) (station : Q) (sc sc' : Scratch)
    (log : list Spec.Probe) :
  verdicts rule obstacleLayers selectableObjects this inner fuel station sc =
    Some (log, sc') ->
  (List.length log < fuel)%nat.
Proof.
  revert station sc sc' log. induction fuel as [|fuel IH];
    intros station sc sc' log; [discriminate|].
  cbn [verdicts].
  destruct (Js.leb _ _); [|intros [= <- _]; cbn; lia].
  destruct (look rule obstacleLayers selectableObjects this inner station ∅ sc)
    as [[[[hasObstacles reached] found] sc1]|];
    [rewrite bind_some|rewrite bind_none; discriminate].
  destruct (verdicts rule obstacleLayers selectableObjects this inner fuel
              (station + viewPointStep rule) sc1) as [[rest sc2]|] eqn:E;
    [rewrite bind_some|rewrite bind_none; discriminate].
  intros [= <- _]. specialize (IH _ _ _ _ E). cbn [List.length]. lia.
Qed.

Lemma addKeyFrame_length (kfs : list AlignmentVisibilityDiagnosticKeyFrame) (s o : Q) :
  (List.length (addKeyFrame kfs s o) <= Datatypes.S (List.length kfs))%nat.
Proof.
  destruct (addKeyFrame_cases kfs s o) as [->|(front & p & l & -> & ->)];
    rewrite !List.length_app; cbn [List.length]; lia.
Qed.

Lemma keyFramesOf_length (run : list Spec.Probe) :
  (List.length (Spec.keyFramesOf run) <= List.length run)%nat.
Proof.
  unfold Spec.keyFramesOf.
  assert (Hgen : forall kfs,
            (List.length
               (fold_left (fun kfs x => addKeyFrame kfs (fst x) (Spec.objectStation x))
                  run kfs) <= List.length kfs + List.length run)%nat).
  { induction run as [|x rest IH]; intros kfs; cbn [fold_left List.length]; [lia|].
    specialize (IH (addKeyFrame kfs (fst x) (Spec.objectStation x))).
    pose proof (addKeyFrame_length kfs (fst x) (Spec.objectStation x)). lia. }
  exact (Hgen []).
Qed.

Lemma ascending_NoDup (run : list Spec.Probe) :
  StronglySorted (fun x y : Spec.Probe => fst x < fst y) run -> List.NoDup run.
Proof.
  induction 1 as [|x run _ IH Hx]; constructor; [|assumption].
  intros Hin. rewrite List.Forall_forall in Hx. specialize (Hx x Hin). lra.
Qed.

End Playable.

(** X23.  What the sweep along an alignment emits can be played back.
    With positive steps, enough iterations and fewer than 2^31 of them,
    the scan of an alignment ends, and for every diagnostic it pushes the
    callback of the animation, run on the alignment, the rule and the
    key frames of the diagnostic, yields a view for every time [t]. *)
Theorem emitted_diagnostics_play `{Math3d.Ops}
    (vec3_normalize : Math3d.vec3 -> Math3d.vec3)
    (rule : AlignmentRule.AlignmentVisibilityRule) (obstacleLayers : gset nat)
    (selectableObjects : Frustum.SegmentFrustum -> list Dwg.DwgObject)
    (this : Wrapper.AlignmentWrapper) (fuel : nat) (sc : AlignmentRule.Scratch)
    (collection : list AlignmentRule.Entry) :
  0 < AlignmentRule.viewPointStep rule -> 0 < AlignmentRule.objectStep rule ->
  (Host.iterations (Wrapper.length this) (AlignmentRule.viewPointStep rule) < fuel)%nat ->
  (Host.iterations (Wrapper.length this) (AlignmentRule.objectStep rule) < fuel)%nat ->
  (Z.of_nat fuel < 2 ^ 31)%Z ->
  exists sc' emitted,
    AlignmentRule.scan rule obstacleLayers selectableObjects this fuel sc collection =
      Some (sc', collection ++ map inr emitted) /\
    Forall (fun d =>
              forall t,
                exists shown,
                  Playback.frame vec3_normalize (AlignmentRule.alignment d)
                    (AlignmentRule.rule d) (AlignmentRule.keyFrames d) t = Some shown)
           emitted.
Proof.
  intros Hstep Hostep Hfuel Hinner Hsmall.
  destruct (scan_runs rule obstacleLayers selectableObjects this fuel sc collection
              Hstep Hostep Hfuel Hinner) as (log & sc' & Hv & Hscan & Hs).
  exists sc', (map (Spec.probedDiagnostic rule this) (Spec.runs Spec.hasObstacles [] log)).
  split; [now rewrite map_map|].
  pose proof (probes_length _ _ _ _ _ _ _ _ _ _ Hv) as Hlog.
  apply List.Forall_forall. intros d Hd. apply in_map_iff in Hd as (r & <- & Hr).
  destruct (runs_entries _ _ _ _ Hr) as (Hne & Hin & _).
  pose proof (runs_ascending _ log [] r Hs Hr) as Hasc.
  pose proof (List.NoDup_incl_length (ascending_NoDup _ Hasc) Hin) as Hrun.
  pose proof (keyFramesOf_length (fst r)) as Hkfs.
  destruct r as [[|x run] closing]; [now contradiction Hne|].
  cbn [Spec.probedDiagnostic AlignmentRule.violation AlignmentRule.keyFrames
       AlignmentRule.alignment AlignmentRule.rule fst Spec.probedRange
       AlignmentRule.rangeKeyFrames] in *.
  destruct (keyFramesOf_bounds (x :: run) ltac:(discriminate)) as (Hkne & _).
  destruct (keyFramesOf_increasing (x :: run) Hasc) as (Hinc & _).
  intros t.
  apply (frame_defined vec3_normalize this rule (Spec.keyFramesOf (x :: run)) t Hkne Hinc).
  cbn [app] in Hrun. lia.
Qed.

(** ** The further facts on the road and on the samples *)

Section OnTheRoad.
#[local] Existing Instance Reference.ops.

Lemma modelIntersectsSegment_mesh_order_witness :
  Permutation (Dwg.meshes Samples.gate) (Dwg.meshes Samples.gateSwapped) /\
  Intersect.modelIntersectsSegment Samples.gate Reference.identity (0, 0, 1) (7 # 2, 0, 1) =
    Intersect.modelIntersectsSegment Samples.gateSwapped Reference.identity
      (0, 0, 1) (7 # 2, 0, 1).
Proof.
  assert (Hperm : Permutation (Dwg.meshes Samples.gate) (Dwg.meshes Samples.gateSwapped))
    by apply perm_swap.
  split; [exact Hperm|].
  exact (modelIntersectsSegment_mesh_order Samples.gate Samples.gateSwapped
           Reference.identity (0, 0, 1) (7 # 2, 0, 1) Hperm).
Defined.

Lemma cache_changes_no_answer_witness :
  Laws.oneMatrix [Reference.wall; Reference.sign] /\
  Laws.coherent ∅ [Reference.wall; Reference.sign] /\
  (fst (Host.drain (ObjectsRule.predicate Reference.sign (0, 0, 1) (7 # 2, 0, 1))
          [Reference.wall; Reference.sign] ∅) =
     List.filter (Laws.objectsTest Reference.sign (0, 0, 1) (7 # 2, 0, 1))
       [Reference.wall; Reference.sign] /\
   Laws.coherent
     (snd (Host.drain (ObjectsRule.predicate Reference.sign (0, 0, 1) (7 # 2, 0, 1))
             [Reference.wall; Reference.sign] ∅))
     [Reference.wall; Reference.sign]) /\
  (fst (Host.drain (AlignmentRule.predicate {[7%nat]} (0, 0, 1) (7 # 2, 0, 1))
          [Reference.wall; Reference.sign] ∅) =
     List.filter (Laws.alignmentTest {[7%nat]} (0, 0, 1) (7 # 2, 0, 1))
       [Reference.wall; Reference.sign] /\
   Laws.coherent
     (snd (Host.drain (AlignmentRule.predicate {[7%nat]} (0, 0, 1) (7 # 2, 0, 1))
             [Reference.wall; Reference.sign] ∅))
     [Reference.wall; Reference.sign]).
Proof.
  assert (Hone : Laws.oneMatrix [Reference.wall; Reference.sign]).
  { intros x y [<-|[<-|[]]] [<-|[<-|[]]] E; first [reflexivity|discriminate E]. }
  assert (Hc : Laws.coherent ∅ [Reference.wall; Reference.sign]).
  { intros obj m _ E. discriminate E. }
  split; [exact Hone|]. split; [exact Hc|].
  exact (cache_changes_no_answer Reference.sign {[7%nat]} (0, 0, 1) (7 # 2, 0, 1)
           [Reference.wall; Reference.sign] ∅ Hone Hc).
Defined.

Ltac road_steps :=
  assert (Hstep : 0 < AlignmentRule.viewPointStep Reference.alignmentRule) by reflexivity;
  assert (Hostep : 0 < AlignmentRule.objectStep Reference.alignmentRule) by reflexivity;
  assert (Hfuel : (Host.iterations (Wrapper.length Reference.road)
                     (AlignmentRule.viewPointStep Reference.alignmentRule) < 20)%nat)
    by (vm_compute; lia);
  assert (Hinner : (Host.iterations (Wrapper.length Reference.road)
                      (AlignmentRule.objectStep Reference.alignmentRule) < 20)%nat)
    by (vm_compute; lia).

Lemma scan_keyFrames_increasing_witness :
  0 < AlignmentRule.viewPointStep Reference.alignmentRule /\
  0 < AlignmentRule.objectStep Reference.alignmentRule /\
  (Host.iterations (Wrapper.length Reference.road)
     (AlignmentRule.viewPointStep Reference.alignmentRule) < 20)%nat /\
  (Host.iterations (Wrapper.length Reference.road)
     (AlignmentRule.objectStep Reference.alignmentRule) < 20)%nat /\
  exists sc' emitted,
    AlignmentRule.scan Reference.alignmentRule {[7%nat]} Reference.drawing
      Reference.road 20 Reference.alignmentScratch [] =
      Some (sc', [] ++ map inr emitted) /\
    Forall (fun d =>
              AlignmentRule.keyFrames d <> [] /\
              StronglySorted (fun a b : Q * Q => fst a < fst b) (AlignmentRule.keyFrames d) /\
              Forall (fun k : Q * Q =>
                        0 <= fst k /\
                        fst k + AlignmentRule.objectStep Reference.alignmentRule <= snd k /\
                        snd k <= Wrapper.length Reference.road)
                     (AlignmentRule.keyFrames d))
           emitted.
Proof.
  road_steps.
  split; [exact Hstep|]. split; [exact Hostep|]. split; [exact Hfuel|].
  split; [exact Hinner|].
  exact (scan_keyFrames_increasing Reference.alignmentRule {[7%nat]} Reference.drawing
           Reference.road 20 Reference.alignmentScratch [] Hstep Hostep Hfuel Hinner).
Defined.

Lemma scan_obstacles_offered_witness :
  0 < AlignmentRule.viewPointStep Reference.alignmentRule /\
  0 < AlignmentRule.objectStep Reference.alignmentRule /\
  (Host.iterations (Wrapper.length Reference.road)
     (AlignmentRule.viewPointStep Reference.alignmentRule) < 20)%nat /\
  (Host.iterations (Wrapper.length Reference.road)
     (AlignmentRule.objectStep Reference.alignmentRule) < 20)%nat /\
  exists sc' emitted,
    AlignmentRule.scan Reference.alignmentRule {[7%nat]} Reference.drawing
      Reference.road 20 Reference.alignmentScratch [] =
      Some (sc', [] ++ map inr emitted) /\
    Forall (fun d =>
              (exists o, o ∈ AlignmentRule.obstacles d) /\
              forall o, o ∈ AlignmentRule.obstacles d ->
                exists frustum f,
                  In f (Reference.drawing frustum) /\ Dwg.oid f = o /\
                  Dwg.type f = Dwg.model3d /\
                  AlignmentRule.onObstacleLayer {[7%nat]} f = true)
           emitted.
Proof.
  road_steps.
  split; [exact Hstep|]. split; [exact Hostep|]. split; [exact Hfuel|].
  split; [exact Hinner|].
  exact (scan_obstacles_offered Reference.alignmentRule {[7%nat]} Reference.drawing
           Reference.road 20 Reference.alignmentScratch [] Hstep Hostep Hfuel Hinner).
Defined.

Lemma execute_without_obstacle_layers_witness :
  0 < AlignmentRule.viewPointStep Reference.alignmentRule /\
  0 < AlignmentRule.objectStep Reference.alignmentRule /\
  Forall (fun a =>
            (Host.iterations (Host.length a)
               (AlignmentRule.viewPointStep Reference.alignmentRule) < 20)%nat /\
            (Host.iterations (Host.length a)
               (AlignmentRule.objectStep Reference.alignmentRule) < 20)%nat)
         [Reference.straight 4] /\
  exists messages,
    AlignmentRule.execute Reference.alignmentRule ∅ Reference.drawing 20 "drawing"
      [Reference.straight 4] = Some messages /\
    messages !! "drawing"%string = Some [inl AlignmentRule.noObstacleLayers] /\
    (forall name entries, messages !! name = Some entries -> name <> "drawing"%string ->
       entries = [] /\
       exists a, In a [Reference.straight 4] /\
         Wrapper.modelName
           (Wrapper.new a (AlignmentRule.direction Reference.alignmentRule)) = name) /\
    (forall a, In a [Reference.straight 4] ->
       is_Some (messages !!
                  Wrapper.modelName
                    (Wrapper.new a (AlignmentRule.direction Reference.alignmentRule)))).
Proof.
  assert (Hstep : 0 < AlignmentRule.viewPointStep Reference.alignmentRule) by reflexivity.
  assert (Hostep : 0 < AlignmentRule.objectStep Reference.alignmentRule) by reflexivity.
  assert (Hfuel : Forall (fun a =>
            (Host.iterations (Host.length a)
               (AlignmentRule.viewPointStep Reference.alignmentRule) < 20)%nat /\
            (Host.iterations (Host.length a)
               (AlignmentRule.objectStep Reference.alignmentRule) < 20)%nat)
         [Reference.straight 4]).
  { constructor; [|constructor]. split; vm_compute; lia. }
  split; [exact Hstep|]. split; [exact Hostep|]. split; [exact Hfuel|].
  exact (execute_without_obstacle_layers Reference.alignmentRule Reference.drawing 20
           "drawing" [Reference.straight 4] Hstep Hostep Hfuel).
Defined.

Lemma sweep_ranges_before_object_witness :
  0 < ObjectsRule.viewPointStep (Reference.objectsRule 3) /\
  (Host.iterations (Wrapper.length Reference.road)
     (ObjectsRule.viewPointStep (Reference.objectsRule 3)) < 20)%nat /\
  exists sc' emitted,
    ObjectsRule.sweep (Reference.objectsRule 3) Reference.drawing Reference.sign
      Reference.road (7 # 2) 20 Reference.signScratch [] =
      Some (sc', [] ++ map inr emitted) /\
    Forall (fun d =>
              0 <= ObjectsRule.rangeStart d /\
              ObjectsRule.rangeStart d <= ObjectsRule.rangeEnd d /\
              ObjectsRule.rangeEnd d <= Wrapper.length Reference.road /\
              ObjectsRule.rangeEnd d <= 7 # 2 /\
              (exists o, o ∈ ObjectsRule.obstacles d) /\
              Dwg.oid Reference.sign ∉ ObjectsRule.obstacles d)
           emitted.
Proof.
  assert (Hstep : 0 < ObjectsRule.viewPointStep (Reference.objectsRule 3)) by reflexivity.
  assert (Hfuel : (Host.iterations (Wrapper.length Reference.road)
                     (ObjectsRule.viewPointStep (Reference.objectsRule 3)) < 20)%nat)
    by (vm_compute; lia).
  split; [exact Hstep|]. split; [exact Hfuel|].
  exact (sweep_ranges_before_object (Reference.objectsRule 3) Reference.drawing
           Reference.sign Reference.road (7 # 2) 20 Reference.signScratch [] Hstep Hfuel).
Defined.

Lemma findObstacles_within_view_witness :
  0 < AlignmentRule.objectStep Reference.alignmentRule /\ 0 <= 1 /\
  (Host.iterations (Wrapper.length Reference.road)
     (AlignmentRule.objectStep Reference.alignmentRule) < 20)%nat /\
  exists hasObstacles reached found sc',
    AlignmentRule.findObstacles Reference.alignmentRule {[7%nat]} Reference.drawing
      Reference.road 20 1 ∅ Reference.alignmentScratch =
      Some (hasObstacles, reached, found, sc') /\
    1 <= reached /\
    (hasObstacles = true ->
       reached <= Wrapper.length Reference.road /\
       Math3d.vec3_len
         (Math3d.vec3_sub (AlignmentRule.objectPoint sc')
            (AlignmentRule.viewPoint Reference.alignmentScratch))
         <= AlignmentRule.viewDistance Reference.alignmentRule /\
       exists obstacles, obstacles <> [] /\
         found = ∅ ∪ list_to_set (Dwg.oid <$> obstacles)) /\
    (hasObstacles = false ->
       found = ∅ /\
       (Wrapper.length Reference.road < reached \/
        AlignmentRule.viewDistance Reference.alignmentRule <
          Math3d.vec3_len
            (Math3d.vec3_sub (AlignmentRule.objectPoint sc')
               (AlignmentRule.viewPoint Reference.alignmentScratch)))).
Proof.
  assert (Hostep : 0 < AlignmentRule.objectStep Reference.alignmentRule) by reflexivity.
  assert (Hpos : 0 <= 1) by (vm_compute; discriminate).
  assert (Hinner : (Host.iterations (Wrapper.length Reference.road)
                      (AlignmentRule.objectStep Reference.alignmentRule) < 20)%nat)
    by (vm_compute; lia).
  split; [exact Hostep|]. split; [exact Hpos|]. split; [exact Hinner|].
  exact (findObstacles_within_view Reference.alignmentRule {[7%nat]} Reference.drawing
           Reference.road 20 1 ∅ Reference.alignmentScratch Hostep Hpos Hinner).
Defined.

Lemma emitted_diagnostics_play_witness :
  0 < AlignmentRule.viewPointStep Reference.alignmentRule /\
  0 < AlignmentRule.objectStep Reference.alignmentRule /\
  (Host.iterations (Wrapper.length Reference.road)
     (AlignmentRule.viewPointStep Reference.alignmentRule) < 20)%nat /\
  (Host.iterations (Wrapper.length Reference.road)
     (AlignmentRule.objectStep Reference.alignmentRule) < 20)%nat /\
  (Z.of_nat 20 < 2 ^ 31)%Z /\
  exists sc' emitted,
    AlignmentRule.scan Reference.alignmentRule {[7%nat]} Reference.drawing
      Reference.road 20 Reference.alignmentScratch [] =
      Some (sc', [] ++ map inr emitted) /\
    Forall (fun d =>
              forall t,
                exists shown,
                  Playback.frame Samples.vec3_normalize (AlignmentRule.alignment d)
                    (AlignmentRule.rule d) (AlignmentRule.keyFrames d) t = Some shown)
           emitted.
Proof.
  road_steps.
  assert (Hsmall : (Z.of_nat 20 < 2 ^ 31)%Z) by (vm_compute; reflexivity).
  split; [exact Hstep|]. split; [exact Hostep|]. split; [exact Hfuel|].
  split; [exact Hinner|]. split; [exact Hsmall|].
  exact (emitted_diagnostics_play Samples.vec3_normalize Reference.alignmentRule {[7%nat]}
           Reference.drawing Reference.road 20 Reference.alignmentScratch []
           Hstep Hostep Hfuel Hinner Hsmall).
Defined.

Lemma execute_without_alignments_witness :
  [Reference.sign] <> [] /\
  Forall (fun object => is_Some (Spec.modelCorners (Dwg.meshes object))) [Reference.sign] /\
  ObjectsRule.execute (Reference.objectsRule 3) Reference.drawing 20 "model" []
    [Reference.sign] =
    Some {[ "model"%string := [inl ObjectsRule.noAlignments] ]}.
Proof.
  assert (Hne : [Reference.sign] <> []) by discriminate.
  assert (Hall : Forall (fun object => is_Some (Spec.modelCorners (Dwg.meshes object)))
                   [Reference.sign]).
  { constructor; [|constructor]. eexists. vm_compute. reflexivity. }
  split; [exact Hne|]. split; [exact Hall|].
  exact (execute_without_alignments (Reference.objectsRule 3) Reference.drawing 20
           "model" [Reference.sign] Hne Hall).
Defined.

End OnTheRoad.

Section OnTheSamples.

Lemma playback_keyFrame_in_force_witness :
  Samples.keyFrames <> [] /\
  StronglySorted (fun a b : Q * Q => fst a < fst b) Samples.keyFrames /\
  (Z.of_nat (List.length Samples.keyFrames) < 2 ^ 31)%Z /\
  exists i k,
    Playback.keyFrameIndex Samples.keyFrames 1 = Some i /\
    (0 <= i < Z.of_nat (List.length Samples.keyFrames))%Z /\
    Js.item Samples.keyFrames (Z.max 0 (i - 1)) = Some k /\
    Playback.objectStationAt Samples.keyFrames 1 = Some (snd k) /\
    ((0 < i)%Z -> fst k < 1) /\
    (forall j x, (i < j)%Z -> Js.item Samples.keyFrames j = Some x -> 1 < fst x).
Proof.
  assert (Hne : Samples.keyFrames <> []) by discriminate.
  assert (Hinc : StronglySorted (fun a b : Q * Q => fst a < fst b) Samples.keyFrames).
  { repeat constructor. }
  assert (Hlen : (Z.of_nat (List.length Samples.keyFrames) < 2 ^ 31)%Z)
    by (vm_compute; reflexivity).
  split; [exact Hne|]. split; [exact Hinc|]. split; [exact Hlen|].
  exact (playback_keyFrame_in_force Samples.keyFrames 1 Hne Hinc Hlen).
Defined.

Lemma playback_frame_from_start_witness :
  Samples.keyFrames <> [] /\
  StronglySorted (fun a b : Q * Q => fst a < fst b) Samples.keyFrames /\
  (Z.of_nat (List.length Samples.keyFrames) < 2 ^ 31)%Z /\
  exists first station atOne shown,
    Js.item Samples.keyFrames 0 = Some first /\
    Playback.stationAt Samples.keyFrames (3 # 2) = Some station /\
    Playback.stationAt Samples.keyFrames 1 = Some atOne /\
    (0 <= 3 # 2 -> fst first <= station) /\
    (3 # 2 == 0 -> station == fst first) /\
    (1 <= 3 # 2 -> station == atOne) /\
    Playback.frame Samples.vec3_normalize Reference.road Reference.alignmentRule
      Samples.keyFrames (3 # 2) = Some shown.
Proof.
  assert (Hne : Samples.keyFrames <> []) by discriminate.
  assert (Hinc : StronglySorted (fun a b : Q * Q => fst a < fst b) Samples.keyFrames).
  { repeat constructor. }
  assert (Hlen : (Z.of_nat (List.length Samples.keyFrames) < 2 ^ 31)%Z)
    by (vm_compute; reflexivity).
  split; [exact Hne|]. split; [exact Hinc|]. split; [exact Hlen|].
  exact (playback_frame_from_start Samples.vec3_normalize Reference.road
           Reference.alignmentRule Samples.keyFrames (3 # 2) Hne Hinc Hlen).
Defined.

Lemma objects_playback_from_start_witness :
  1 <= 2 /\
  1 <= Playback.objectsDuration 1 2 1 /\
  (0 <= 3 # 2 -> 1 <= Playback.viewPointStation 1 2 (3 # 2)) /\
  (3 # 2 == 0 -> Playback.viewPointStation 1 2 (3 # 2) == 1) /\
  (1 <= 3 # 2 ->
     Playback.viewPointStation 1 2 (3 # 2) == Playback.viewPointStation 1 2 1).
Proof.
  assert (Hrange : 1 <= 2) by (vm_compute; discriminate).
  split; [exact Hrange|].
  exact (objects_playback_from_start 1 2 1 (3 # 2) Hrange).
Defined.

Lemma enum_pick_shows_label_witness :
  NoDup (fst <$> Properties.values Samples.directions) /\
  In Samples.forward (Properties.getChildren Samples.directions) /\
  [Samples.backwardRule; Samples.forwardRule] <> [] /\
  Properties.enumValue Samples.directions "direction"
    (Properties.enumChange "direction" (Some Samples.forward)
       [Samples.backwardRule; Samples.forwardRule]) =
    Some (Properties.EnumSame (Some (Properties.itemLabel Samples.forward))) /\
  Forall (fun object => object !! "direction"%string = Some (Properties.id Samples.forward))
    (Properties.enumChange "direction" (Some Samples.forward)
       [Samples.backwardRule; Samples.forwardRule]) /\
  Forall2 (fun before after : Properties.EnumObject =>
             forall other, other <> "direction"%string ->
               after !! other = before !! other)
    [Samples.backwardRule; Samples.forwardRule]
    (Properties.enumChange "direction" (Some Samples.forward)
       [Samples.backwardRule; Samples.forwardRule]).
Proof.
  assert (Hnd : NoDup (fst <$> Properties.values Samples.directions)).
  { cbn. apply NoDup_cons. split; [|apply NoDup_singleton].
    intros Hin. apply list_elem_of_singleton in Hin. discriminate Hin. }
  assert (Hin : In Samples.forward (Properties.getChildren Samples.directions))
    by (left; reflexivity).
  assert (Hne : [Samples.backwardRule; Samples.forwardRule] <> []) by discriminate.
  split; [exact Hnd|]. split; [exact Hin|]. split; [exact Hne|].
  exact (enum_pick_shows_label Samples.directions "direction" Samples.forward
           [Samples.backwardRule; Samples.forwardRule] Hnd Hin Hne).
Defined.



End OnTheSamples.

(** ** The loop over the stations *)

Section StationLoop.
Import Host.

(** With a step that is not positive the loop stays at or before the
    end of the alignment, whatever its body does. *)
Lemma forStations_stuck {S : Type} (fuel : nat) (length step : Q)
    (body : Q -> S -> option S) (station : Q) (st : S) :
  step <= 0 -> station <= length ->
  forStations fuel length step body station st = None.
Proof.
  intros Hstep. revert station st. induction fuel as [|fuel IH]; intros station st Hle;
    [reflexivity|].
  cbn [forStations]. rewrite (proj2 (leb_le station length) Hle).
  destruct (body station st) as [st'|]; [rewrite bind_some|now rewrite bind_none].
  apply IH. lra.
Qed.

End StationLoop.

(** X24.  Neither rule checks its step.  On an alignment of length 0 or
    more, a view point step of 0 or less keeps the sweep at or before
    the end of the alignment for ever: no number of iterations lets the
    sweep towards an object or the scan along the alignment end. *)
Theorem sweeps_need_positive_step `{Math3d.Ops}
    (selectableObjects : Frustum.SegmentFrustum -> list Dwg.DwgObject)
    (this : Wrapper.AlignmentWrapper)
    (rule : AlignmentRule.AlignmentVisibilityRule) (obstacleLayers : gset nat)
    (sc : AlignmentRule.Scratch) (collection : list AlignmentRule.Entry)
    (rule' : ObjectsRule.ObjectsVisibilityRule) (object : Dwg.DwgObject)
    (objectStation : Q) (sc' : ObjectsRule.Scratch)
    (collection' : list ObjectsRule.Entry) :
  0 <= Wrapper.length this ->
  AlignmentRule.viewPointStep rule <= 0 -> ObjectsRule.viewPointStep rule' <= 0 ->
  forall fuel,
    AlignmentRule.scan rule obstacleLayers selectableObjects this fuel sc collection = None /\
    ObjectsRule.sweep rule' selectableObjects object this objectStation fuel sc' collection' =
      None.
Proof.
  intros Hlen Hstep Hstep' fuel. split.
  - unfold AlignmentRule.scan. now rewrite forStations_stuck.
  - unfold ObjectsRule.sweep. now rewrite forStations_stuck.
Qed.

Section StationsVisited.
Import Math3d Dwg Host ObjectsRule.
Context `{Ops}.
Variable rule : ObjectsVisibilityRule.
Variable selectableObjects : Frustum.SegmentFrustum -> list DwgObject.
Variable object : DwgObject.
Variable this : Wrapper.AlignmentWrapper.
Variable objectStation : Q.

#[local] Abbreviation verdicts :=
  (verdicts rule selectableObjects object this objectStation).

(** A log without stations: the first station was beyond the end. *)
Lemma verdicts_nil (fuel : nat) (station : Q) (sc sc' : Scratch) :
  verdicts fuel station sc = Some ([], sc') -> Wrapper.length this < station.
Proof.
  destruct fuel as [|fuel]; [discriminate|]. cbn [ObjectsRule.verdicts].
  destruct (Js.leb station (Wrapper.length this)) eqn:El; [|now apply leb_gt in El].
  destruct (look rule selectableObjects object this objectStation station sc)
    as [[outOfView obstacles] sc1].
  destruct (verdicts fuel (station + viewPointStep rule) sc1) as [[rest sc2]|];
    [rewrite bind_some|rewrite bind_none]; discriminate.
Qed.

(** The stations of the log: the first is the station the loop starts
    from, each next one is the one before plus the step, and one step
    after the last one the end of the alignment is passed. *)
Lemma verdicts_steps (fuel : nat) (station : Q) (sc sc' : Scratch)
    (log : list Spec.Seen) :
  verdicts fuel station sc = Some (log, sc') ->
  (forall x rest, log = x :: rest -> fst x = station) /\
  (forall k x y, nth_error log k = Some x -> nth_error log (S k) = Some y ->
     fst y = fst x + viewPointStep rule) /\
  (forall front x, log = front ++ [x] ->
     Wrapper.length this < fst x + viewPointStep rule).
Proof.
  revert station sc sc' log. induction fuel as [|fuel IH];
    intros station sc sc' log; [discriminate|].
  cbn [ObjectsRule.verdicts].
  destruct (Js.leb station (Wrapper.length this)).
  2: { intros [= <- _]. split; [discriminate|]. split; [intros [|k] x y; discriminate|].
       intros [|f front] x; discriminate. }
  destruct (look rule selectableObjects object this objectStation station sc)
    as [[outOfView obstacles] sc1].
  destruct (verdicts fuel (station + viewPointStep rule) sc1) as [[rest sc2]|] eqn:E;
    [rewrite bind_some|rewrite bind_none; discriminate].
  intros [= <- _]. destruct (IH _ _ _ _ E) as (Hhead & Hnext & Hlast).
  split; [now intros x l [= <- _]|]. split.
  - intros [|k] x y Hx Hy.
    + injection Hx as <-. destruct rest as [|z rest]; [discriminate|].
      injection Hy as <-. cbn [fst]. exact (Hhead z rest eq_refl).
    + exact (Hnext k x y Hx Hy).
  - intros [|f front] x Hlog.
    + injection Hlog as Hx Hrest. subst x rest. cbn [fst].
      exact (verdicts_nil _ _ _ _ E).
    + injection Hlog as _ Hrest. exact (Hlast front x Hrest).
Qed.

End StationsVisited.


Section OnTheRoadAgain.
#[local] Existing Instance Reference.ops.

Lemma sweeps_need_positive_step_witness :
  0 <= Wrapper.length Reference.road /\
  AlignmentRule.viewPointStep Samples.stalledAlignmentRule <= 0 /\
  ObjectsRule.viewPointStep Samples.stalledObjectsRule <= 0 /\
  forall fuel,
    AlignmentRule.scan Samples.stalledAlignmentRule {[7%nat]} Reference.drawing
      Reference.road fuel Reference.alignmentScratch [] = None /\
    ObjectsRule.sweep Samples.stalledObjectsRule Reference.drawing Reference.sign
      Reference.road (7 # 2) fuel Reference.signScratch [] = None.
Proof.
  assert (Hlen : 0 <= Wrapper.length Reference.road) by (vm_compute; discriminate).
  assert (Hstep : AlignmentRule.viewPointStep Samples.stalledAlignmentRule <= 0)
    by (vm_compute; discriminate).
  assert (Hstep' : ObjectsRule.viewPointStep Samples.stalledObjectsRule <= 0)
    by (vm_compute; discriminate).
  split; [exact Hlen|]. split; [exact Hstep|]. split; [exact Hstep'|].
  exact (sweeps_need_positive_step Reference.drawing Reference.road
           Samples.stalledAlignmentRule {[7%nat]} Reference.alignmentScratch []
           Samples.stalledObjectsRule Reference.sign (7 # 2) Reference.signScratch []
           Hlen Hstep Hstep').
Defined.


End OnTheRoadAgain.

(** ** utils/frustum.ts: a volume without extent *)

Section DegenerateVolume.
Import Js Math3d Frustum.
Context `{Ops}.

(** The ray of a volume whose ends are closer than [EPS] is the array it
    was given. *)
Lemma ray_degenerate (this : SegmentFrustum) (target : ray3) :
  vec3_distance (_a this) (_b this) < EPS -> ray this target = target.
Proof.
  intros Hd. unfold ray. fold (vec3_distance (_a this) (_b this)).
  apply ltb_lt in Hd. now rewrite Hd.
Qed.

(** X26.  A volume whose two ends are closer than 1e-3 forgets where it
    is: [ray] leaves the array of zeros it is given untouched, so
    [containsPoint] and [intersectSegment] measure against the ray of
    zeros, and any two such volumes, wherever they lie, give the same
    answers. *)
Theorem degenerate_volumes_agree (this other : SegmentFrustum) (p a b : vec3) :
  vec3_distance (_a this) (_b this) < (1 # 1000) ->
  vec3_distance (_a other) (_b other) < (1 # 1000) ->
  containsPoint this p = ltb (ray3_distanceToPoint ray3_zero p) (1 # 1000) /\
  containsPoint this p = containsPoint other p /\
  intersectSegment this a b = intersectSegment other a b.
Proof.
  intros Hthis Hother.
  assert (Hc : forall q, containsPoint this q = ltb (ray3_distanceToPoint ray3_zero q) EPS).
  { intros q. unfold containsPoint. now rewrite ray_degenerate. }
  assert (Hc' : forall q, containsPoint other q = ltb (ray3_distanceToPoint ray3_zero q) EPS).
  { intros q. unfold containsPoint. now rewrite ray_degenerate. }
  split; [apply Hc|]. split; [now rewrite Hc, Hc'|].
  unfold intersectSegment. rewrite !ray_degenerate by assumption.
  now rewrite !Hc, !Hc'.
Qed.

End DegenerateVolume.

Section DegenerateVolumeWitness.
#[local] Existing Instance Reference.ops.

Lemma degenerate_volumes_agree_witness :
  let this := {| Frustum._a := (5, 5, 5); Frustum._b := (5, 5, 5) |} in
  let other := {| Frustum._a := (0, 0, 0); Frustum._b := (0, 0, 0) |} in
  Math3d.vec3_distance (Frustum._a this) (Frustum._b this) < (1 # 1000) /\
  Math3d.vec3_distance (Frustum._a other) (Frustum._b other) < (1 # 1000) /\
  Frustum.containsPoint this (5, 5, 5) =
    Js.ltb (Math3d.ray3_distanceToPoint Math3d.ray3_zero (5, 5, 5)) (1 # 1000) /\
  Frustum.containsPoint this (5, 5, 5) = Frustum.containsPoint other (5, 5, 5) /\
  Frustum.intersectSegment this (0, 0, 0) (1, 0, 0) =
    Frustum.intersectSegment other (0, 0, 0) (1, 0, 0).
Proof.
  intros this other.
  assert (Hthis : Math3d.vec3_distance (Frustum._a this) (Frustum._b this) < (1 # 1000))
    by (vm_compute; reflexivity).
  assert (Hother : Math3d.vec3_distance (Frustum._a other) (Frustum._b other) < (1 # 1000))
    by (vm_compute; reflexivity).
  split; [exact Hthis|]. split; [exact Hother|].
  exact (degenerate_volumes_agree this other (5, 5, 5) (0, 0, 0) (1, 0, 0) Hthis Hother).
Defined.

End DegenerateVolumeWitness.
